(** * SentimentAnalysisService: the sentiment scoring core

    A shallow embedding of [SentimentAnalysisService] (services/sentimentApi):
    the text normaliser [preprocessText], the remote gateway
    [callSentimentAPI], the combiner ([analyzeSentiment],
    [combineEnsembleResults], [getEnhancedMockSentiment]), the batch driver
    [analyzeBatch] and [extractKeywords]; and of their callers, the handlers
    of the dashboard ([App]) and the input form ([TextInput]).

    Modelling choices.
    - A JavaScript string is the list of its UTF-16 code units ([jsstring]);
      the regular expressions of the source carry no [u] flag and so work on
      code units too.  Labels and endpoint names, which the code only compares
      and looks up, are plain [string]s.
    - [toLowerCase] maps the ASCII capitals to small letters and keeps every
      other code unit; the case mapping of capitals outside ASCII is not
      modelled.
    - A JavaScript number is an element of a type [R] with the operations of
      the class [Number].  Two instances are given: IEEE binary64 (primitive
      floats), which is the arithmetic the program performs, used to run the
      code on concrete inputs; and exact rationals kept in lowest terms.  A
      statement over every [R] holds of both; a statement about the rationals
      says so, and is about the scores before rounding.
    - Objects used as tables are association lists in insertion order, which
      is the order of [Object.entries].  Reading [table[key]] with a key that
      comes from outside ([get]) finds the own property or else the member of
      [Object.prototype] of that name, as JavaScript does.
    - A score that is NaN has no place in [R].  The one place that produces
      NaN (the fusion, on a label that names a member of [Object.prototype])
      returns the table itself ([NotANumber]) instead of a sorted list: the
      comparison function is not consistent on NaN and the order the engine
      leaves is implementation-defined.  What depends on that order (the
      dashboard's handlers) has no value there ([None]).
    - The remote classifiers are an oracle [network]; the calls issued and the
      pauses taken are recorded in a log threaded through the monad [M]. *)

From Stdlib Require Import String Ascii List Bool Arith NArith ZArith Lia.
From Stdlib Require Import QArith Qreduction Lqa.
From Stdlib Require Import Permutation Sorted.
From Stdlib Require Import PrimFloat Uint63 SpecFloat FloatOps.
From Stdlib Require Import DecimalString.
Import ListNotations.
Close Scope Q_scope.
Open Scope nat_scope.

Set Warnings "-inexact-float".

(** ** JavaScript strings *)

Module JS.

Definition jsstring := list N.

(** The code units of an ASCII literal. *)
Definition js (s : string) : jsstring :=
  map N_of_ascii (list_ascii_of_string s).

Definition inRange (lo hi c : N) : bool := ((lo <=? c) && (c <=? hi))%N.

Definition isUpper (c : N) : bool := inRange 65 90 c.
Definition isLower (c : N) : bool := inRange 97 122 c.
Definition isDigit (c : N) : bool := inRange 48 57 c.

(** [\w]: letters, digits and the underscore. *)
Definition isWordChar (c : N) : bool :=
  isUpper c || isLower c || isDigit c || (c =? 95)%N.

(** [\s], which is also what [trim] strips: WhiteSpace and LineTerminator. *)
Definition isSpace (c : N) : bool :=
  inRange 9 13 c || (c =? 32)%N || (c =? 160)%N || (c =? 5760)%N
  || inRange 8192 8202 c || (c =? 8232)%N || (c =? 8233)%N
  || (c =? 8239)%N || (c =? 8287)%N || (c =? 12288)%N || (c =? 65279)%N.

Definition lowerUnit (c : N) : N := if isUpper c then (c + 32)%N else c.
Definition upperUnit (c : N) : N := if isLower c then (c - 32)%N else c.

Definition toLowerCase (s : jsstring) : jsstring := map lowerUnit s.

Fixpoint eqs (a b : jsstring) : bool :=
  match a, b with
  | [], [] => true
  | x :: a', y :: b' => (x =? y)%N && eqs a' b'
  | _, _ => false
  end.

(** [startsWith]; with [ci] the comparison is the one of the [i] flag for an
    ASCII pattern. *)
Fixpoint startsWith (ci : bool) (pat s : jsstring) : bool :=
  match pat, s with
  | [], _ => true
  | p :: pat', c :: s' =>
      (if ci then (upperUnit p =? upperUnit c)%N else (p =? c)%N)
      && startsWith ci pat' s'
  | _ :: _, [] => false
  end.

Fixpoint includes (pat s : jsstring) : bool :=
  startsWith false pat s
  || match s with
     | [] => false
     | _ :: s' => includes pat s'
     end.

Definition memberOf (w : jsstring) (l : list jsstring) : bool :=
  existsb (eqs w) l.

Fixpoint dropWhile (p : N -> bool) (s : jsstring) : jsstring :=
  match s with
  | c :: s' => if p c then dropWhile p s' else s
  | [] => []
  end.

Fixpoint countWhile (p : N -> bool) (s : jsstring) : nat :=
  match s with
  | c :: s' => if p c then S (countWhile p s') else 0
  | [] => 0
  end.

Definition trim (s : jsstring) : jsstring :=
  rev (dropWhile isSpace (rev (dropWhile isSpace s))).

(** *** Regular expressions

    A pattern is a matcher: given the code unit before the position (for
    [\b]) and the text from the position on, the length of the match there,
    if there is one.  No pattern of the source matches the empty string. *)

Definition matcher := option N -> jsstring -> option nat.

Definition wordBefore (prev : option N) : bool :=
  match prev with Some c => isWordChar c | None => false end.

Definition wordAt (s : jsstring) : bool :=
  match s with c :: _ => isWordChar c | [] => false end.

(** [\b] between [prev] and the head of [s]. *)
Definition boundary (prev : option N) (s : jsstring) : bool :=
  xorb (wordBefore prev) (wordAt s).

(** An alternation of literals [(w1|w2|...)] followed by the rest of the
    pattern [k]: the first alternative after which [k] matches. *)
Fixpoint alt (ci : bool) (ws : list jsstring) (k : jsstring -> option nat)
  (s : jsstring) : option nat :=
  match ws with
  | [] => None
  | w :: ws' =>
      if startsWith ci w s then
        match k (skipn (length w) s) with
        | Some n => Some (length w + n)
        | None => alt ci ws' k s
        end
      else alt ci ws' k s
  end.

Definition done : jsstring -> option nat := fun _ => Some 0.

(** [c{n,}] for a class [c], greedy, at the end of a pattern. *)
Definition atLeast (n : nat) (p : N -> bool) (s : jsstring) : option nat :=
  let k := countWhile p s in
  if n <=? k then Some k else None.

(** [/\b(w1|...)\s+/gi] *)
Definition wordThenSpaces (ws : list jsstring) : matcher :=
  fun prev s =>
    if boundary prev s then alt true ws (atLeast 1 isSpace) s else None.

Definition lastUnit (prev : option N) (w : jsstring) : option N :=
  match rev w with c :: _ => Some c | [] => prev end.

(** [/\bw\b/g] *)
Definition wholeWord (w : jsstring) : matcher :=
  fun prev s =>
    if boundary prev s && startsWith false w s
       && boundary (lastUnit prev w) (skipn (length w) s)
    then Some (length w) else None.

(** [new RegExp(w, flags)] for a pattern [w] free of metacharacters, and an
    alternation of such. *)
Definition literals (ci : bool) (ws : list jsstring) : matcher :=
  fun _ s => alt ci ws done s.

Definition run (n : nat) (p : N -> bool) : matcher :=
  fun _ s => atLeast n p s.

(** [s.replace(re, rep)] for a global [re]: the scan restarts after each
    match; [skip] counts the units of the current match still to pass. *)
Fixpoint replaceFrom (m : matcher) (rep : jsstring) (skip : nat)
  (prev : option N) (s : jsstring) : jsstring :=
  match s with
  | [] => []
  | c :: s' =>
      match skip with
      | S k => replaceFrom m rep k (Some c) s'
      | 0 =>
          match m prev s with
          | Some (S k) => rep ++ replaceFrom m rep k (Some c) s'
          | _ => c :: replaceFrom m rep 0 (Some c) s'
          end
      end
  end.

Definition replace (m : matcher) (rep : jsstring) (s : jsstring) : jsstring :=
  replaceFrom m rep 0 None s.

(** [s.match(re)] for a global [re], as the number of matches (0 for
    [null]). *)
Fixpoint countFrom (m : matcher) (skip : nat) (prev : option N)
  (s : jsstring) : nat :=
  match s with
  | [] => 0
  | c :: s' =>
      match skip with
      | S k => countFrom m k (Some c) s'
      | 0 =>
          match m prev s with
          | Some (S k) => S (countFrom m k (Some c) s')
          | _ => countFrom m 0 (Some c) s'
          end
      end
  end.

Definition matchCount (m : matcher) (s : jsstring) : nat :=
  countFrom m 0 None s.

(** [s.split(/[c]+/)] for a class [c]: the fields between the maximal runs
    of separators; [cur] is the field being read, reversed. *)
Fixpoint splitFrom (sep : N -> bool) (cur : jsstring) (inRun : bool)
  (s : jsstring) : list jsstring :=
  match s with
  | [] => [rev cur]
  | c :: s' =>
      if sep c then
        if inRun then splitFrom sep [] true s'
        else rev cur :: splitFrom sep [] true s'
      else splitFrom sep (c :: cur) false s'
  end.

Definition split (sep : N -> bool) (s : jsstring) : list jsstring :=
  splitFrom sep [] false s.

End JS.
Import JS.

(** ** Numbers *)

Class Number (R : Type) := {
  lit : Q -> R;                 (* a numeric literal *)
  ofNat : nat -> R;             (* a length or a count *)
  nadd : R -> R -> R;
  nsub : R -> R -> R;
  nmul : R -> R -> R;
  ndiv : R -> R -> R;
  ngt : R -> R -> bool;         (* a > b *)
  neq : R -> R -> bool          (* a === b *)
}.

Declare Scope num_scope.
Delimit Scope num_scope with num.
Infix "+" := nadd : num_scope.
Infix "-" := nsub : num_scope.
Infix "*" := nmul : num_scope.
Infix "/" := ndiv : num_scope.
Infix ">?" := ngt (at level 70, no associativity) : num_scope.
Infix "===" := neq (at level 70, no associativity) : num_scope.

(** [Math.min] on numbers that are not NaN. *)
Definition nmin {R} `{Number R} (a b : R) : R := if (a >? b)%num then b else a.

(** IEEE binary64.  A literal [n/d] with [n] and [d] below 2^53 is the double
    nearest to it, which is what the correctly rounded quotient gives. *)
Definition floatOfZ (z : Z) : float :=
  match z with
  | Zneg p => PrimFloat.opp (PrimFloat.of_uint63 (Uint63.of_Z (Zpos p)))
  | _ => PrimFloat.of_uint63 (Uint63.of_Z z)
  end.

#[global] Instance FloatNumber : Number float := {|
  lit q := PrimFloat.div (floatOfZ (Qnum q)) (floatOfZ (Zpos (Qden q)));
  ofNat n := floatOfZ (Z.of_nat n);
  nadd := PrimFloat.add;
  nsub := PrimFloat.sub;
  nmul := PrimFloat.mul;
  ndiv := PrimFloat.div;
  ngt a b := PrimFloat.ltb b a;
  neq := PrimFloat.eqb
|}.

(** Exact rationals, every result in lowest terms, so that equal numbers are
    equal terms. *)
#[global] Instance QNumber : Number Q := {|
  lit q := Qred q;
  ofNat n := inject_Z (Z.of_nat n);
  nadd a b := Qred (Qplus a b);
  nsub a b := Qred (Qminus a b);
  nmul a b := Qred (Qmult a b);
  ndiv a b := Qred (Qdiv a b);
  ngt a b := negb (Qle_bool a b);
  neq := Qeq_bool
|}.

(** ** The service *)

Record ApiResponse (R : Type) := { label : string; score : R }.
Arguments Build_ApiResponse {R} _ _.
Arguments label {R} _.
Arguments score {R} _.

(** [Array.prototype.sort(cmp)], which is stable: [x] moves behind [y] when
    [cmp x y > 0]. *)
Section Sort.
Context {R} `{Number R} {A : Type}.
Variable cmp : A -> A -> R.

Fixpoint insert (x : A) (l : list A) : list A :=
  match l with
  | [] => [x]
  | y :: l' => if (cmp x y >? lit 0)%num then y :: insert x l' else x :: l
  end.

Fixpoint sort (l : list A) : list A :=
  match l with
  | [] => []
  | x :: l' => insert x (sort l')
  end.
End Sort.

(** [array.slice(from, to)] *)
Definition slice {A} (l : list A) (from to : nat) : list A :=
  firstn (to - from) (skipn from l).

(** Lookup of an own property. *)
Fixpoint lookup {V} (table : list (string * V)) (key : string) : option V :=
  match table with
  | [] => None
  | (k, v) :: table' => if String.eqb k key then Some v else lookup table' key
  end.

(** The properties of [Object.prototype], which every object literal
    inherits: eleven functions and the accessor [__proto__], which answers
    with the prototype itself.  All of them are truthy. *)
Definition objectPrototype : list string :=
  [ "constructor"; "__defineGetter__"; "__defineSetter__"; "hasOwnProperty";
    "__lookupGetter__"; "__lookupSetter__"; "isPrototypeOf";
    "propertyIsEnumerable"; "toString"; "valueOf"; "__proto__";
    "toLocaleString" ]%string.

Definition inherited (key : string) : bool :=
  existsb (String.eqb key) objectPrototype.

(** What reading a table of strings gives: a string of the table, or the
    member of [Object.prototype] of that name. *)
Inductive Value :=
| Str (s : string)
| Member (name : string).

(** [table[key]], [None] for undefined. *)
Definition get (table : list (string * string)) (key : string)
  : option Value :=
  match lookup table key with
  | Some v => Some (Str v)
  | None => if inherited key then Some (Member key) else None
  end.

(** [String(member)], the property key a member of [Object.prototype]
    becomes when it indexes an object (as V8 prints a built-in function). *)
Definition describe (name : string) : string :=
  if String.eqb name "__proto__" then "[object Object]"%string
  else ("function " ++ name ++ "() { [native code] }")%string.

(** What an analysis returns: a list of results; or, from the fusion, the
    table of scores when it holds scores that are NaN.  [NotANumber numbers
    members] stands for the array of the entries of [numbers] and, for each
    name of [members], of an entry labelled with that member as a string
    whose score is NaN, in the order the engine's sort leaves them. *)
Inductive Analysis (R : Type) : Type :=
| Results (results : list (ApiResponse R))
| NotANumber (numbers : list (string * R)) (members : list string).
Arguments Results {R} _.
Arguments NotANumber {R} _ _.

Module Normalizer.

Definition negations : list jsstring :=
  map js ["not"; "no"; "never"; "nothing"; "nowhere"; "nobody"; "none";
          "neither"; "nor"]%string.

Definition intensifiers : list jsstring :=
  map js ["very"; "extremely"; "incredibly"; "absolutely"; "totally";
          "completely"]%string.

Definition diminishers : list jsstring :=
  map js ["slightly"; "somewhat"; "rather"; "quite"; "fairly";
          "pretty"]%string.

Definition contractions : list (jsstring * jsstring) :=
  map (fun '(c, e) => (js c, js e))
    [("won't", "will not"); ("can't", "cannot"); ("n't", " not");
     ("'re", " are"); ("'ve", " have"); ("'ll", " will"); ("'d", " would");
     ("'m", " am"); ("it's", "it is"); ("that's", "that is")]%string.

(** The emoji of each class, as UTF-16 code units: a surrogate pair, or a
    symbol followed by the variation selector U+FE0F. *)
Definition emojiPatterns : list (list jsstring * jsstring) :=
  [ (map (fun c => [fst c; snd c])
       [(0xD83D, 0xDE0A); (0xD83D, 0xDE00); (0xD83D, 0xDE03);
        (0xD83D, 0xDE04); (0xD83D, 0xDE01); (0xD83D, 0xDE42);
        (0xD83D, 0xDE0C); (0xD83D, 0xDE0D); (0xD83E, 0xDD70);
        (0xD83D, 0xDE18); (0xD83E, 0xDD17)]%N,
     js " POSITIVE_EMOJI ");
    (map (fun c => [fst c; snd c])
       [(0xD83D, 0xDE22); (0xD83D, 0xDE2D); (0xD83D, 0xDE1E);
        (0xD83D, 0xDE14); (0xD83D, 0xDE1F); (0xD83D, 0xDE15);
        (0xD83D, 0xDE41); (0x2639, 0xFE0F); (0xD83D, 0xDE30);
        (0xD83D, 0xDE28)]%N,
     js " NEGATIVE_EMOJI ");
    (map (fun c => [fst c; snd c])
       [(0xD83D, 0xDE10); (0xD83D, 0xDE11); (0xD83E, 0xDD14);
        (0xD83D, 0xDE36); (0xD83D, 0xDE44); (0xD83D, 0xDE0F)]%N,
     js " NEUTRAL_EMOJI ");
    (map (fun c => [fst c; snd c])
       [(0xD83D, 0xDE21); (0xD83D, 0xDE20); (0xD83E, 0xDD2C);
        (0xD83D, 0xDE24); (0xD83D, 0xDCA2)]%N,
     js " ANGER_EMOJI ");
    (map (fun c => [fst c; snd c])
       [(0x2764, 0xFE0F); (0xD83D, 0xDC95); (0xD83D, 0xDC96);
        (0xD83D, 0xDC97); (0xD83D, 0xDC9D); (0xD83E, 0xDDE1);
        (0xD83D, 0xDC9B); (0xD83D, 0xDC9A); (0xD83D, 0xDC99);
        (0xD83D, 0xDC9C)]%N,
     js " LOVE_EMOJI ") ].

Definition positiveEmoticons : list jsstring :=
  map js [":)"; ":-)"; ":]"; ":D"; ":-D"; "=)"; "=D"]%string.
Definition negativeEmoticons : list jsstring :=
  map js [":("; ":-("; ":["; "=("; "D:"]%string.
Definition neutralEmoticons : list jsstring :=
  map js [":|"; ":-|"; "=|"]%string.

Definition isChar (ch : string) (c : N) : bool := eqs (js ch) [c].

Definition preprocessText (text : jsstring) : jsstring :=
  let processed := trim text in
  (* negations, intensifiers, diminishers *)
  let processed := replace (wordThenSpaces negations) (js "NOT_") processed in
  let processed :=
    replace (wordThenSpaces intensifiers) (js "INTENSIFIER_") processed in
  let processed :=
    replace (wordThenSpaces diminishers) (js "DIMINISHER_") processed in
  (* contractions, in the order of the table *)
  let processed :=
    fold_left
      (fun processed '(contraction, expansion) =>
         replace (literals true [contraction]) expansion processed)
      contractions processed in
  (* runs of punctuation *)
  let processed := replace (run 2 (isChar "!")) (js " EXCITEMENT ") processed in
  let processed := replace (run 2 (isChar "?")) (js " CONFUSION ") processed in
  let processed := replace (run 3 (isChar ".")) (js " PAUSE ") processed in
  (* emoji, in the order of the table *)
  let processed :=
    fold_left
      (fun processed '(pattern, replacement) =>
         replace (literals false pattern) replacement processed)
      emojiPatterns processed in
  (* emoticons *)
  let processed :=
    replace (literals false positiveEmoticons) (js " POSITIVE_EMOTICON ")
      processed in
  let processed :=
    replace (literals false negativeEmoticons) (js " NEGATIVE_EMOTICON ")
      processed in
  let processed :=
    replace (literals false neutralEmoticons) (js " NEUTRAL_EMOTICON ")
      processed in
  processed.

End Normalizer.
Import Normalizer.

(** ** The local estimator *)

Section Estimator.
Context {R : Type} `{Number R}.
Local Open Scope num_scope.

Record TextFeatures := {
  positiveScore : R;
  negativeScore : R;
  neutralScore : R;
  hasNegation : bool;
  hasIntensifier : bool;
  hasDiminisher : bool
}.

Record SentenceScore := { positive : R; negative : R; neutral : R }.

Definition positiveWords : list jsstring :=
  map js ["excellent"; "amazing"; "wonderful"; "fantastic"; "perfect";
          "outstanding"; "brilliant"; "superb"; "magnificent"; "delightful";
          "awesome"; "great"; "good"; "love"; "like"; "enjoy"; "happy";
          "pleased"; "satisfied"; "impressive"; "remarkable"; "exceptional";
          "marvelous"; "terrific"]%string.

Definition negativeWords : list jsstring :=
  map js ["terrible"; "awful"; "horrible"; "disgusting"; "disappointing";
          "pathetic"; "atrocious"; "dreadful"; "appalling"; "abysmal"; "bad";
          "hate"; "dislike"; "annoying"; "frustrating"; "useless";
          "worthless"; "poor"; "worst"; "unacceptable"; "inadequate";
          "inferior"; "defective"; "faulty"]%string.

Definition neutralWords : list jsstring :=
  map js ["okay"; "average"; "normal"; "standard"; "typical"; "regular";
          "ordinary"; "common"; "usual"; "basic"; "moderate"; "fair"]%string.

(** One [forEach] over a word list: every word with a match adds its
    number of matches times [weight]. *)
Definition countWords (words : list jsstring) (weight : R)
  (lowerText : jsstring) (score0 : R) : R :=
  fold_left
    (fun score word =>
       let matches := matchCount (wholeWord word) lowerText in
       if (0 <? matches)%nat then score + ofNat matches * weight else score)
    words score0.

Definition analyzeSentenceStructure (sentence : jsstring) : SentenceScore :=
  let positive := lit 0 in
  let negative := lit 0 in
  let neutral := lit 0 in
  (* comparative structures *)
  let '(positive, negative) :=
    if includes (js "better than") sentence
       || includes (js "worse than") sentence
    then
      let positive :=
        if includes (js "better than") sentence
        then positive + lit 0.2 else positive in
      let negative :=
        if includes (js "worse than") sentence
        then negative + lit 0.2 else negative in
      (positive, negative)
    else (positive, negative) in
  (* conditional statements *)
  let neutral :=
    if includes (js "if") sentence || includes (js "would") sentence
    then neutral + lit 0.1 else neutral in
  (* questions *)
  let neutral :=
    if includes (js "?") sentence then neutral + lit 0.1 else neutral in
  {| positive := positive; negative := negative; neutral := neutral |}.

Definition extractTextFeatures (processedText originalText : jsstring)
  : TextFeatures :=
  let lowerText := toLowerCase originalText in
  let lowerProcessed := toLowerCase processedText in
  let positiveScore := lit 0 in
  let negativeScore := lit 0 in
  let neutralScore := lit 0.3 in
  let positiveScore :=
    countWords positiveWords (lit 0.4) lowerText positiveScore in
  let negativeScore :=
    countWords negativeWords (lit 0.4) lowerText negativeScore in
  let neutralScore :=
    countWords neutralWords (lit 0.3) lowerText neutralScore in
  (* the indicators are looked for in the lower-cased text *)
  let hasNegation := includes (js "NOT_") lowerProcessed in
  let hasIntensifier := includes (js "INTENSIFIER_") lowerProcessed in
  let hasDiminisher := includes (js "DIMINISHER_") lowerProcessed in
  let hasPositiveEmoji :=
    includes (js "POSITIVE_EMOJI") lowerProcessed
    || includes (js "LOVE_EMOJI") lowerProcessed
    || includes (js "POSITIVE_EMOTICON") lowerProcessed in
  let hasNegativeEmoji :=
    includes (js "NEGATIVE_EMOJI") lowerProcessed
    || includes (js "ANGER_EMOJI") lowerProcessed
    || includes (js "NEGATIVE_EMOTICON") lowerProcessed in
  let hasExcitement := includes (js "EXCITEMENT") lowerProcessed in
  let positiveScore :=
    if hasPositiveEmoji then positiveScore + lit 0.5 else positiveScore in
  let negativeScore :=
    if hasNegativeEmoji then negativeScore + lit 0.5 else negativeScore in
  let '(positiveScore, negativeScore) :=
    if hasExcitement then
      if positiveScore >? negativeScore
      then (positiveScore + lit 0.3, negativeScore)
      else (positiveScore, negativeScore + lit 0.3)
    else (positiveScore, negativeScore) in
  (* sentence structure *)
  let sentences :=
    filter (fun s => (0 <? length (trim s))%nat)
      (split (fun c => isChar "." c || isChar "!" c || isChar "?" c)
         originalText) in
  let '(positiveScore, negativeScore, neutralScore) :=
    if (1 <? length sentences)%nat then
      fold_left
        (fun '(positiveScore, negativeScore, neutralScore) sentence =>
           let sentenceScore := analyzeSentenceStructure sentence in
           (positiveScore + positive sentenceScore,
            negativeScore + negative sentenceScore,
            neutralScore + neutral sentenceScore))
        sentences (positiveScore, negativeScore, neutralScore)
    else (positiveScore, negativeScore, neutralScore) in
  {| positiveScore := positiveScore;
     negativeScore := negativeScore;
     neutralScore := neutralScore;
     hasNegation := hasNegation;
     hasIntensifier := hasIntensifier;
     hasDiminisher := hasDiminisher |}.

(** The three scores after the context-aware adjustments, in the order
    positive, negative, neutral. *)
Definition adjust (features : TextFeatures) : R * R * R :=
  let positiveScore := positiveScore features in
  let negativeScore := negativeScore features in
  let neutralScore := neutralScore features in
  let '(positiveScore, negativeScore) :=
    if hasNegation features
    then (negativeScore, positiveScore)
    else (positiveScore, negativeScore) in
  let '(positiveScore, negativeScore) :=
    if hasIntensifier features then
      if positiveScore >? negativeScore
      then (positiveScore * lit 1.3, negativeScore)
      else (positiveScore, negativeScore * lit 1.3)
    else (positiveScore, negativeScore) in
  if hasDiminisher features
  then (positiveScore * lit 0.8, negativeScore * lit 0.8,
        neutralScore * lit 1.2)
  else (positiveScore, negativeScore, neutralScore).

Definition defaultDistribution : list (ApiResponse R) :=
  [ {| label := "LABEL_1"; score := lit 0.6 |};
    {| label := "LABEL_2"; score := lit 0.25 |};
    {| label := "LABEL_0"; score := lit 0.15 |} ].

Definition byScoreDescending (a b : ApiResponse R) : R := score b - score a.

(** The normalisation step of [getEnhancedMockSentiment]. *)
Definition normalize (scores : R * R * R) : list (ApiResponse R) :=
  let '(positiveScore, negativeScore, neutralScore) := scores in
  let total := positiveScore + negativeScore + neutralScore in
  if total === lit 0 then defaultDistribution
  else
    let normalizedPositive := positiveScore / total in
    let normalizedNegative := negativeScore / total in
    let normalizedNeutral := neutralScore / total in
    sort byScoreDescending
      [ {| label := "LABEL_2"; score := normalizedPositive |};
        {| label := "LABEL_0"; score := normalizedNegative |};
        {| label := "LABEL_1"; score := normalizedNeutral |} ].

Definition getEnhancedMockSentiment (processedText originalText : jsstring)
  : list (ApiResponse R) :=
  let features := extractTextFeatures processedText originalText in
  normalize (adjust features).

End Estimator.

Arguments TextFeatures R : clear implicits.
Arguments SentenceScore R : clear implicits.

(** ** Ensemble fusion *)

Section Fusion.
Context {R : Type} `{Number R}.
Local Open Scope num_scope.

Definition labelMap : list (string * string) :=
  [ ("LABEL_0", "LABEL_0"); ("LABEL_1", "LABEL_1"); ("LABEL_2", "LABEL_2");
    ("negative", "LABEL_0"); ("neutral", "LABEL_1"); ("positive", "LABEL_2");
    ("1 star", "LABEL_0"); ("2 stars", "LABEL_0"); ("3 stars", "LABEL_1");
    ("4 stars", "LABEL_2"); ("5 stars", "LABEL_2") ]%string.

(** [labelMap[label] || null]: the canonical label of a key of the table,
    null ([None]) for a label that is no property at all, and for a label
    that names a member of [Object.prototype] that member.  No value of the
    table is the empty string. *)
Definition normalizeLabelToStandard (label : string) : option Value :=
  get labelMap label.

(** The table [combinedScores]: its keys with a number as score, in
    insertion order, and after them the keys whose score is NaN, each the
    member of [Object.prototype] that was used as key. *)
Record Scores := { numbers : list (string * R); notANumber : list string }.

(** [combinedScores[key] += x], for a key the object has. *)
Fixpoint addTo (combinedScores : list (string * R)) (key : string) (x : R)
  : list (string * R) :=
  match combinedScores with
  | [] => []
  | (k, v) :: rest =>
      if String.eqb k key then (k, v + x) :: rest
      else (k, v) :: addTo rest key x
  end.

(** [combinedScores[normalizedLabel] += x].  A canonical label is a key of
    [combinedScores] from the start.  A member of [Object.prototype] becomes
    a key [combinedScores] does not have: what is read is undefined, the
    sum is NaN, the key is added with it, and NaN it stays. *)
Definition addScore (combinedScores : Scores) (normalizedLabel : Value)
  (x : R) : Scores :=
  match normalizedLabel with
  | Str key =>
      {| numbers := addTo (numbers combinedScores) key x;
         notANumber := notANumber combinedScores |}
  | Member name =>
      {| numbers := numbers combinedScores;
         notANumber :=
           if existsb (String.eqb name) (notANumber combinedScores)
           then notANumber combinedScores
           else notANumber combinedScores ++ [name] |}
  end.

Definition accumulate (weight : R) (results : list (ApiResponse R))
  (combinedScores : Scores) : Scores :=
  fold_left
    (fun combinedScores result =>
       match normalizeLabelToStandard (label result) with
       | Some normalizedLabel =>
           addScore combinedScores normalizedLabel (score result * weight)
       | None => combinedScores
       end)
    results combinedScores.

Definition combineEnsembleResults (primary secondary : list (ApiResponse R))
  : Analysis R :=
  let combinedScores :=
    {| numbers :=
         [ ("LABEL_0", lit 0); ("LABEL_1", lit 0); ("LABEL_2", lit 0) ]%string;
       notANumber := [] |} in
  let combinedScores := accumulate (lit 0.7) primary combinedScores in
  let combinedScores := accumulate (lit 0.3) secondary combinedScores in
  match notANumber combinedScores with
  | [] =>
      Results
        (sort byScoreDescending
           (map (fun '(label, score) => {| label := label; score := score |})
              (numbers combinedScores)))
  | members => NotANumber (numbers combinedScores) members
  end.

(** The [map] step of [normalizeSecondaryModelResults]:
    [normalizedLabel || result.label] with the score. *)
Definition relabel (result : ApiResponse R) : Value * R :=
  (match normalizeLabelToStandard (label result) with
   | Some normalizedLabel => normalizedLabel
   | None => Str (label result)
   end,
   score result).

(** The [filter] step: [result.label.startsWith('LABEL_')].  A member of
    [Object.prototype] has no [startsWith] and the call raises a TypeError
    ([None]). *)
Fixpoint keepLabels (results : list (Value * R))
  : option (list (ApiResponse R)) :=
  match results with
  | [] => Some []
  | (Str label, score) :: rest =>
      match keepLabels rest with
      | Some kept =>
          Some (if String.prefix "LABEL_" label
                then {| label := label; score := score |} :: kept
                else kept)
      | None => None
      end
  | (Member _, _) :: _ => None
  end.

Definition normalizeSecondaryModelResults (results : list (ApiResponse R))
  : option (list (ApiResponse R)) :=
  keepLabels (map relabel results).
End Fusion.

Arguments Scores R : clear implicits.

(** ** The gateway and the service *)

(** What the network does on one POST: the promise rejects (timeout, no
    connection, a status outside 2xx, a payload without [data]), or it
    fulfils and [response.data[0]] is a list of results or is missing. *)
Inductive Reply (R : Type) :=
| Rejected
| Fulfilled (first : option (list (ApiResponse R))).
Arguments Rejected {R}.
Arguments Fulfilled {R} _.

Inductive Event :=
| Post (url : string) (inputs : jsstring)
| Sleep (ms : nat).

(** Computations that read and extend the log of events. *)
Definition M (A : Type) : Type := list Event -> A * list Event.

Definition ret {A} (a : A) : M A := fun log => (a, log).

Definition bind {A B} (m : M A) (f : A -> M B) : M B :=
  fun log => let '(a, log') := m log in f a log'.

Definition emit (e : Event) : M unit := fun log => (tt, log ++ [e]).

Notation "x <- m ;; f" := (bind m (fun x => f))
  (at level 61, m at next level, right associativity).
Notation "m ;;; f" := (bind m (fun _ => f))
  (at level 61, right associativity).

Fixpoint mapM {A B} (f : A -> M B) (l : list A) : M (list B) :=
  match l with
  | [] => ret []
  | a :: l' => b <- f a ;; bs <- mapM f l' ;; ret (b :: bs)
  end.

Record Models := { primary : string; secondary : string; tertiary : string }.

Definition SENTIMENT_MODELS : Models := {|
  primary := "https://api-inference.huggingface.co/models/cardiffnlp/twitter-roberta-base-sentiment-latest";
  secondary := "https://api-inference.huggingface.co/models/nlptown/bert-base-multilingual-uncased-sentiment";
  tertiary := "https://api-inference.huggingface.co/models/j-hartmann/emotion-english-distilroberta-base"
|}.

Record Service := { apiToken : jsstring; useEnsemble : bool }.

(** The instance the constructor builds. *)
Definition getInstance : Service :=
  {| apiToken := js "hf_dummy_token"; useEnsemble := true |}.

Definition setApiToken (this : Service) (token : jsstring) : Service :=
  {| apiToken := token; useEnsemble := useEnsemble this |}.

Section Service.
Context {R : Type} `{Number R}.

(** The reply to a POST, given everything that happened before it. *)
Variable network : list Event -> string -> jsstring -> Reply R.
Variable this : Service.

(** [response.data[0] || []], and [[]] from the [catch]. *)
Definition outcome (r : Reply R) : list (ApiResponse R) :=
  match r with
  | Fulfilled (Some results) => results
  | Fulfilled None => []
  | Rejected => []
  end.

Definition callSentimentAPI (text : jsstring) (modelUrl : string)
  : M (list (ApiResponse R)) :=
  fun log => (outcome (network log modelUrl text), log ++ [Post modelUrl text]).

Definition noToken : bool :=
  match apiToken this with [] => true | _ => false end
  || eqs (apiToken this) (js "hf_dummy_token").

(** [callSentimentAPI] catches what the call raises, so both promises
    fulfil.  The TypeError [normalizeSecondaryModelResults] can raise is
    caught by the [catch] of [analyzeSentiment], and the local estimate is
    returned then. *)
Definition analyzeSentiment (text : jsstring) : M (Analysis R) :=
  let processedText := preprocessText text in
  if noToken then ret (Results (getEnhancedMockSentiment processedText text))
  else if useEnsemble this then
    primaryResult <-
      callSentimentAPI processedText (primary SENTIMENT_MODELS) ;;
    secondaryResult <-
      callSentimentAPI processedText (secondary SENTIMENT_MODELS) ;;
    if (0 <? length primaryResult) && (0 <? length secondaryResult) then
      ret (combineEnsembleResults primaryResult secondaryResult)
    else if 0 <? length primaryResult then ret (Results primaryResult)
    else if 0 <? length secondaryResult then
      match normalizeSecondaryModelResults secondaryResult with
      | Some results => ret (Results results)
      | None => ret (Results (getEnhancedMockSentiment processedText text))
      end
    else ret (Results (getEnhancedMockSentiment processedText text))
  else
    result <- callSentimentAPI processedText (primary SENTIMENT_MODELS) ;;
    if 0 <? length result then ret (Results result)
    else ret (Results (getEnhancedMockSentiment processedText text)).

Definition batchSize : nat := 3.

(** The [for] loop of [analyzeBatch]; the requests of a group are issued in
    the order of its texts.  [fuel] bounds the number of rounds. *)
Fixpoint analyzeBatchLoop (texts : list jsstring) (fuel i : nat)
  (results : list (Analysis R)) : M (list (Analysis R)) :=
  match fuel with
  | 0 => ret results
  | S fuel' =>
      if i <? length texts then
        let batch := slice texts i (i + batchSize) in
        batchResults <- mapM analyzeSentiment batch ;;
        let results := results ++ batchResults in
        (if i + batchSize <? length texts
         then emit (Sleep 2000) else ret tt) ;;;
        analyzeBatchLoop texts fuel' (i + batchSize) results
      else ret results
  end.

Definition analyzeBatch (texts : list jsstring) : M (list (Analysis R)) :=
  analyzeBatchLoop texts (length texts) 0 [].
End Service.

(** ** Keyword extraction *)

Section Keywords.
Context {R : Type} `{Number R}.
Local Open Scope num_scope.

Definition stopWords : list jsstring :=
  map js ["the"; "a"; "an"; "and"; "or"; "but"; "in"; "on"; "at"; "to";
          "for"; "of"; "with"; "by"; "this"; "that"; "these"; "those"; "i";
          "you"; "he"; "she"; "it"; "we"; "they"; "am"; "is"; "are"; "was";
          "were"; "be"; "been"; "being"; "have"; "has"; "had"; "do"; "does";
          "did"; "will"; "would"; "could"; "should"; "may"; "might"; "must";
          "can"; "shall"; "not_"; "intensifier_"; "diminisher_"]%string.

Definition sentimentKeywords : list (string * list jsstring) :=
  [ ("positive"%string,
     map js ["excellent"; "amazing"; "wonderful"; "fantastic"; "perfect";
             "outstanding"; "brilliant"; "superb"; "magnificent";
             "delightful"; "awesome"; "great"; "good"; "love"; "like";
             "enjoy"; "happy"; "pleased"; "satisfied"; "impressive";
             "remarkable"; "exceptional"; "marvelous"; "terrific";
             "positive_emoji"; "love_emoji"; "positive_emoticon"]%string);
    ("negative"%string,
     map js ["terrible"; "awful"; "horrible"; "disgusting"; "disappointing";
             "pathetic"; "atrocious"; "dreadful"; "appalling"; "abysmal";
             "bad"; "hate"; "dislike"; "annoying"; "frustrating"; "useless";
             "worthless"; "poor"; "worst"; "unacceptable"; "inadequate";
             "inferior"; "defective"; "faulty"; "negative_emoji";
             "anger_emoji"; "negative_emoticon"]%string);
    ("neutral"%string,
     map js ["okay"; "average"; "normal"; "standard"; "typical"; "regular";
             "ordinary"; "common"; "usual"; "basic"; "moderate"; "fair";
             "neutral_emoji"; "neutral_emoticon"]%string) ].

(** [sentimentKeywords[sentiment]?.includes(word)], for a [sentiment] that
    names no member of [Object.prototype]: the dashboard, which is the only
    caller, passes positive, negative, neutral or a key that names nothing.
    A name such as constructor finds a member without [includes], and the
    source raises at the first token that is no stop word and returns no
    list. *)
Definition isKeywordOf (sentiment : string) (word : jsstring) : bool :=
  match lookup sentimentKeywords sentiment with
  | Some list => memberOf word list
  | None => false
  end.

(** [words.indexOf(word)], -1 when absent. *)
Fixpoint indexOf (words : list jsstring) (word : jsstring) : Z :=
  match words with
  | [] => (-1)%Z
  | w :: words' =>
      if eqs w word then 0%Z
      else
        let i := indexOf words' word in
        if (i <? 0)%Z then (-1)%Z else (i + 1)%Z
  end.

(** [[...new Set(l)]]: the first occurrence of each element, in order. *)
Fixpoint unique (seen l : list jsstring) : list jsstring :=
  match l with
  | [] => []
  | w :: l' =>
      if memberOf w seen then unique seen l' else w :: unique (w :: seen) l'
  end.

Definition tokens (text : jsstring) : list jsstring :=
  let processedText := preprocessText text in
  filter (fun word => (2 <? length word)%nat)
    (split (fun c => negb (isWordChar c)) (toLowerCase processedText)).

Definition relevant (words : list jsstring) (sentiment : string)
  (word : jsstring) : bool :=
  if memberOf word stopWords then false
  else if isKeywordOf sentiment word then true
  else if (4 <? length word)%nat then true
  else
    let wordIndex := indexOf words word in
    let context :=
      slice words (Z.to_nat (Z.max 0 (wordIndex - 2)))
        (Z.to_nat (wordIndex + 3)) in
    existsb
      (fun contextWord =>
         isKeywordOf "positive" contextWord
         || isKeywordOf "negative" contextWord
         || isKeywordOf "neutral" contextWord)
      context.

Definition keywordScore (words : list jsstring) (sentiment : string)
  (keyword : jsstring) : R :=
  let score := lit 0 in
  let score :=
    if isKeywordOf sentiment keyword then score + lit 3 else score in
  let frequency := length (filter (fun w => eqs w keyword) words) in
  let score := score + ofNat frequency in
  score + nmin (ofNat (length keyword) / lit 10) (lit 1).

(** The unique retained tokens, before scoring. *)
Definition uniqueKeywords (text : jsstring) (sentiment : string)
  : list jsstring :=
  let words := tokens text in
  unique [] (filter (relevant words sentiment) words).

Definition extractKeywords (text : jsstring) (sentiment : string)
  : list jsstring :=
  let words := tokens text in
  let keywordScores :=
    map (fun keyword => (keyword, keywordScore words sentiment keyword))
      (uniqueKeywords text sentiment) in
  filter (fun keyword => negb (includes (js "_") keyword))
    (map fst
       (firstn 6
          (sort (fun a b => snd b - snd a) keywordScores))).
End Keywords.

(** ** Vocabulary of the statements *)

(** The local estimator on a raw text, as [analyzeSentiment] calls it. *)
Definition localEstimate {R} `{Number R} (text : jsstring)
  : list (ApiResponse R) :=
  getEnhancedMockSentiment (preprocessText text) text.

(** The canonical labels: negative, neutral, positive. *)
Definition canonicalLabels : list string :=
  ["LABEL_0"; "LABEL_1"; "LABEL_2"]%string.

Definition Descending (l : list (ApiResponse Q)) : Prop :=
  StronglySorted (fun a b => (score b <= score a)%Q) l.

(** Three entries, one for each canonical label, the larger score first. *)
Definition Distribution (l : list (ApiResponse Q)) : Prop :=
  length l = 3
  /\ Permutation (map label l) canonicalLabels
  /\ Descending l.

Definition NonNegative (l : list (ApiResponse Q)) : Prop :=
  Forall (fun a => (0 <= score a)%Q) l.

(** Scores the estimator can reach: no negative polarity, and a neutral
    score of at least the base 0.3. *)
Definition Reachable (scores : Q * Q * Q) : Prop :=
  let '(p, n, u) := scores in (0 <= p /\ 0 <= n /\ 0.3 <= u)%Q.

Definition sumScores (l : list (ApiResponse Q)) : Q :=
  fold_right Qplus 0%Q (map score l).

(** The sum of the scores of the entries of [results] that map to the
    canonical label [l], each times [weight]. *)
Fixpoint weighted (l : string) (weight : Q) (results : list (ApiResponse Q))
  : Q :=
  match results with
  | [] => 0%Q
  | r :: results' =>
      match lookup labelMap (label r) with
      | Some l' =>
          if String.eqb l' l
          then (score r * weight + weighted l weight results')%Q
          else weighted l weight results'
      | None => weighted l weight results'
      end
  end.

(** The retained tokens that are distinct and hold no underscore: those
    [extractKeywords] could return. *)
Definition eligible {R} `{Number R} (text : jsstring) (sentiment : string)
  : list jsstring :=
  filter (fun keyword => negb (includes (js "_") keyword))
    (uniqueKeywords text sentiment).

(** The six best-scored tokens, before the markers are removed. *)
Definition topSix {R} `{Number R} (text : jsstring) (sentiment : string)
  : list jsstring :=
  let words := tokens text in
  map fst
    (firstn 6
       (sort (fun a b => nsub (snd b) (snd a))
          (map (fun keyword => (keyword, keywordScore words sentiment keyword))
             (uniqueKeywords text sentiment)))).

(** The retained tokens in the order of their scores, before the cut. *)
Definition ranked {R} `{Number R} (text : jsstring) (sentiment : string)
  : list jsstring :=
  let words := tokens text in
  map fst
    (sort (fun a b => nsub (snd b) (snd a))
       (map (fun keyword => (keyword, keywordScore words sentiment keyword))
          (uniqueKeywords text sentiment))).

(** The code units that take part in a contraction, an emoji or an
    emoticon: the apostrophe, the colon, the equals sign, and the first unit
    of each emoji. *)
Definition hot (c : N) : bool :=
  existsb (N.eqb c) (js "':=")
  || existsb (N.eqb c) [0xD83D; 0xD83E; 0x2639; 0x2764]%N.

(** No run of [n] or more units of the class [p]. *)
Fixpoint noRun (n : nat) (p : N -> bool) (s : jsstring) : bool :=
  match s with
  | [] => true
  | _ :: s' => (countWhile p s <? n) && noRun n p s'
  end.

(** Text on which only the rewrites of words can apply: no apostrophe,
    colon, equals sign or emoji, no two [!] or [?] in a row and no three
    [.] in a row. *)
Definition calm (s : jsstring) : bool :=
  forallb (fun c => negb (hot c)) s
  && noRun 2 (isChar "!") s
  && noRun 2 (isChar "?") s
  && noRun 3 (isChar ".") s.

(** [s] has a white space at index [i]. *)
Definition spaceAt (i : nat) (s : jsstring) : bool :=
  match skipn i s with c :: _ => isSpace c | [] => false end.

(** One of the words [ws], then white space, starts [s]. *)
Definition hits (ws : list jsstring) (s : jsstring) : bool :=
  existsb (fun w => startsWith true w s && spaceAt (length w) s) ws.

(** [/\b(w1|...)\s+/gi] matches nowhere in [s], which follows [prev]. *)
Fixpoint quiet (ws : list jsstring) (prev : option N) (s : jsstring) : bool :=
  match s with
  | [] => true
  | c :: s' => negb (boundary prev s && hits ws s) && quiet ws (Some c) s'
  end.

(** Words of small letters. *)
Definition lettered (ws : list jsstring) : bool :=
  forallb (fun w => (0 <? length w) && forallb isLower w) ws.

(** A sentinel: capitals, then an underscore. *)
Definition sentinel (rep : jsstring) : bool :=
  match rev rep with
  | c :: capitals => (c =? 95)%N && (0 <? length capitals)
                     && forallb isUpper capitals
  | [] => false
  end.

(** No white space at either end. *)
Definition tight (s : jsstring) : bool :=
  negb (isSpace (hd 0%N s)) && negb (isSpace (last s 0%N)).

(** The rational a finite double stands for. *)
Definition exactValue (x : float) : Q :=
  match FloatOps.Prim2SF x with
  | SpecFloat.S754_finite sign m e =>
      let mant := if sign then Zneg m else Zpos m in
      Qred (inject_Z mant * Qpower 2 e)%Q
  | _ => 0%Q
  end.

(** A network without a reachable endpoint. *)
Definition offline {R} : list Event -> string -> jsstring -> Reply R :=
  fun _ _ _ => Rejected.

(** A network where only the secondary endpoint answers, with its rating in
    stars. *)
Definition starRatings {R} `{Number R} : list (ApiResponse R) :=
  [ {| label := "5 stars"; score := lit 0.6 |};
    {| label := "4 stars"; score := lit 0.2 |};
    {| label := "3 stars"; score := lit 0.1 |};
    {| label := "2 stars"; score := lit 0.06 |};
    {| label := "1 star"; score := lit 0.04 |} ].

Definition secondaryOnly {R} `{Number R}
  : list Event -> string -> jsstring -> Reply R :=
  fun _ url _ =>
    if String.eqb url (secondary SENTIMENT_MODELS)
    then Fulfilled (Some starRatings) else Rejected.

(** What the two calls of [analyzeSentiment] on [text] return, started from
    the log [log]. *)
Definition primaryOutcome {R}
  (network : list Event -> string -> jsstring -> Reply R)
  (text : jsstring) (log : list Event) : list (ApiResponse R) :=
  outcome (network log (primary SENTIMENT_MODELS) (preprocessText text)).

Definition secondaryOutcome {R}
  (network : list Event -> string -> jsstring -> Reply R)
  (text : jsstring) (log : list Event) : list (ApiResponse R) :=
  outcome
    (network
       (log ++ [Post (primary SENTIMENT_MODELS) (preprocessText text)])
       (secondary SENTIMENT_MODELS) (preprocessText text)).

(** The fused score of a canonical label. *)
Definition fused (primary secondary : list (ApiResponse Q)) (l : string)
  : Q :=
  (weighted l 0.7 primary + weighted l 0.3 secondary)%Q.

(** A network where only the secondary endpoint answers, with a label that
    is not in the table. *)
Definition unmappedOnly {R} `{Number R}
  : list Event -> string -> jsstring -> Reply R :=
  fun _ url _ =>
    if String.eqb url (secondary SENTIMENT_MODELS)
    then Fulfilled (Some [ {| label := "mixed"; score := lit 1 |} ])
    else Rejected.

(** A network where both endpoints answer. *)
Definition bothAnswer {R} `{Number R}
  : list Event -> string -> jsstring -> Reply R :=
  fun _ url _ =>
    if String.eqb url (secondary SENTIMENT_MODELS)
    then Fulfilled (Some starRatings)
    else Fulfilled
           (Some [ {| label := "positive"; score := lit 0.9 |};
                   {| label := "neutral"; score := lit 0.05 |};
                   {| label := "negative"; score := lit 0.05 |} ]).

(** A network whose replies do not depend on what happened before. *)
Definition Stateless {R}
  (network : list Event -> string -> jsstring -> Reply R) : Prop :=
  forall log log' url text, network log url text = network log' url text.

Definition withToken : Service := setApiToken getInstance (js "hf_token").

(** ** Further vocabulary *)

(** The sentences [extractTextFeatures] scores: the non-blank fields between
    the runs of [. ! ?]. *)
Definition sentences (originalText : jsstring) : list jsstring :=
  filter (fun s => (0 <? length (trim s))%nat)
    (split (fun c => isChar "." c || isChar "!" c || isChar "?" c)
       originalText).

(** The sum of the scores of the entries whose label is in the table. *)
Fixpoint mappedSum (results : list (ApiResponse Q)) : Q :=
  match results with
  | [] => 0%Q
  | r :: results' =>
      match lookup labelMap (label r) with
      | Some _ => (score r + mappedSum results')%Q
      | None => mappedSum results'
      end
  end.

(** The requests one analysis of [text] issues. *)
Definition requests (this : Service) (text : jsstring) : list Event :=
  if noToken this then []
  else if useEnsemble this then
    [ Post (primary SENTIMENT_MODELS) (preprocessText text);
      Post (secondary SENTIMENT_MODELS) (preprocessText text) ]
  else [ Post (primary SENTIMENT_MODELS) (preprocessText text) ].

(** No label of [results] names a member of [Object.prototype]. *)
Definition ordinary {R} (results : list (ApiResponse R)) : bool :=
  forallb (fun result => negb (inherited (label result))) results.

(** The entries of an analysis whose score is a number. *)
Definition numbered {R} (analysis : Analysis R) : list (ApiResponse R) :=
  match analysis with
  | Results results => results
  | NotANumber numbers _ =>
      map (fun '(label, score) => {| label := label; score := score |})
        numbers
  end.

(** The number of entries of the array an analysis stands for. *)
Definition entries {R} (analysis : Analysis R) : nat :=
  match analysis with
  | Results results => length results
  | NotANumber numbers members => length numbers + length members
  end.

(** The labels an entry of the table is known under: its key and, for a
    canonical label, the word and the ratings in stars. *)
Definition known (label : string) : bool :=
  match lookup labelMap label with Some _ => true | None => false end.

(** The entries [normalizeSecondaryModelResults] keeps: those with a label
    of the table, and those whose label begins with LABEL_ already. *)
Definition kept {R} (result : ApiResponse R) : bool :=
  known (label result) || String.prefix "LABEL_" (label result).

(** An entry under the canonical label of its label, or as it is when its
    label is not in the table. *)
Definition standard {R} (result : ApiResponse R) : ApiResponse R :=
  {| label := match lookup labelMap (label result) with
              | Some l => l
              | None => label result
              end;
     score := score result |}.

(** The canonical labels the entries of [results] are added to, in order. *)
Definition targets {R} (results : list (ApiResponse R)) : list string :=
  flat_map
    (fun result =>
       match lookup labelMap (label result) with
       | Some l => [l]
       | None => []
       end)
    results.

(** A text of white space only, the empty text included. *)
Definition blank (s : jsstring) : bool := forallb isSpace s.

Definition startsNonSpace (w : jsstring) : bool :=
  match w with c :: _ => negb (isSpace c) | [] => false end.

Definition isSleep (e : Event) : bool :=
  match e with Sleep _ => true | Post _ _ => false end.

Definition isPost (e : Event) : bool :=
  match e with Post _ _ => true | Sleep _ => false end.

Definition capital (pat : jsstring) : bool :=
  match pat with p :: _ => isUpper p | [] => false end.

(** ** The dashboard (App)

    The component keeps its state with [useState]; a handler is a function
    from the state before to the state after.  What a handler reads from the
    clock and the random generator is an argument. *)

Module App.

(** [Date.now()], [Math.random().toString(36)] and [new Date()], as read at
    one call. *)
Record Clock := { now : N; random : string; date : N }.

(** The field [sentiment] is declared as one of three strings; what is
    stored is what the table of labels gave, a string or a member of
    [Object.prototype]. *)
Record SentimentResult (R : Type) := {
  id : string;
  text : jsstring;
  sentiment : Value;
  confidence : R;
  keywords : list jsstring;
  timestamp : N
}.
Arguments id {R} _.
Arguments text {R} _.
Arguments sentiment {R} _.
Arguments confidence {R} _.
Arguments keywords {R} _.
Arguments timestamp {R} _.

Record Summary (R : Type) := {
  total : nat;
  positive : nat;
  negative : nat;
  neutral : nat;
  averageConfidence : R
}.
Arguments total {R} _.
Arguments positive {R} _.
Arguments negative {R} _.
Arguments neutral {R} _.
Arguments averageConfidence {R} _.

(** The fields [id], [results], [summary] and [timestamp] of a
    BatchAnalysisResult. *)
Record BatchAnalysisResult (R : Type) := {
  batch_id : string;
  batch_results : list (SentimentResult R);
  batch_summary : Summary R;
  batch_timestamp : N
}.
Arguments batch_id {R} _.
Arguments batch_results {R} _.
Arguments batch_summary {R} _.
Arguments batch_timestamp {R} _.

Record AppState (R : Type) := {
  results : list (SentimentResult R);
  batchResults : list (BatchAnalysisResult R);
  isLoading : bool;
  error : option string;
  hasApiToken : bool;
  showTokenInput : bool
}.
Arguments results {R} _.
Arguments batchResults {R} _.
Arguments isLoading {R} _.
Arguments error {R} _.
Arguments hasApiToken {R} _.
Arguments showTokenInput {R} _.

(** The state the component starts with. *)
Definition initial {R} : AppState R := {|
  results := []; batchResults := []; isLoading := false; error := None;
  hasApiToken := false; showTokenInput := true
|}.

Definition setResults {R}
  (f : list (SentimentResult R) -> list (SentimentResult R))
  (state : AppState R) : AppState R := {|
  results := f (results state); batchResults := batchResults state;
  isLoading := isLoading state; error := error state;
  hasApiToken := hasApiToken state; showTokenInput := showTokenInput state
|}.

Definition setBatchResults {R}
  (f : list (BatchAnalysisResult R) -> list (BatchAnalysisResult R))
  (state : AppState R) : AppState R := {|
  results := results state; batchResults := f (batchResults state);
  isLoading := isLoading state; error := error state;
  hasApiToken := hasApiToken state; showTokenInput := showTokenInput state
|}.

Definition setIsLoading {R} (b : bool) (state : AppState R) : AppState R := {|
  results := results state; batchResults := batchResults state;
  isLoading := b; error := error state;
  hasApiToken := hasApiToken state; showTokenInput := showTokenInput state
|}.

Definition setError {R} (e : option string) (state : AppState R)
  : AppState R := {|
  results := results state; batchResults := batchResults state;
  isLoading := isLoading state; error := e;
  hasApiToken := hasApiToken state; showTokenInput := showTokenInput state
|}.

Definition handleTokenSet {R} (hasToken : bool) (state : AppState R)
  : AppState R := {|
  results := results state; batchResults := batchResults state;
  isLoading := isLoading state; error := error state;
  hasApiToken := hasToken; showTokenInput := false
|}.

(** A reading of the clock and the generator, for the examples. *)
Definition demoClock : Clock :=
  {| now := 1700000000000; random := "0.k3j5h2g7f9d";
     date := 1700000000000 |}.

(** The three values the field [sentiment] is declared to have. *)
Definition sentiments : list Value :=
  [Str "positive"; Str "negative"; Str "neutral"].

(** A sentiment as the key of an object. *)
Definition toKey (sentiment : Value) : string :=
  match sentiment with
  | Str s => s
  | Member name => describe name
  end.

(** [sentiment === s] for a string [s]. *)
Definition isSentiment (s : string) (sentiment : Value) : bool :=
  match sentiment with
  | Str s' => String.eqb s' s
  | Member _ => false
  end.

(** What a piece of code that can raise gives: its value; the exception;
    or nothing this development can name, when the value rests on the order
    in which the engine leaves entries whose score is NaN. *)
Inductive Outcome (A : Type) : Type :=
| Returned (a : A)
| Thrown
| Unspecified.
Arguments Returned {A} _.
Arguments Thrown {A}.
Arguments Unspecified {A}.

(** What the dashboard shows for the label of a first entry: positive for
    LABEL_2, negative for LABEL_0, the member for the name of a member of
    [Object.prototype], and neutral for every other label. *)
Definition Shows (label : string) (sentiment : Value) : Prop :=
  (label = "LABEL_2"%string <-> sentiment = Str "positive")
  /\ (label = "LABEL_0"%string <-> sentiment = Str "negative")
  /\ (In label objectPrototype <-> sentiment = Member label)
  /\ (In sentiment sentiments \/ sentiment = Member label).

(** A result that stands for the analysis [analysis] of [text]. *)
Definition Stands {R} (input : jsstring) (analysis : Analysis R)
  (result : SentimentResult R) : Prop :=
  exists topResult rest,
    analysis = Results (topResult :: rest)
    /\ text result = input
    /\ confidence result = score topResult
    /\ Shows (label topResult) (sentiment result).

(** An analysis without an entry. *)
Definition isEmpty {R} (analysis : Analysis R) : bool :=
  match analysis with Results [] => true | _ => false end.

(** An analysis that holds scores that are NaN. *)
Definition isNotANumber {R} (analysis : Analysis R) : bool :=
  match analysis with NotANumber _ _ => true | _ => false end.

(** A sentiment that is a string. *)
Definition named (sentiment : Value) : bool :=
  match sentiment with Str _ => true | Member _ => false end.

(** A network where only the primary endpoint answers, with a label that
    names a member of [Object.prototype]. *)
Definition memberOnly {R} `{Number R}
  : list Event -> string -> jsstring -> Reply R :=
  fun _ url _ =>
    if String.eqb url (primary SENTIMENT_MODELS)
    then Fulfilled (Some [ {| label := "constructor"; score := lit 0.9 |} ])
    else Rejected.

Definition toString (n : N) : string :=
  NilEmpty.string_of_uint (N.to_uint n).

Definition labelMap : list (string * string) :=
  [ ("LABEL_0", "negative"); ("LABEL_1", "neutral");
    ("LABEL_2", "positive") ]%string.

(** [array.map((x, index) => f(x, index))] *)
Fixpoint mapFrom {A B} (f : A -> nat -> B) (index : nat) (l : list A)
  : list B :=
  match l with
  | [] => []
  | x :: l' => f x index :: mapFrom f (S index) l'
  end.

(** [array.map] over calls that can raise: the first to raise ends the
    whole. *)
Fixpoint collect {A} (l : list (Outcome A)) : Outcome (list A) :=
  match l with
  | [] => Returned []
  | Thrown :: _ => Thrown
  | Returned a :: l' =>
      match collect l' with
      | Returned l'' => Returned (a :: l'')
      | Thrown => Thrown
      | Unspecified => Unspecified
      end
  | Unspecified :: l' =>
      match collect l' with
      | Thrown => Thrown
      | _ => Unspecified
      end
  end.

Section Handlers.
Context {R : Type} `{Number R}.
Variable network : list Event -> string -> jsstring -> Reply R.
Variable sentimentService : Service.

(** [Thrown] is the TypeError raised when [apiResponse] is undefined or has
    no first element. *)
Definition processSentimentResponse (clock : Clock)
  (apiResponse : option (Analysis R)) (text : jsstring)
  : Outcome (SentimentResult R) :=
  match apiResponse with
  | Some (Results (topResult :: _)) =>
      let sentiment :=
        match get labelMap (label topResult) with
        | Some s => s
        | None => Str "neutral"
        end in
      let confidence := score topResult in
      Returned {| id := (toString (now clock)
                         ++ String.substring 2 9 (random clock))%string;
                  text := text;
                  sentiment := sentiment;
                  confidence := confidence;
                  keywords := extractKeywords text (toKey sentiment);
                  timestamp := date clock |}
  | Some (NotANumber _ _) => Unspecified
  | _ => Thrown
  end.

(** [None] when the state after depends on the order of entries whose score
    is NaN. *)
Definition handleSingleAnalysis (clock : Clock) (text : jsstring)
  (state : AppState R) : M (option (AppState R)) :=
  let state := setIsLoading true state in
  let state := setError None state in
  apiResponse <- analyzeSentiment network sentimentService text ;;
  let state :=
    match processSentimentResponse clock (Some apiResponse) text with
    | Returned result => Some (setResults (fun prev => result :: prev) state)
    | Thrown =>
        Some
          (setError
             (Some "Failed to analyze sentiment. Please try again."%string)
             state)
    | Unspecified => None
    end in
  ret (option_map (setIsLoading false) state).

Definition count (s : string) (l : list (SentimentResult R)) : nat :=
  length (filter (fun r => isSentiment s (sentiment r)) l).

Definition summarize (batchResultsData : list (SentimentResult R))
  : Summary R := {|
  total := length batchResultsData;
  positive := count "positive" batchResultsData;
  negative := count "negative" batchResultsData;
  neutral := count "neutral" batchResultsData;
  averageConfidence :=
    ndiv
      (fold_left (fun sum r => nadd sum (confidence r)) batchResultsData
         (lit 0))
      (ofNat (length batchResultsData))
|}.

(** [clock index] is read for the text at [index], [batchClock] for the
    summary. *)
Definition handleBatchAnalysis (clock : nat -> Clock) (batchClock : Clock)
  (texts : list jsstring) (state : AppState R) : M (option (AppState R)) :=
  let state := setIsLoading true state in
  let state := setError None state in
  apiResponses <- analyzeBatch network sentimentService texts ;;
  let state :=
    match collect
            (mapFrom
               (fun text index =>
                  processSentimentResponse (clock index)
                    (nth_error apiResponses index) text)
               0 texts) with
    | Returned batchResultsData =>
        let batchSummary := {|
          batch_id := toString (now batchClock);
          batch_results := batchResultsData;
          batch_summary := summarize batchResultsData;
          batch_timestamp := date batchClock |} in
        let state :=
          setResults (fun prev => batchResultsData ++ prev) state in
        Some (setBatchResults (fun prev => batchSummary :: prev) state)
    | Thrown =>
        Some
          (setError (Some "Failed to analyze batch. Please try again."%string)
             state)
    | Unspecified => None
    end in
  ret (option_map (setIsLoading false) state).
End Handlers.

End App.

(** ** The input form (TextInput)

    The component hands the texts to its two callbacks; a handler returns
    the state after it and the call it makes, if any. *)

Module TextInput.

(** [s.split(sep)] for a separator of one code unit; [cur] is the field
    being read, reversed. *)
Fixpoint splitAt (sep : N) (cur : jsstring) (s : jsstring) : list jsstring :=
  match s with
  | [] => [rev cur]
  | c :: s' =>
      if (c =? sep)%N then rev cur :: splitAt sep [] s'
      else splitAt sep (c :: cur) s'
  end.

Definition splitOn (sep : N) (s : jsstring) : list jsstring :=
  splitAt sep [] s.


(** [l.filter((_, i) => keep(i))] *)
Fixpoint filterFrom {A} (keep : nat -> bool) (i : nat) (l : list A) : list A :=
  match l with
  | [] => []
  | x :: l' =>
      if keep i then x :: filterFrom keep (S i) l' else filterFrom keep (S i) l'
  end.

(** A string is truthy unless it is empty. *)
Definition truthy (s : jsstring) : bool :=
  match s with [] => false | _ :: _ => true end.

Definition lineFeed : N := 10.

Inductive Tab := single | batch.

Record File := { type : string; content : jsstring }.

Record State := {
  inputText : jsstring;
  activeTab : Tab;
  batchTexts : list jsstring
}.

Inductive Call :=
| onAnalyze (text : jsstring)
| onBatchAnalyze (texts : list jsstring).

Definition initial : State :=
  {| inputText := []; activeTab := single; batchTexts := [] |}.

Definition setInputText (value : jsstring) (state : State) : State :=
  {| inputText := value; activeTab := activeTab state;
     batchTexts := batchTexts state |}.

Definition setActiveTab (tab : Tab) (state : State) : State :=
  {| inputText := inputText state; activeTab := tab;
     batchTexts := batchTexts state |}.

Definition setBatchTexts (texts : list jsstring) (state : State) : State :=
  {| inputText := inputText state; activeTab := activeTab state;
     batchTexts := texts |}.

Definition handleSingleSubmit (state : State) : State * option Call :=
  if truthy (trim (inputText state))
  then (state, Some (onAnalyze (trim (inputText state))))
  else (state, None).

(** [file] is [e.target.files?.[0]], with the text the reader loads. *)
Definition handleFileUpload (file : option File) (state : State) : State :=
  match file with
  | Some f =>
      if String.eqb (type f) "text/plain" then
        let lines :=
          filter (fun line => 0 <? length (trim line))
            (splitOn lineFeed (content f)) in
        setBatchTexts lines state
      else state
  | None => state
  end.

Definition handleBatchSubmit (state : State) : State * option Call :=
  if 0 <? length (batchTexts state)
  then (state, Some (onBatchAnalyze (batchTexts state)))
  else (state, None).

Definition addBatchText (state : State) : State :=
  if truthy (trim (inputText state)) then
    setInputText []
      (setBatchTexts (batchTexts state ++ [trim (inputText state)]) state)
  else state.

Definition removeBatchText (index : nat) (state : State) : State :=
  setBatchTexts
    (filterFrom (fun i => negb (i =? index)) 0 (batchTexts state)) state.

(** What the user can do: type, choose a tab, submit the form, choose a
    file, press Add, press the cross of a text, press the batch button. *)
Inductive UIEvent :=
| Change (value : jsstring)
| SelectTab (tab : Tab)
| Submit
| Upload (file : option File)
| Add
| Remove (index : nat)
| BatchSubmit.

Definition step (state : State) (e : UIEvent) : State * option Call :=
  match e with
  | Change value => (setInputText value state, None)
  | SelectTab tab => (setActiveTab tab state, None)
  | Submit => handleSingleSubmit state
  | Upload file => (handleFileUpload file state, None)
  | Add => (addBatchText state, None)
  | Remove index => (removeBatchText index state, None)
  | BatchSubmit => handleBatchSubmit state
  end.

(** The state after a sequence of events and the calls made, in order. *)
Fixpoint run (state : State) (events : list UIEvent) : State * list Call :=
  match events with
  | [] => (state, [])
  | e :: events' =>
      let '(state', call) := step state e in
      let '(state'', calls) := run state' events' in
      (state'', match call with Some c => c :: calls | None => calls end)
  end.

(** A text is blank when trimming leaves nothing. *)
Definition NonBlank (text : jsstring) : Prop := trim text <> [].

Definition WellFormed (call : Call) : Prop :=
  match call with
  | onAnalyze text => text <> [] /\ trim text = text
  | onBatchAnalyze texts => texts <> [] /\ Forall NonBlank texts
  end.

End TextInput.

(** ** Tactics *)

Ltac split_lets :=
  repeat match goal with
         | |- context [let '(_, _) := ?e in _] => destruct e
         end.

Ltac bool_to_N :=
  repeat (rewrite ?orb_true_iff, ?andb_true_iff, ?orb_false_iff,
           ?andb_false_iff, ?N.eqb_eq, ?N.eqb_neq, ?N.leb_le, ?N.leb_gt in *).

Ltac lookup_cases label :=
  repeat match goal with
         | |- context [String.eqb ?k label] =>
             destruct (String.eqb_spec k label)
         end.

(** ** Facts about strings *)

Lemma eqs_eq (a b : jsstring) : eqs a b = true <-> a = b.
Proof.
  revert b; induction a as [|x a IH]; intros [|y b]; simpl;
    try (split; (reflexivity || discriminate)).
  rewrite andb_true_iff, N.eqb_eq, IH.
  split; [intros [-> ->]; reflexivity | intros E; injection E; auto].
Qed.

Lemma memberOf_In (w : jsstring) (l : list jsstring) :
  memberOf w l = true <-> In w l.
Proof.
  unfold memberOf. rewrite existsb_exists. split.
  - intros (x & Hx & E). apply eqs_eq in E. subst; assumption.
  - intros Hw. exists w. split; [assumption | apply eqs_eq; reflexivity].
Qed.

Lemma includes_unit (c : N) (s : jsstring) :
  includes [c] s = true <-> In c s.
Proof.
  induction s as [|x s IH]; simpl.
  - split; [discriminate | contradiction].
  - rewrite orb_true_iff, andb_true_r, N.eqb_eq, IH.
    split; (intros [E | E]; [left; congruence | right; assumption]).
Qed.

(** No code unit of a lower-cased string is an ASCII capital. *)
Lemma lowerUnit_not_upper (c : N) : isUpper (lowerUnit c) = false.
Proof.
  unfold lowerUnit. destruct (isUpper c) eqn:E; [|assumption].
  unfold isUpper, inRange in *.
  apply andb_true_iff in E as [E1 E2].
  apply N.leb_le in E1, E2.
  apply andb_false_iff. right. apply N.leb_gt. lia.
Qed.

Lemma startsWith_lower (p : N) (pat s : jsstring) :
  isUpper p = true -> startsWith false (p :: pat) (toLowerCase s) = false.
Proof.
  intros Hp. destruct s as [|c s]; simpl; [reflexivity|].
  destruct (N.eqb_spec p (lowerUnit c)) as [E|]; [|reflexivity].
  rewrite E, lowerUnit_not_upper in Hp. discriminate.
Qed.

(** A pattern that begins with a capital is found in no lower-cased text. *)
Lemma includes_lower (p : N) (pat s : jsstring) :
  isUpper p = true -> includes (p :: pat) (toLowerCase s) = false.
Proof.
  intros Hp. induction s as [|c s IH].
  - reflexivity.
  - change (includes (p :: pat) (toLowerCase (c :: s)))
      with (startsWith false (p :: pat) (toLowerCase (c :: s))
            || includes (p :: pat) (toLowerCase s)).
    rewrite startsWith_lower, IH by assumption. reflexivity.
Qed.

(** ** Facts about sorting *)

Section SortFacts.
Context {R : Type} `{Number R} {A : Type}.
Variable cmp : A -> A -> R.

Lemma insert_perm (x : A) (l : list A) :
  Permutation (x :: l) (insert cmp x l).
Proof.
  induction l as [|y l IH]; simpl; [reflexivity|].
  destruct (ngt (cmp x y) (lit 0)); [|reflexivity].
  rewrite perm_swap. apply perm_skip. exact IH.
Qed.

Lemma sort_perm (l : list A) : Permutation l (sort cmp l).
Proof.
  induction l as [|x l IH]; simpl; [reflexivity|].
  rewrite <- insert_perm. apply perm_skip. exact IH.
Qed.

Lemma sort_length (l : list A) : length (sort cmp l) = length l.
Proof. symmetry. apply Permutation_length, sort_perm. Qed.

Lemma sort_In (x : A) (l : list A) : In x (sort cmp l) <-> In x l.
Proof.
  split; apply Permutation_in;
    [symmetry|]; apply sort_perm.
Qed.
End SortFacts.

(** ** Literals in binary64 *)

(** The literals of the source denote the doubles the parser of JavaScript
    reads them as. *)
Lemma lit_binary64 :
  map (fun q => lit (R:=float) q)
    [0; 0.1; 0.2; 0.3; 0.4; 0.5; 0.6; 0.7; 0.8; 1.2; 1.3; 0.25; 0.15; 1; 3;
     10]%Q
  = [0; 0.1; 0.2; 0.3; 0.4; 0.5; 0.6; 0.7; 0.8; 1.2; 1.3; 0.25; 0.15; 1; 3;
     10]%float.
Proof. vm_compute. reflexivity. Qed.

(** ** The indicators of the local estimator *)

(** The sentinels are written in capitals and looked for in the lower-cased
    text: none of the three indicators is ever set. *)
Lemma indicators_never_set {R} `{Number R} (processed original : jsstring) :
  let features := extractTextFeatures processed original in
  hasNegation features = false
  /\ hasIntensifier features = false
  /\ hasDiminisher features = false.
Proof.
  cbv zeta. unfold extractTextFeatures. split_lets.
  cbn [hasNegation hasIntensifier hasDiminisher].
  repeat split; apply includes_lower; reflexivity.
Qed.

(** ** Exact arithmetic *)

Section Exact.
Local Open Scope Q_scope.

Lemma lit_exact (q : Q) : lit q == q.
Proof. apply Qred_correct. Qed.

Lemma nadd_exact (a b : Q) : nadd a b == a + b.
Proof. apply Qred_correct. Qed.

Lemma nsub_exact (a b : Q) : nsub a b == a - b.
Proof. apply Qred_correct. Qed.

Lemma nmul_exact (a b : Q) : nmul a b == a * b.
Proof. apply Qred_correct. Qed.

Lemma ndiv_exact (a b : Q) : ndiv a b == a / b.
Proof. apply Qred_correct. Qed.

Lemma ngt_exact (a b : Q) : ngt a b = true <-> b < a.
Proof.
  cbn. rewrite negb_true_iff, <- not_true_iff_false, Qle_bool_iff.
  split; [apply Qnot_le_lt | apply Qlt_not_le].
Qed.

Lemma neq_exact (a b : Q) : neq a b = true <-> a == b.
Proof. apply Qeq_bool_iff. Qed.

Lemma ofNat_nonneg (n : nat) : 0 <= ofNat n.
Proof. cbn. unfold Qle; simpl. lia. Qed.

Lemma add_ge (c a b : Q) : c <= a -> 0 <= b -> c <= nadd a b.
Proof. intros Ha Hb. rewrite nadd_exact. lra. Qed.

Lemma mul_nonneg (a b : Q) : 0 <= a -> 0 <= b -> 0 <= nmul a b.
Proof.
  intros Ha Hb. rewrite nmul_exact. apply Qmult_le_0_compat; assumption.
Qed.

Lemma div_nonneg (a b : Q) : 0 <= a -> 0 < b -> 0 <= ndiv a b.
Proof.
  intros Ha Hb. rewrite ndiv_exact. unfold Qdiv.
  apply Qmult_le_0_compat; [assumption|].
  apply Qlt_le_weak, Qinv_lt_0_compat. assumption.
Qed.

(** Equal rationals in lowest terms are the same term. *)
Lemma ndiv_self (a : Q) : ~ a == 0 -> ndiv a a = 1.
Proof.
  intros Ha. change (Qred (a / a) = Qred 1). apply Qred_complete.
  field. assumption.
Qed.

Lemma ndiv_zero (a : Q) : ~ a == 0 -> ndiv 0 a = 0.
Proof.
  intros Ha. change (Qred (0 / a) = Qred 0). apply Qred_complete.
  field. assumption.
Qed.

(** *** Sorting by descending score *)

Lemma byScoreDescending_gt (x y : ApiResponse Q) :
  ngt (byScoreDescending x y) (lit 0) = true <-> score x < score y.
Proof.
  rewrite ngt_exact. unfold byScoreDescending.
  rewrite nsub_exact, lit_exact. split; intros; lra.
Qed.

Lemma insert_descending (x : ApiResponse Q) (l : list (ApiResponse Q)) :
  Descending l -> Descending (insert byScoreDescending x l).
Proof.
  unfold Descending. induction 1 as [|y l Hl IH Hy]; cbn [insert].
  - repeat constructor.
  - destruct (ngt (byScoreDescending x y) (lit 0)) eqn:E.
    + apply byScoreDescending_gt in E.
      constructor; [exact IH|].
      eapply Permutation_Forall; [apply insert_perm|].
      constructor; [apply Qlt_le_weak; exact E | exact Hy].
    + assert (Hxy : score y <= score x).
      { apply Qnot_lt_le. intros C. apply byScoreDescending_gt in C.
        congruence. }
      constructor; [constructor; assumption|].
      constructor; [exact Hxy|].
      eapply Forall_impl; [|exact Hy].
      intros a Ha. cbv beta in *. lra.
Qed.

Lemma sort_descending (l : list (ApiResponse Q)) :
  Descending (sort byScoreDescending l).
Proof.
  induction l as [|x l IH]; cbn [sort].
  - constructor.
  - apply insert_descending, IH.
Qed.

Lemma sumScores_perm (l l' : list (ApiResponse Q)) :
  Permutation l l' -> sumScores l == sumScores l'.
Proof.
  unfold sumScores. induction 1; simpl; lra.
Qed.

Lemma NonNegative_perm (l l' : list (ApiResponse Q)) :
  Permutation l l' -> NonNegative l -> NonNegative l'.
Proof. intros P. apply Permutation_Forall. exact P. Qed.
End Exact.

(** ** The local estimator in exact arithmetic *)

Section EstimatorFacts.
Local Open Scope Q_scope.

Lemma countWords_ge (c : Q) (words : list jsstring) (weight : Q)
  (lowerText : jsstring) (score0 : Q) :
  0 <= weight -> c <= score0 ->
  c <= countWords words weight lowerText score0.
Proof.
  intros Hw. unfold countWords. revert score0.
  induction words as [|word words IH]; intros score0 H0; cbn [fold_left].
  - exact H0.
  - apply IH.
    destruct (0 <? matchCount (wholeWord word) lowerText)%nat;
      [|exact H0].
    apply add_ge; [exact H0|].
    apply mul_nonneg; [apply ofNat_nonneg | exact Hw].
Qed.

Lemma analyzeSentenceStructure_nonneg (sentence : jsstring) :
  let s := analyzeSentenceStructure (R:=Q) sentence in
  0 <= positive s /\ 0 <= negative s /\ 0 <= neutral s.
Proof.
  cbv zeta. unfold analyzeSentenceStructure.
  repeat match goal with
         | |- context [includes ?a sentence] => destruct (includes a sentence)
         end;
    vm_compute; repeat split; discriminate.
Qed.

Lemma sentences_reachable (sentences : list jsstring) (p n u : Q) :
  Reachable (p, n, u) ->
  Reachable
    (fold_left
       (fun '(positiveScore, negativeScore, neutralScore) sentence =>
          let sentenceScore := analyzeSentenceStructure sentence in
          (nadd positiveScore (positive sentenceScore),
           nadd negativeScore (negative sentenceScore),
           nadd neutralScore (neutral sentenceScore)))
       sentences (p, n, u)).
Proof.
  revert p n u. induction sentences as [|s sentences IH];
    intros p n u Hr; cbn [fold_left].
  - exact Hr.
  - apply IH. destruct Hr as (Hp & Hn & Hu).
    destruct (analyzeSentenceStructure_nonneg s) as (Sp & Sn & Su).
    cbv zeta. repeat split; apply add_ge; assumption.
Qed.

(** The features never carry a negative polarity score, and the neutral
    score never falls below its base. *)
Lemma extractTextFeatures_reachable (processed original : jsstring) :
  let features := extractTextFeatures (R:=Q) processed original in
  Reachable (positiveScore features, negativeScore features,
             neutralScore features).
Proof.
  cbv zeta. unfold extractTextFeatures.
  set (lowerText := toLowerCase original).
  set (lowerProcessed := toLowerCase processed).
  assert (P0 : 0 <= countWords positiveWords (lit 0.4) lowerText (lit 0))
    by (apply countWords_ge; vm_compute; discriminate).
  assert (N0 : 0 <= countWords negativeWords (lit 0.4) lowerText (lit 0))
    by (apply countWords_ge; vm_compute; discriminate).
  assert (U0 : 0.3 <= countWords neutralWords (lit 0.3) lowerText (lit 0.3))
    by (apply countWords_ge; vm_compute; discriminate).
  set (p0 := countWords positiveWords _ _ _) in *.
  set (n0 := countWords negativeWords _ _ _) in *.
  set (u0 := countWords neutralWords _ _ _) in *.
  match goal with
  | |- context [if ?b then nadd p0 ?x else p0] =>
      set (p1 := if b then nadd p0 x else p0);
      assert (P1 : 0 <= p1)
        by (subst p1; destruct b; [apply add_ge|]; try assumption;
            vm_compute; discriminate)
  end.
  match goal with
  | |- context [if ?b then nadd n0 ?x else n0] =>
      set (n1 := if b then nadd n0 x else n0);
      assert (N1 : 0 <= n1)
        by (subst n1; destruct b; [apply add_ge|]; try assumption;
            vm_compute; discriminate)
  end.
  clearbody p1 n1.
  match goal with
  | |- context [let '(_, _) := ?e in _] =>
      assert (E : 0 <= fst e /\ 0 <= snd e);
      [|destruct e as [p2 n2]; cbn [fst snd] in E; destruct E as [P2 N2]]
  end.
  { destruct (includes _ lowerProcessed); [|split; assumption].
    destruct (ngt p1 n1); cbn [fst snd]; split; try assumption;
      apply add_ge; try assumption; vm_compute; discriminate. }
  match goal with
  | |- context [let '(_, _) := ?e in _] =>
      assert (E : Reachable e);
      [|destruct e as [[p3 n3] u3]; exact E]
  end.
  destruct (1 <? _)%nat.
  - apply sentences_reachable. repeat split; assumption.
  - repeat split; assumption.
Qed.

Lemma adjust_reachable (features : TextFeatures Q) :
  Reachable (positiveScore features, negativeScore features,
             neutralScore features) ->
  Reachable (adjust features).
Proof.
  destruct features as [p n u neg int dim].
  cbn [positiveScore negativeScore neutralScore].
  intros (Hp & Hn & Hu). unfold adjust.
  cbn [positiveScore negativeScore neutralScore hasNegation hasIntensifier
       hasDiminisher].
  assert (L13 : 0 <= lit 1.3) by (vm_compute; discriminate).
  assert (L08 : 0 <= lit 0.8) by (vm_compute; discriminate).
  destruct neg, int, dim;
    repeat match goal with
           | |- context [ngt ?a ?b] => destruct (ngt a b)
           end;
    cbv beta iota zeta; repeat split;
    try assumption;
    try (apply mul_nonneg; try assumption; apply mul_nonneg; assumption);
    try (rewrite nmul_exact, lit_exact; lra).
Qed.
End EstimatorFacts.

Section NormalizeFacts.
Local Open Scope Q_scope.

Lemma total_ge (p n u : Q) :
  Reachable (p, n, u) -> 0.3 <= nadd (nadd p n) u.
Proof.
  intros (Hp & Hn & Hu). rewrite !nadd_exact. lra.
Qed.

Lemma total_not_zero (p n u : Q) :
  Reachable (p, n, u) -> neq (nadd (nadd p n) u) (lit 0) = false.
Proof.
  intros Hr. apply not_true_iff_false. intros E.
  apply neq_exact in E. apply total_ge in Hr.
  rewrite E, lit_exact in Hr. lra.
Qed.

Lemma normalize_sorted (p n u : Q) :
  Reachable (p, n, u) ->
  let total := nadd (nadd p n) u in
  normalize (p, n, u)
  = sort byScoreDescending
      [ {| label := "LABEL_2"; score := ndiv p total |};
        {| label := "LABEL_0"; score := ndiv n total |};
        {| label := "LABEL_1"; score := ndiv u total |} ].
Proof.
  intros Hr. cbv zeta. unfold normalize.
  rewrite (total_not_zero p n u Hr). reflexivity.
Qed.

Lemma canonical_perm :
  Permutation ["LABEL_2"; "LABEL_0"; "LABEL_1"]%string canonicalLabels.
Proof.
  unfold canonicalLabels.
  eapply perm_trans; [apply perm_swap|]. apply perm_skip, perm_swap.
Qed.

Lemma normalize_distribution (scores : Q * Q * Q) :
  Reachable scores ->
  Distribution (normalize scores)
  /\ NonNegative (normalize scores)
  /\ sumScores (normalize scores) == 1.
Proof.
  destruct scores as [[p n] u]. intros Hr.
  rewrite (normalize_sorted p n u Hr). cbv zeta.
  pose proof (total_ge p n u Hr) as Ht.
  set (total := nadd (nadd p n) u) in *.
  set (l := [_; _; _]).
  pose proof (sort_perm byScoreDescending l) as P.
  destruct Hr as (Hp & Hn & Hu).
  assert (T0 : 0 < total) by lra.
  repeat split.
  - rewrite sort_length. reflexivity.
  - rewrite <- (Permutation_map label P). apply canonical_perm.
  - apply sort_descending.
  - apply (NonNegative_perm _ _ P).
    subst l. repeat constructor; cbn [score];
      apply div_nonneg; try assumption; lra.
  - rewrite <- (sumScores_perm _ _ P). subst l.
    unfold sumScores. cbn [map fold_right score].
    rewrite !ndiv_exact. subst total. rewrite !nadd_exact in *.
    field. lra.
Qed.

Lemma localEstimate_distribution (processed original : jsstring) :
  let result := getEnhancedMockSentiment (R:=Q) processed original in
  Distribution result /\ NonNegative result /\ sumScores result == 1.
Proof.
  apply normalize_distribution, adjust_reachable,
    extractTextFeatures_reachable.
Qed.

Lemma getEnhancedMockSentiment_length {R} `{Number R}
  (processed original : jsstring) :
  length (getEnhancedMockSentiment (R:=R) processed original) = 3%nat.
Proof.
  unfold getEnhancedMockSentiment, normalize.
  destruct (adjust _) as [[p n] u].
  destruct (neq _ _); [reflexivity|].
  rewrite sort_length. reflexivity.
Qed.

Lemma localEstimate_labels {R} `{Number R} (text : jsstring) :
  Permutation (map label (localEstimate (R:=R) text)) canonicalLabels.
Proof.
  unfold localEstimate, getEnhancedMockSentiment, normalize.
  destruct (adjust _) as [[p n] u].
  destruct (neq _ _).
  - unfold defaultDistribution, canonicalLabels. cbn [map label].
    apply Permutation_sym.
    apply (Permutation_cons_append ["LABEL_1"; "LABEL_2"]%string).
  - rewrite <- (Permutation_map label (sort_perm byScoreDescending _)).
    exact canonical_perm.
Qed.
End NormalizeFacts.

(** ** The statements about the local estimator *)

(** C1, on the code: for "This is not good" the normaliser writes the
    sentinel, "good" counts 0.4 for the positive score and the sentinel is in
    the normalised text; but the indicator is looked for in the lower-cased
    text, is not set, and no swap takes place: the positive entry comes first
    and the negative score is 0, in binary64 and in exact arithmetic. *)
Theorem negation_example_not_swapped :
  let text := js "This is not good" in
  let processed := preprocessText text in
  processed = js "This is NOT_good"
  /\ includes (js "NOT_") processed = true
  /\ positiveScore (extractTextFeatures (R:=float) processed text)
     = 0.4%float
  /\ hasNegation (extractTextFeatures (R:=float) processed text) = false
  /\ localEstimate (R:=float) text
     = [ {| label := "LABEL_2"; score := 0.57142857142857151%float |};
         {| label := "LABEL_1"; score := 0.4285714285714286%float |};
         {| label := "LABEL_0"; score := 0%float |} ]
  /\ localEstimate (R:=Q) text
     = [ {| label := "LABEL_2"; score := (4 # 7)%Q |};
         {| label := "LABEL_1"; score := (3 # 7)%Q |};
         {| label := "LABEL_0"; score := 0%Q |} ].
Proof.
  cbv zeta. repeat split; vm_compute; reflexivity.
Qed.

(** C2, as stated, fails: for the zero-signal text "The meeting is at 3pm"
    the local estimator does not return the default distribution, in
    binary64 or in exact arithmetic. *)
Lemma zero_signal_not_default :
  let text := js "The meeting is at 3pm" in
  localEstimate (R:=float) text <> defaultDistribution
  /\ localEstimate (R:=Q) text <> defaultDistribution.
Proof.
  cbv zeta. split; intros E.
  - apply (f_equal (fun l => match l with
                             | a :: _ => PrimFloat.eqb (score a) 1%float
                             | [] => false
                             end)) in E.
    vm_compute in E. discriminate.
  - vm_compute in E. discriminate.
Qed.

(** C2, amended: when no polarity score is collected the estimator returns
    neutral 1, positive 0, negative 0, since the base neutral score is the
    whole sum; the default distribution is what the normalisation returns
    whenever the three adjusted scores sum to zero. *)
Theorem zero_signal_all_neutral (processed original : jsstring) :
  let features := extractTextFeatures (R:=Q) processed original in
  positiveScore features = 0%Q ->
  negativeScore features = 0%Q ->
  getEnhancedMockSentiment processed original
  = [ {| label := "LABEL_1"; score := 1%Q |};
      {| label := "LABEL_2"; score := 0%Q |};
      {| label := "LABEL_0"; score := 0%Q |} ]
  /\ forall p n u : Q,
       neq (nadd (nadd p n) u) (lit 0) = true ->
       normalize (p, n, u) = defaultDistribution.
Proof.
  cbv zeta. intros Hp Hn. split.
  - pose proof (extractTextFeatures_reachable processed original) as Hr.
    destruct (indicators_never_set (R:=Q) processed original) as (F1 & F2 & F3).
    unfold getEnhancedMockSentiment.
    destruct (extractTextFeatures processed original) as [p n u f1 f2 f3].
    cbn [positiveScore negativeScore neutralScore hasNegation hasIntensifier
         hasDiminisher] in *.
    subst. unfold adjust.
    cbn [positiveScore negativeScore neutralScore hasNegation hasIntensifier
         hasDiminisher].
    cbv beta iota zeta in Hr |- *.
    rewrite (normalize_sorted 0%Q 0%Q u Hr). cbv zeta.
    pose proof (total_ge _ _ _ Hr) as Ht.
    destruct Hr as (_ & _ & Hu).
    assert (Tz : ~ (nadd (nadd 0 0) u == 0)%Q)
      by (intros E; rewrite E in Ht; lra).
    rewrite (ndiv_zero _ Tz).
    replace (ndiv u (nadd (nadd 0%Q 0%Q) u)) with 1%Q; [reflexivity|].
    symmetry. change (Qred (u / nadd (nadd 0 0) u)%Q = Qred 1%Q).
    apply Qred_complete. rewrite !nadd_exact in *. field. lra.
  - intros p n u E. unfold normalize. rewrite E. reflexivity.
Qed.

Lemma zero_signal_all_neutral_witness :
  let text := js "The meeting is at 3pm" in
  localEstimate (R:=Q) text
  = [ {| label := "LABEL_1"; score := 1%Q |};
      {| label := "LABEL_2"; score := 0%Q |};
      {| label := "LABEL_0"; score := 0%Q |} ].
Proof.
  cbv zeta.
  apply (zero_signal_all_neutral
           (preprocessText (js "The meeting is at 3pm"))
           (js "The meeting is at 3pm")); vm_compute; reflexivity.
Defined.

(** C9, as stated, fails in the arithmetic of the program: for
    "good bad poor okay" the three returned doubles do not add up to 1,
    neither as the rationals they stand for nor when added as doubles. *)
Lemma local_scores_sum_not_exactly_one :
  let result := localEstimate (R:=float) (js "good bad poor okay") in
  ~ (fold_right Qplus 0 (map (fun a => exactValue (score a)) result) == 1)%Q
  /\ PrimFloat.eqb (fold_left PrimFloat.add (map score result) 0%float)
       1%float = false.
Proof.
  cbv zeta. split.
  - vm_compute. discriminate.
  - vm_compute. reflexivity.
Qed.

(** C9, amended: for every input the sum of the three adjusted scores is at
    least the base neutral score 0.3, so the test for a zero sum fails and
    the default distribution is never returned; the three returned scores
    sum to 1 in exact arithmetic (in binary64, to 1 up to rounding). *)
Theorem local_estimator_total (processed original : jsstring) :
  let features := extractTextFeatures (R:=Q) processed original in
  let '(p, n, u) := adjust features in
  let total := nadd (nadd p n) u in
  (0.3 <= total)%Q
  /\ (0 < total)%Q
  /\ neq total (lit 0) = false
  /\ (sumScores (getEnhancedMockSentiment processed original) == 1)%Q.
Proof.
  cbv zeta.
  pose proof (adjust_reachable _
                (extractTextFeatures_reachable processed original)) as Hr.
  pose proof (localEstimate_distribution processed original) as (_ & _ & Hs).
  destruct (adjust _) as [[p n] u] eqn:E.
  pose proof (total_ge _ _ _ Hr) as Ht.
  repeat split.
  - exact Ht.
  - eapply Qlt_le_trans; [|exact Ht]. reflexivity.
  - apply total_not_zero, Hr.
  - exact Hs.
Qed.

(** ** Tables and the prototype chain *)

Lemma inherited_not_own (key : string) :
  inherited key = true -> lookup labelMap key = None.
Proof.
  unfold inherited, objectPrototype. cbn [existsb].
  rewrite !orb_true_iff.
  intros E.
  repeat (destruct E as [E|E];
          [apply String.eqb_eq in E; subst; reflexivity|]).
  discriminate.
Qed.

Lemma normalizeLabelToStandard_cases (label : string) :
  match lookup labelMap label with
  | Some l => normalizeLabelToStandard label = Some (Str l)
  | None =>
      normalizeLabelToStandard label
      = if inherited label then Some (Member label) else None
  end.
Proof.
  unfold normalizeLabelToStandard, get.
  destruct (lookup labelMap label); reflexivity.
Qed.

Lemma lookup_canonical (label l : string) :
  lookup labelMap label = Some l ->
  In l canonicalLabels /\ lookup labelMap l = Some l.
Proof.
  unfold labelMap, canonicalLabels. cbn [lookup].
  lookup_cases label; intros [= <-]; (split; [cbn; auto | reflexivity]).
Qed.

Section TableFacts.
Context {R : Type} `{Number R}.

Lemma addTo_keys (t : list (string * R)) (k : string) (x : R) :
  map fst (addTo t k x) = map fst t.
Proof.
  induction t as [|[k' v] t IH]; cbn [addTo map fst]; [reflexivity|].
  destruct (String.eqb k' k); cbn [map fst]; [reflexivity|].
  rewrite IH. reflexivity.
Qed.

Lemma lookup_addTo (t : list (string * R)) (k l : string) (x : R) :
  lookup (addTo t k x) l
  = if String.eqb k l
    then option_map (fun v => nadd v x) (lookup t l)
    else lookup t l.
Proof.
  induction t as [|[k' v] t IH]; cbn [addTo lookup].
  - destruct (String.eqb k l); reflexivity.
  - destruct (String.eqb_spec k' k) as [->|Hk]; cbn [lookup].
    + destruct (String.eqb_spec k l) as [->|Hl]; [reflexivity|].
      reflexivity.
    + destruct (String.eqb_spec k' l) as [->|Hl].
      * destruct (String.eqb_spec k l) as [->|]; [congruence|reflexivity].
      * exact IH.
Qed.

Lemma accumulate_cons (w : R) (r : ApiResponse R) (rs : list (ApiResponse R))
  (t : Scores R) :
  accumulate w (r :: rs) t
  = accumulate w rs
      (match normalizeLabelToStandard (label r) with
       | Some normalizedLabel => addScore t normalizedLabel (nmul (score r) w)
       | None => t
       end).
Proof. reflexivity. Qed.

Lemma accumulate_keys (w : R) (rs : list (ApiResponse R)) (t : Scores R) :
  map fst (numbers (accumulate w rs t)) = map fst (numbers t).
Proof.
  revert t. induction rs as [|r rs IH]; intros t; [reflexivity|].
  rewrite accumulate_cons, IH.
  destruct (normalizeLabelToStandard (label r)) as [[l|name]|];
    cbn [addScore numbers]; [apply addTo_keys | reflexivity | reflexivity].
Qed.

(** The keys added with NaN are the labels that name a member of
    [Object.prototype]: there are none exactly when no label does. *)
Lemma accumulate_members (w : R) (rs : list (ApiResponse R)) (t : Scores R) :
  notANumber (accumulate w rs t) = []
  <-> notANumber t = [] /\ ordinary rs = true.
Proof.
  revert t. induction rs as [|r rs IH]; intros t.
  - cbn. tauto.
  - rewrite accumulate_cons, IH. cbn [ordinary forallb].
    fold (ordinary rs). rewrite andb_true_iff, negb_true_iff.
    pose proof (normalizeLabelToStandard_cases (label r)) as E.
    pose proof (inherited_not_own (label r)) as Hi.
    destruct (lookup labelMap (label r)) as [l|].
    + rewrite E. cbn [addScore notANumber].
      destruct (inherited (label r)); [discriminate Hi; reflexivity|].
      tauto.
    + rewrite E. destruct (inherited (label r)).
      * cbn [addScore notANumber]. split.
        -- intros [Em _].
           destruct (existsb _ (notANumber t)) eqn:Ex.
           ++ rewrite Em in Ex. discriminate.
           ++ destruct (notANumber t); discriminate.
        -- intros [_ [Ef _]]. discriminate.
      * tauto.
Qed.

Lemma relabel_cases (r : ApiResponse R) :
  relabel r
  = (if inherited (label r) then Member (label r)
     else Str (label (standard r)),
     score r).
Proof.
  unfold relabel, standard. cbn [label].
  pose proof (normalizeLabelToStandard_cases (label r)) as E.
  pose proof (inherited_not_own (label r)) as Hi.
  destruct (lookup labelMap (label r)) as [l|]; rewrite E.
  - destruct (inherited (label r)); [discriminate Hi; reflexivity|].
    reflexivity.
  - destruct (inherited (label r)); reflexivity.
Qed.

Lemma standard_kept (r : ApiResponse R) :
  String.prefix "LABEL_" (label (standard r)) = kept r.
Proof.
  unfold standard, kept, known. cbn [label].
  destruct (lookup labelMap (label r)) as [l|] eqn:E; [|reflexivity].
  destruct (lookup_canonical _ _ E) as [[<-|[<-|[<-|[]]]] _]; reflexivity.
Qed.

(** [normalizeSecondaryModelResults] raises exactly when a label names a
    member of [Object.prototype]; otherwise it keeps, in order, the entries
    with a label of the table or a label that begins with LABEL_. *)
Lemma normalizeSecondaryModelResults_spec (results : list (ApiResponse R)) :
  normalizeSecondaryModelResults results
  = if ordinary results then Some (map standard (filter kept results))
    else None.
Proof.
  unfold normalizeSecondaryModelResults.
  induction results as [|r rs IH]; [reflexivity|].
  cbn [map keepLabels ordinary forallb filter]. fold (ordinary rs).
  rewrite relabel_cases.
  destruct (inherited (label r)); [reflexivity|].
  cbn [negb andb]. rewrite IH, standard_kept.
  destruct (ordinary rs); [|reflexivity].
  destruct (kept r); reflexivity.
Qed.

End TableFacts.

(** ** Ensemble fusion in exact arithmetic *)

Section FusionFacts.
Local Open Scope Q_scope.

(** What one pass adds to the entry of a label. *)
Lemma accumulate_value (q : Q) (rs : list (ApiResponse Q)) :
  forall (t : Scores Q) (l : string) (v : Q),
    lookup (numbers t) l = Some v ->
    exists v', lookup (numbers (accumulate (lit q) rs t)) l = Some v'
               /\ v' == v + weighted l q rs.
Proof.
  induction rs as [|r rs IH]; intros t l v Hv.
  - exists v. split; [exact Hv | cbn [weighted]; lra].
  - rewrite accumulate_cons. cbn [weighted].
    pose proof (normalizeLabelToStandard_cases (label r)) as E.
    destruct (lookup labelMap (label r)) as [l'|].
    + rewrite E. cbn [addScore].
      destruct (IH {| numbers :=
                        addTo (numbers t) l' (nmul (score r) (lit q));
                      notANumber := notANumber t |} l
                  (if String.eqb l' l then nadd v (nmul (score r) (lit q))
                   else v)) as (v' & Hv' & Ev).
      { cbn [numbers]. rewrite lookup_addTo, Hv.
        destruct (String.eqb l' l); reflexivity. }
      exists v'. split; [exact Hv'|].
      rewrite Ev. destruct (String.eqb l' l).
      * rewrite nadd_exact, nmul_exact, lit_exact. lra.
      * reflexivity.
    + rewrite E. destruct (inherited (label r)).
      * cbn [addScore]. apply IH. exact Hv.
      * apply IH. exact Hv.
Qed.

(** The numbers of the table of [combineEnsembleResults] after both
    passes. *)
Lemma fusion_table (primary secondary : list (ApiResponse Q)) :
  exists a b c : Q,
    numbers
      (accumulate (lit 0.3) secondary
         (accumulate (lit 0.7) primary
            {| numbers :=
                 [("LABEL_0", lit 0); ("LABEL_1", lit 0);
                  ("LABEL_2", lit 0)]%string;
               notANumber := [] |}))
    = [("LABEL_0", a); ("LABEL_1", b); ("LABEL_2", c)]%string
    /\ a == fused primary secondary "LABEL_0"
    /\ b == fused primary secondary "LABEL_1"
    /\ c == fused primary secondary "LABEL_2".
Proof.
  set (t0 := {| numbers := [("LABEL_0", lit 0); ("LABEL_1", lit 0);
                            ("LABEL_2", lit 0)]%string;
                notANumber := [] |}).
  set (t1 := accumulate (lit 0.7) primary t0).
  set (t2 := accumulate (lit 0.3) secondary t1).
  assert (K : map fst (numbers t2)
              = ["LABEL_0"; "LABEL_1"; "LABEL_2"]%string).
  { subst t2 t1. rewrite !accumulate_keys. reflexivity. }
  assert (V : forall l, In l canonicalLabels ->
              exists v, lookup (numbers t2) l = Some v
                        /\ v == fused primary secondary l).
  { intros l Hl.
    assert (H0 : lookup (numbers t0) l = Some (lit 0)).
    { destruct Hl as [<-|[<-|[<-|[]]]]; reflexivity. }
    destruct (accumulate_value 0.7 primary t0 l _ H0) as (v1 & H1 & E1).
    destruct (accumulate_value 0.3 secondary t1 l _ H1) as (v2 & H2 & E2).
    exists v2. split; [exact H2|].
    unfold fused. rewrite E2, E1, lit_exact. lra. }
  destruct (numbers t2) as [|[k0 a] [|[k1 b] [|[k2 c] [|]]]];
    try discriminate K.
  injection K as -> -> ->.
  exists a, b, c. split; [reflexivity|].
  destruct (V "LABEL_0"%string) as (v0 & L0 & E0); [cbn; auto|].
  destruct (V "LABEL_1"%string) as (v1 & L1 & E1); [cbn; auto|].
  destruct (V "LABEL_2"%string) as (v2 & L2 & E2); [cbn; auto|].
  cbn in L0, L1, L2.
  injection L0 as <-. injection L1 as <-. injection L2 as <-.
  auto.
Qed.

(** The fusion returns a sorted list exactly when no label names a member
    of [Object.prototype]. *)
Lemma fusion_cases (primary secondary : list (ApiResponse Q)) :
  exists a b c : Q,
    a == fused primary secondary "LABEL_0"
    /\ b == fused primary secondary "LABEL_1"
    /\ c == fused primary secondary "LABEL_2"
    /\ if ordinary primary && ordinary secondary
       then combineEnsembleResults primary secondary
            = Results
                (sort byScoreDescending
                   [ {| label := "LABEL_0"; score := a |};
                     {| label := "LABEL_1"; score := b |};
                     {| label := "LABEL_2"; score := c |} ])
       else exists members,
              members <> []
              /\ combineEnsembleResults primary secondary
                 = NotANumber
                     [("LABEL_0", a); ("LABEL_1", b); ("LABEL_2", c)]%string
                     members.
Proof.
  destruct (fusion_table primary secondary) as (a & b & c & Et & Ea & Eb & Ec).
  exists a, b, c. repeat (split; [assumption|]).
  unfold combineEnsembleResults. cbv zeta. rewrite Et.
  set (t0 := {| numbers := [("LABEL_0", lit 0); ("LABEL_1", lit 0);
                            ("LABEL_2", lit 0)]%string;
                notANumber := [] |}).
  pose proof (accumulate_members (lit 0.3) secondary
                (accumulate (lit 0.7) primary t0)) as M2.
  pose proof (accumulate_members (lit 0.7) primary t0) as M1.
  destruct (notANumber (accumulate (lit 0.3) secondary _)) as [|m ms].
  - destruct M2 as [M2 _]. destruct (M2 eq_refl) as [E1 ->].
    destruct M1 as [M1 _]. destruct (M1 E1) as [_ ->]. reflexivity.
  - destruct (ordinary primary && ordinary secondary) eqn:Eo.
    + apply andb_true_iff in Eo as [Ep Es].
      destruct M2 as [_ M2]. discriminate M2. split; [|exact Es].
      apply M1. split; [reflexivity | exact Ep].
    + exists (m :: ms). split; [discriminate | reflexivity].
Qed.

Lemma weighted_nonneg (l : string) (q : Q) (rs : list (ApiResponse Q)) :
  0 <= q -> NonNegative rs -> 0 <= weighted l q rs.
Proof.
  intros Hq. induction 1 as [|r rs Hr _ IH]; cbn [weighted]; [lra|].
  destruct (lookup labelMap (label r)); [|exact IH].
  destruct (String.eqb _ l); [|exact IH].
  pose proof (Qmult_le_0_compat _ _ Hr Hq). lra.
Qed.

Lemma combineEnsembleResults_distribution
  (primary secondary : list (ApiResponse Q)) :
  ordinary primary = true -> ordinary secondary = true ->
  exists result,
    combineEnsembleResults primary secondary = Results result
    /\ Distribution result
    /\ (forall l, In l canonicalLabels ->
          exists v, In {| label := l; score := v |} result
                    /\ v == fused primary secondary l)
    /\ (NonNegative primary -> NonNegative secondary -> NonNegative result).
Proof.
  intros Op Os.
  destruct (fusion_cases primary secondary) as (a & b & c & Ea & Eb & Ec & E).
  rewrite Op, Os in E. cbn [andb] in E.
  eexists. split; [exact E|].
  set (l := [_; _; _]).
  pose proof (sort_perm byScoreDescending l) as P.
  repeat split.
  - rewrite sort_length. reflexivity.
  - rewrite <- (Permutation_map label P). reflexivity.
  - apply sort_descending.
  - intros k Hk.
    destruct Hk as [<-|[<-|[<-|[]]]];
      [exists a | exists b | exists c];
      (split; [apply sort_In; subst l; cbn; auto | assumption]).
  - intros Hp Hs. apply (NonNegative_perm _ _ P). subst l.
    assert (H7 : 0 <= 0.7) by (vm_compute; discriminate).
    assert (H3 : 0 <= 0.3) by (vm_compute; discriminate).
    repeat constructor; cbn [score];
      [rewrite Ea | rewrite Eb | rewrite Ec]; unfold fused;
      match goal with
      | |- 0 <= weighted ?l _ _ + _ =>
          pose proof (weighted_nonneg l _ _ H7 Hp);
          pose proof (weighted_nonneg l _ _ H3 Hs)
      end; lra.
Qed.

(** The entries with a number as score are those of the three canonical
    labels, whatever the labels of the input. *)
Lemma combineEnsembleResults_numbered
  (primary secondary : list (ApiResponse Q)) :
  let result := numbered (combineEnsembleResults primary secondary) in
  Permutation (map label result) canonicalLabels
  /\ forall l, In l canonicalLabels ->
       exists v, In {| label := l; score := v |} result
                 /\ v == fused primary secondary l.
Proof.
  cbv zeta.
  destruct (fusion_cases primary secondary) as (a & b & c & Ea & Eb & Ec & E).
  destruct (ordinary primary && ordinary secondary).
  - rewrite E. cbn [numbered].
    set (l := [_; _; _]).
    pose proof (sort_perm byScoreDescending l) as P. split.
    + rewrite <- (Permutation_map label P). reflexivity.
    + intros k Hk.
      destruct Hk as [<-|[<-|[<-|[]]]];
        [exists a | exists b | exists c];
        (split; [apply sort_In; subst l; cbn; auto | assumption]).
  - destruct E as (members & _ & ->). cbn [numbered map]. split.
    + reflexivity.
    + intros k Hk.
      destruct Hk as [<-|[<-|[<-|[]]]];
        [exists a | exists b | exists c];
        (split; [cbn; auto | assumption]).
Qed.
End FusionFacts.

(** C5: with primary (positive 0.9, neutral 0.05, negative 0.05) and
    secondary (5 stars 0.8) the fused positive score is
    0.9 x 0.7 + 0.8 x 0.3 = 0.87 and the positive entry comes first, in exact
    arithmetic and in binary64.  For all outcomes the entries with a number
    as score are one for each canonical label, each with 0.7 times the
    primary scores plus 0.3 times the secondary scores of the entries that
    map to the label; and when no label names a member of [Object.prototype]
    the result is these three entries and nothing else, a label outside the
    table adding nothing.  A label that names such a member is not dropped:
    with the secondary outcome (constructor 0.8) the table holds a fourth
    entry, whose score is NaN. *)
Theorem ensemble_fusion_weights :
  (let primary :=
     [ {| label := "positive"; score := 0.9%Q |};
       {| label := "neutral"; score := 0.05%Q |};
       {| label := "negative"; score := 0.05%Q |} ] in
   let secondary := [ {| label := "5 stars"; score := 0.8%Q |} ] in
   (0.9 * 0.7 + 0.8 * 0.3 == 0.87)%Q
   /\ exists rest,
        combineEnsembleResults primary secondary
        = Results ({| label := "LABEL_2"; score := 0.87%Q |} :: rest))
  /\ (let primary :=
        [ {| label := "positive"; score := 0.9%float |};
          {| label := "neutral"; score := 0.05%float |};
          {| label := "negative"; score := 0.05%float |} ] in
      let secondary := [ {| label := "5 stars"; score := 0.8%float |} ] in
      exists rest,
        combineEnsembleResults primary secondary
        = Results ({| label := "LABEL_2"; score := 0.87%float |} :: rest))
  /\ (forall primary secondary : list (ApiResponse Q),
        let result := combineEnsembleResults primary secondary in
        Permutation (map label (numbered result)) canonicalLabels
        /\ (forall l, In l canonicalLabels ->
              exists v, In {| label := l; score := v |} (numbered result)
                        /\ (v == weighted l 0.7 primary
                                 + weighted l 0.3 secondary)%Q)
        /\ (ordinary primary = true -> ordinary secondary = true ->
            exists three, result = Results three /\ length three = 3))
  /\ (let primary :=
        [ {| label := "positive"; score := 0.9%Q |};
          {| label := "neutral"; score := 0.05%Q |};
          {| label := "negative"; score := 0.05%Q |} ] in
      let secondary := [ {| label := "constructor"; score := 0.8%Q |} ] in
      combineEnsembleResults primary secondary
      = NotANumber
          [ ("LABEL_0"%string, (7 # 200)%Q); ("LABEL_1"%string, (7 # 200)%Q);
            ("LABEL_2"%string, (63 # 100)%Q) ]
          ["constructor"%string]
      /\ entries (combineEnsembleResults primary secondary) = 4)
  /\ (let primary :=
        [ {| label := "positive"; score := 0.9%float |};
          {| label := "neutral"; score := 0.05%float |};
          {| label := "negative"; score := 0.05%float |} ] in
      let secondary := [ {| label := "constructor"; score := 0.8%float |} ] in
      exists numbers,
        combineEnsembleResults primary secondary
        = NotANumber numbers ["constructor"%string]
        /\ entries (combineEnsembleResults primary secondary) = 4).
Proof.
  split; [|split; [|split; [|split]]].
  - cbv zeta. split; [reflexivity|]. eexists. vm_compute. reflexivity.
  - cbv zeta. eexists. vm_compute. reflexivity.
  - intros primary secondary result.
    destruct (combineEnsembleResults_numbered primary secondary) as [Hp Hv].
    split; [exact Hp|]. split; [exact Hv|].
    intros Op Os.
    destruct (combineEnsembleResults_distribution primary secondary Op Os)
      as (three & E & (Hl & _) & _).
    exists three. split; assumption.
  - cbv zeta. split; vm_compute; reflexivity.
  - cbv zeta. eexists. split; vm_compute; reflexivity.
Qed.

Lemma ensemble_fusion_weights_witness :
  exists three,
    combineEnsembleResults
      [ {| label := "positive"; score := 0.9%Q |};
        {| label := "mixed"; score := 0.1%Q |} ]
      (starRatings (R:=Q))
    = Results three
    /\ length three = 3.
Proof.
  apply (proj2 (proj2 (proj1 (proj2 (proj2 ensemble_fusion_weights))
                         [ {| label := "positive"; score := 0.9%Q |};
                           {| label := "mixed"; score := 0.1%Q |} ]
                         (starRatings (R:=Q)))));
    reflexivity.
Defined.

(** ** The service *)

Section ServiceFacts.
Context {R : Type} `{Number R}.
Variable network : list Event -> string -> jsstring -> Reply R.
Variable this : Service.

Lemma noToken_spec :
  noToken this = true
  <-> apiToken this = [] \/ apiToken this = js "hf_dummy_token".
Proof.
  unfold noToken. rewrite orb_true_iff, eqs_eq.
  destruct (apiToken this); split; intros [E|E]; auto; discriminate.
Qed.

(** Without a credential no request is issued. *)
Lemma analyzeSentiment_noToken (text : jsstring) (log : list Event) :
  noToken this = true ->
  analyzeSentiment network this text log = (Results (localEstimate text), log).
Proof.
  intros E. unfold analyzeSentiment. rewrite E. reflexivity.
Qed.

(** The result in terms of the two outcomes. *)
Lemma analyzeSentiment_ensemble (text : jsstring) (log : list Event) :
  noToken this = false -> useEnsemble this = true ->
  fst (analyzeSentiment network this text log)
  = match primaryOutcome network text log,
          secondaryOutcome network text log with
    | [], [] => Results (localEstimate text)
    | _ :: _, [] => Results (primaryOutcome network text log)
    | [], _ :: _ =>
        match normalizeSecondaryModelResults
                (secondaryOutcome network text log) with
        | Some results => Results results
        | None => Results (localEstimate text)
        end
    | _ :: _, _ :: _ =>
        combineEnsembleResults (primaryOutcome network text log)
          (secondaryOutcome network text log)
    end.
Proof.
  intros E1 E2. unfold analyzeSentiment. rewrite E1, E2.
  unfold bind, callSentimentAPI, primaryOutcome,
    secondaryOutcome.
  destruct (outcome (network log _ _)),
    (outcome (network (log ++ _) _ _)) as [|b s]; try reflexivity.
  cbn [length Nat.ltb Nat.leb andb].
  destruct (normalizeSecondaryModelResults (b :: s)); reflexivity.
Qed.

Lemma analyzeSentiment_single (text : jsstring) (log : list Event) :
  noToken this = false -> useEnsemble this = false ->
  fst (analyzeSentiment network this text log)
  = match primaryOutcome network text log with
    | [] => Results (localEstimate text)
    | _ :: _ => Results (primaryOutcome network text log)
    end.
Proof.
  intros E1 E2. unfold analyzeSentiment. rewrite E1, E2.
  unfold bind, callSentimentAPI, primaryOutcome.
  destruct (outcome (network log _ _)); reflexivity.
Qed.

Lemma analyzeSentiment_fallback (text : jsstring) (log : list Event) :
  primaryOutcome network text log = [] ->
  secondaryOutcome network text log = [] ->
  fst (analyzeSentiment network this text log) = Results (localEstimate text).
Proof.
  intros Hp Hs.
  destruct (noToken this) eqn:E1.
  - rewrite analyzeSentiment_noToken by assumption. reflexivity.
  - destruct (useEnsemble this) eqn:E2.
    + rewrite analyzeSentiment_ensemble, Hp, Hs by assumption. reflexivity.
    + rewrite analyzeSentiment_single, Hp by assumption. reflexivity.
Qed.

Lemma analyzeSentiment_stateless (text : jsstring) (log log' : list Event) :
  Stateless network ->
  fst (analyzeSentiment network this text log)
  = fst (analyzeSentiment network this text log').
Proof.
  intros St. unfold analyzeSentiment.
  destruct (noToken this); [reflexivity|].
  unfold bind, callSentimentAPI.
  destruct (useEnsemble this).
  - rewrite (St log log'),
      (St (log ++ [Post (primary SENTIMENT_MODELS) (preprocessText text)])
          (log' ++ [Post (primary SENTIMENT_MODELS) (preprocessText text)])).
    repeat match goal with
           | |- context [if ?b then _ else _] => destruct b
           | |- context [match normalizeSecondaryModelResults ?l with
                         | _ => _ end] =>
               destruct (normalizeSecondaryModelResults l)
           end; reflexivity.
  - rewrite (St log log').
    destruct (0 <? _); reflexivity.
Qed.

(** *** The batch loop *)

Lemma mapM_Forall2 {A B} (f : A -> M B) (P : A -> B -> Prop) :
  (forall a log, P a (fst (f a log))) ->
  forall l log, Forall2 P l (fst (mapM f l log)).
Proof.
  intros Hf. induction l as [|a l IH]; intros log; cbn [mapM].
  - constructor.
  - unfold bind, ret.
    specialize (Hf a log). destruct (f a log) as [b log1].
    specialize (IH log1). destruct (mapM f l log1) as [bs log2].
    constructor; assumption.
Qed.

Lemma firstn_step {A} (l : list A) (i k : nat) :
  firstn (i + k) l = firstn i l ++ slice l i (i + k).
Proof.
  unfold slice. replace (i + k - i) with k by lia.
  rewrite <- (firstn_skipn i (firstn (i + k) l)) at 1.
  rewrite firstn_firstn, Nat.min_l by lia.
  rewrite firstn_skipn_comm. reflexivity.
Qed.

Lemma analyzeBatchLoop_Forall2 (P : jsstring -> Analysis R -> Prop)
  (texts : list jsstring) :
  (forall text log, P text (fst (analyzeSentiment network this text log))) ->
  forall fuel i results log,
    Forall2 P (firstn i texts) results ->
    length texts <= i + batchSize * fuel ->
    Forall2 P texts
      (fst (analyzeBatchLoop network this texts fuel i results log)).
Proof.
  intros HP. induction fuel as [|fuel IH]; intros i results log Hr Hn;
    cbn [analyzeBatchLoop].
  - rewrite firstn_all2 in Hr by lia. exact Hr.
  - destruct (Nat.ltb_spec i (length texts)) as [Hi|Hi].
    + unfold bind at 1.
      pose proof (mapM_Forall2 (analyzeSentiment network this) P HP
                    (slice texts i (i + batchSize)) log) as Hb.
      destruct (mapM _ _ log) as [batchResults log1].
      cbn [fst] in Hb. unfold bind.
      destruct ((if i + batchSize <? length texts
                 then emit (Sleep 2000) else ret tt) log1) as [[] log2].
      apply IH.
      * rewrite firstn_step. apply Forall2_app; assumption.
      * unfold batchSize in *. lia.
    + rewrite firstn_all2 in Hr by lia. exact Hr.
Qed.

Lemma analyzeBatch_Forall2 (P : jsstring -> Analysis R -> Prop)
  (texts : list jsstring) (log : list Event) :
  (forall text log, P text (fst (analyzeSentiment network this text log))) ->
  Forall2 P texts (fst (analyzeBatch network this texts log)).
Proof.
  intros HP. unfold analyzeBatch.
  apply analyzeBatchLoop_Forall2; [exact HP | constructor |].
  unfold batchSize. lia.
Qed.

Lemma Forall2_map_eq {A B} (g : A -> B) (l : list A) (l' : list B) :
  Forall2 (fun a b => b = g a) l l' -> l' = map g l.
Proof.
  induction 1; cbn [map]; [reflexivity | congruence].
Qed.

(** C7: [analyzeSentiment] always returns a result.  Without a credential
    (the token empty or the constructor's placeholder) the result is the
    local estimator's and the log is unchanged, so no request was issued;
    when both calls come back empty the result is the local estimator's
    too; and the local estimator returns three entries, never none. *)
Theorem analyzeSentiment_never_fails (text : jsstring) (log : list Event) :
  (apiToken this = [] \/ apiToken this = js "hf_dummy_token" ->
   analyzeSentiment network this text log
   = (Results (localEstimate text), log))
  /\ (primaryOutcome network text log = [] ->
      secondaryOutcome network text log = [] ->
      fst (analyzeSentiment network this text log)
      = Results (localEstimate text))
  /\ length (localEstimate (R:=R) text) = 3.
Proof.
  repeat split.
  - intros E. apply analyzeSentiment_noToken, noToken_spec, E.
  - apply analyzeSentiment_fallback.
  - apply getEnhancedMockSentiment_length.
Qed.

(** C8: for a list of N texts [analyzeBatch] returns N results, and the
    i-th result is the result of [analyzeSentiment] on the i-th text (at
    the point of the run where its requests were issued); when the replies
    of the network do not depend on the history this is the list of the
    analyses of the texts, in order. *)
Theorem analyzeBatch_in_order (texts : list jsstring) (log : list Event) :
  let results := fst (analyzeBatch network this texts log) in
  length results = length texts
  /\ Forall2
       (fun text result =>
          exists log',
            result = fst (analyzeSentiment network this text log'))
       texts results
  /\ (Stateless network ->
      results
      = map (fun text => fst (analyzeSentiment network this text [])) texts).
Proof.
  cbv zeta. repeat split.
  - symmetry. eapply Forall2_length.
    apply (analyzeBatch_Forall2 (fun _ _ => True)). auto.
  - apply analyzeBatch_Forall2. intros text log'. exists log'. reflexivity.
  - intros St. apply Forall2_map_eq.
    apply (analyzeBatch_Forall2
             (fun text result =>
                result = fst (analyzeSentiment network this text []))).
    intros text log'. apply analyzeSentiment_stateless, St.
Qed.
End ServiceFacts.

Lemma analyzeSentiment_never_fails_witness :
  analyzeSentiment (R:=Q) offline getInstance (js "good") []
  = (Results (localEstimate (js "good")), [])
  /\ fst (analyzeSentiment (R:=Q) offline withToken (js "good") [])
     = Results (localEstimate (js "good")).
Proof.
  split.
  - apply (proj1 (analyzeSentiment_never_fails (R:=Q) offline getInstance
                    (js "good") [])).
    right. reflexivity.
  - apply (proj1 (proj2 (analyzeSentiment_never_fails (R:=Q) offline withToken
                           (js "good") []))); reflexivity.
Defined.

Lemma analyzeBatch_in_order_witness :
  fst (analyzeBatch (R:=Q) secondaryOnly withToken
         [js "good"; js "bad"; js "okay"; js "fine"] [])
  = map (fun text =>
           fst (analyzeSentiment (R:=Q) secondaryOnly withToken text []))
      [js "good"; js "bad"; js "okay"; js "fine"].
Proof.
  apply (proj2 (proj2 (analyzeBatch_in_order (R:=Q) secondaryOnly withToken
                         [js "good"; js "bad"; js "okay"; js "fine"] []))).
  intros log log' url text. reflexivity.
Defined.

(** C3, as stated, fails: when only the secondary classifier answers, with its
    five star ratings, the result is the five re-mapped entries, not a
    distribution of three. *)
Lemma secondary_only_not_distribution :
  exists five,
    fst (analyzeSentiment secondaryOnly withToken (js "good") [])
    = Results five
    /\ length five = 5
    /\ ~ Distribution five.
Proof.
  eexists. split; [vm_compute; reflexivity|].
  split; [reflexivity|].
  intros (Hl & _). discriminate Hl.
Qed.

(** In the same branch the result is empty when no label of the secondary
    outcome is in the table. *)
Lemma secondary_only_can_be_empty :
  fst (analyzeSentiment (R:=Q) unmappedOnly withToken (js "good") [])
  = Results [].
Proof. vm_compute. reflexivity. Qed.

(** In the same branch a label that names a member of [Object.prototype]
    makes [normalizeSecondaryModelResults] raise; [analyzeSentiment] catches
    the error and answers with the local estimate. *)
Lemma secondary_only_caught {R : Type} `{Number R}
  (network : list Event -> string -> jsstring -> Reply R) (this : Service)
  (text : jsstring) (log : list Event) :
  noToken this = false -> useEnsemble this = true ->
  primaryOutcome network text log = [] ->
  ordinary (secondaryOutcome network text log) = false ->
  fst (analyzeSentiment network this text log)
  = Results (localEstimate text).
Proof.
  intros E1 E2 Ep Eo.
  rewrite analyzeSentiment_ensemble by assumption. rewrite Ep.
  destruct (secondaryOutcome network text log) as [|b s]; [reflexivity|].
  rewrite normalizeSecondaryModelResults_spec, Eo. reflexivity.
Qed.

(** C3, amended: the result has exactly three entries, one for each
    canonical label, sorted by descending score, when it comes from the local
    estimator (no credential, or no remote outcome) or from the fusion of two
    outcomes none of whose labels names a member of [Object.prototype]; its
    scores are non-negative for the local estimator, and for the fusion when
    the remote scores are.  When exactly one remote call succeeds the result
    is the primary outcome as it came, or the entries of the secondary
    outcome with a label of the table or a label that begins with LABEL_,
    the former under their canonical label. *)
Theorem analyzeSentiment_distribution
  (network : list Event -> string -> jsstring -> Reply Q) (this : Service)
  (text : jsstring) (log : list Event) :
  let result := fst (analyzeSentiment network this text log) in
  let p := primaryOutcome network text log in
  let s := secondaryOutcome network text log in
  let local :=
    result = Results (localEstimate text)
    /\ Distribution (localEstimate text)
    /\ NonNegative (localEstimate text) in
  if noToken this then local
  else if useEnsemble this then
    match p, s with
    | [], [] => local
    | _ :: _, _ :: _ =>
        ordinary p = true -> ordinary s = true ->
        exists three,
          result = Results three
          /\ Distribution three
          /\ (NonNegative p -> NonNegative s -> NonNegative three)
    | _ :: _, [] => result = Results p
    | [], _ :: _ =>
        ordinary s = true ->
        normalizeSecondaryModelResults s = Some (map standard (filter kept s))
        /\ result = Results (map standard (filter kept s))
    end
  else
    match p with
    | [] => local
    | _ :: _ => result = Results p
    end.
Proof.
  cbv zeta.
  pose proof (localEstimate_distribution (preprocessText text) text)
    as (Hd & Hn & _).
  destruct (noToken this) eqn:E1.
  - rewrite analyzeSentiment_noToken by assumption.
    split; [reflexivity | split; assumption].
  - destruct (useEnsemble this) eqn:E2.
    + rewrite analyzeSentiment_ensemble by assumption.
      destruct (primaryOutcome network text log) as [|a p] eqn:Ep;
        destruct (secondaryOutcome network text log) as [|b s] eqn:Es;
        try reflexivity.
      * split; [reflexivity | split; assumption].
      * intros Os. rewrite normalizeSecondaryModelResults_spec, Os.
        split; reflexivity.
      * intros Op Os.
        destruct (combineEnsembleResults_distribution (a :: p) (b :: s)
                    Op Os) as (three & -> & D & _ & N).
        exists three. split; [reflexivity | split; assumption].
    + rewrite analyzeSentiment_single by assumption.
      destruct (primaryOutcome network text log) as [|a p] eqn:Ep;
        [split; [reflexivity | split; assumption] | reflexivity].
Qed.

Lemma analyzeSentiment_distribution_witness :
  exists three,
    fst (analyzeSentiment bothAnswer withToken (js "good") [])
    = Results three
    /\ Distribution three
    /\ NonNegative three.
Proof.
  destruct (analyzeSentiment_distribution bothAnswer withToken (js "good") []
              eq_refl eq_refl) as (three & E & D & N).
  exists three. split; [exact E|]. split; [exact D|].
  apply N; repeat constructor; vm_compute; discriminate.
Defined.

(** ** Keyword extraction *)

Section KeywordFacts.
Context {R : Type} `{Number R}.

Lemma unique_In (w : jsstring) (l seen : list jsstring) :
  In w (unique seen l) -> In w l.
Proof.
  revert seen. induction l as [|x l IH]; intros seen; cbn [unique].
  - auto.
  - destruct (memberOf x seen).
    + intros Hw. right. eapply IH, Hw.
    + intros [->|Hw]; [left; reflexivity | right; eapply IH, Hw].
Qed.

Lemma firstn_In {A} (x : A) (n : nat) (l : list A) :
  In x (firstn n l) -> In x l.
Proof.
  intros Hx. rewrite <- (firstn_skipn n l). apply in_or_app. left. exact Hx.
Qed.

Lemma extractKeywords_topSix (text : jsstring) (sentiment : string) :
  extractKeywords text sentiment
  = filter (fun keyword => negb (includes (js "_") keyword))
      (topSix text sentiment).
Proof. reflexivity. Qed.

Lemma topSix_retained (text : jsstring) (sentiment : string) (k : jsstring) :
  In k (topSix text sentiment) ->
  In k (tokens text) /\ relevant (tokens text) sentiment k = true.
Proof.
  unfold topSix. cbv zeta. intros Hk.
  apply in_map_iff in Hk as ([k' v] & <- & Hk).
  apply firstn_In, sort_In, in_map_iff in Hk as (k'' & E & Hk).
  injection E as -> _.
  unfold uniqueKeywords in Hk. cbv zeta in Hk.
  apply unique_In, filter_In in Hk. exact Hk.
Qed.

(** C6: for every text and every label [extractKeywords] returns at most
    six tokens, none of which holds an underscore or is a stop word. *)
Theorem extractKeywords_bounds (text : jsstring) (sentiment : string) :
  let keywords := extractKeywords text sentiment in
  length keywords <= 6
  /\ Forall (fun keyword =>
               ~ In (N_of_ascii "_") keyword /\ ~ In keyword stopWords)
       keywords.
Proof.
  cbv zeta. rewrite extractKeywords_topSix. split.
  - eapply Nat.le_trans; [apply filter_length_le|].
    unfold topSix. cbv zeta. rewrite length_map. apply firstn_le_length.
  - apply Forall_forall. intros k Hk.
    apply filter_In in Hk as [Hk Hu]. split.
    + intros Hin. apply (includes_unit (N_of_ascii "_") k) in Hin.
      change (includes (js "_") k = true) in Hin.
      rewrite Hin in Hu. discriminate.
    + intros Hs. apply memberOf_In in Hs.
      apply topSix_retained in Hk as [_ Hr].
      unfold relevant in Hr. rewrite Hs in Hr. discriminate.
Qed.
End KeywordFacts.

(** C10: there is a text for which [extractKeywords] returns fewer than six
    keywords although more than six distinct retained tokens without an
    underscore exist.  For "not recommended: boring story, silly dialogue,
    sloppy editing, clumsy acting, dreary music, tired cliches" and the label
    negative the token not_recommended, made of a sentinel, is no stop word
    and no keyword of the label, is retained for its length and ranks first;
    the cut keeps it and the next five; the filter then removes it, and the
    five are what is returned, although twelve distinct tokens without an
    underscore were retained.  Had the filter come before the cut, six
    keywords would be returned.  In binary64 and in exact arithmetic. *)
Theorem keywords_cut_before_filter :
  exists (text : jsstring) (sentiment : string) (marker : jsstring),
    let returned :=
      map js ["dialogue"; "editing"; "cliches"; "boring"; "sloppy"]%string in
    let retained :=
      map js ["boring"; "story"; "silly"; "dialogue"; "sloppy"; "editing";
              "clumsy"; "acting"; "dreary"; "music"; "tired";
              "cliches"]%string in
    let unmarked := fun keyword => negb (includes (js "_") keyword) in
    In (N_of_ascii "_") marker
    /\ memberOf marker stopWords = false
    /\ isKeywordOf sentiment marker = false
    /\ 4 < length marker
    /\ length returned < 6 /\ 6 < length retained /\ NoDup retained
    /\ (extractKeywords (R:=float) text sentiment = returned
        /\ topSix (R:=float) text sentiment = marker :: returned
        /\ firstn 6 (ranked (R:=float) text sentiment) = marker :: returned
        /\ eligible (R:=float) text sentiment = retained
        /\ length (firstn 6 (filter unmarked (ranked (R:=float) text sentiment)))
           = 6)
    /\ (extractKeywords (R:=Q) text sentiment = returned
        /\ topSix (R:=Q) text sentiment = marker :: returned
        /\ firstn 6 (ranked (R:=Q) text sentiment) = marker :: returned
        /\ eligible (R:=Q) text sentiment = retained
        /\ length (firstn 6 (filter unmarked (ranked (R:=Q) text sentiment)))
           = 6).
Proof.
  exists (js ("not recommended: boring story, silly dialogue, "
              ++ "sloppy editing, clumsy acting, dreary music, "
              ++ "tired cliches")).
  exists "negative"%string.
  exists (js "not_recommended").
  cbv zeta.
  assert (D : forall l : list jsstring,
             (fix nodup (l : list jsstring) : bool :=
                match l with
                | [] => true
                | x :: l' => negb (memberOf x l') && nodup l'
                end) l = true -> NoDup l).
  { induction l as [|x l IH]; intros E; constructor;
      apply andb_true_iff in E as [E1 E2].
    - intros Hx. apply memberOf_In in Hx. rewrite Hx in E1. discriminate.
    - apply IH, E2. }
  split; [|split; [|split; [|split; [|split; [|split; [|split; [|split]]]]]]].
  - apply (proj1 (includes_unit _ _)). vm_compute. reflexivity.
  - vm_compute. reflexivity.
  - vm_compute. reflexivity.
  - vm_compute. lia.
  - vm_compute. lia.
  - vm_compute. lia.
  - apply D. vm_compute. reflexivity.
  - repeat split; vm_compute; reflexivity.
  - repeat split; vm_compute; reflexivity.
Qed.

(** * Further properties of the service *)

(** ** The local estimator and the normalised text *)

Lemma includes_capital (pat s : jsstring) :
  capital pat = true -> includes pat (toLowerCase s) = false.
Proof.
  destruct pat as [|p pat]; [discriminate|]. apply includes_lower.
Qed.

(** X1: the local estimator does not depend on the normalised text it is
    given.  The six indicators (negation, intensifier, diminisher, the two
    emoji classes, excitement) are looked for in capitals in lower-cased text
    and never found, so the features are those of the raw text alone and the
    context adjustments leave the three scores as they are. *)
Theorem local_estimate_ignores_processed {R} `{Number R}
  (processed processed' original : jsstring) :
  extractTextFeatures processed original
  = extractTextFeatures processed' original
  /\ getEnhancedMockSentiment processed original
     = getEnhancedMockSentiment processed' original
  /\ (let features := extractTextFeatures processed original in
      adjust features
      = (positiveScore features, negativeScore features,
         neutralScore features)).
Proof.
  assert (E : forall p p', extractTextFeatures p original
                           = extractTextFeatures p' original).
  { intros p p'. unfold extractTextFeatures. cbv zeta.
    rewrite !includes_capital by reflexivity. reflexivity. }
  split; [apply E|]. split.
  - unfold getEnhancedMockSentiment. rewrite (E processed processed').
    reflexivity.
  - cbv zeta.
    destruct (indicators_never_set processed original) as (F1 & F2 & F3).
    unfold adjust. rewrite F1, F2, F3. reflexivity.
Qed.

(** ** Sentences *)

Lemma splitFrom_fields (P : N -> Prop) (sep : N -> bool) (s : jsstring) :
  (forall c, In c s -> sep c = false -> P c) ->
  forall cur inRun,
    Forall P cur -> Forall (Forall P) (splitFrom sep cur inRun s).
Proof.
  induction s as [|c s IH]; intros Hs cur inRun Hcur; cbn [splitFrom].
  - constructor; [|constructor]. apply Forall_rev, Hcur.
  - assert (Hs' : forall c', In c' s -> sep c' = false -> P c')
      by (intros c' Hc'; apply Hs; right; exact Hc').
    destruct (sep c) eqn:E.
    + destruct inRun.
      * apply IH; [exact Hs' | constructor].
      * constructor; [apply Forall_rev, Hcur|].
        apply IH; [exact Hs' | constructor].
    + apply IH; [exact Hs'|].
      constructor; [apply Hs; [left; reflexivity | exact E] | exact Hcur].
Qed.

Lemma split_fields (P : N -> Prop) (sep : N -> bool) (s : jsstring) :
  (forall c, In c s -> sep c = false -> P c) ->
  Forall (Forall P) (split sep s).
Proof.
  intros Hs. apply splitFrom_fields; [exact Hs | constructor].
Qed.

Lemma includes_absent (c : N) (s : jsstring) :
  ~ In c s -> includes [c] s = false.
Proof.
  intros Hc. apply not_true_iff_false. intros E.
  apply includes_unit in E. contradiction.
Qed.

(** X2: a sentence scored by [extractTextFeatures] is not blank and holds no
    [.], [!] or [?], the characters the text is split at; so the cue for
    questions of [analyzeSentenceStructure] never applies there, and the
    neutral score of a sentence is 0.1 for a conditional and 0 otherwise. *)
Theorem sentences_hold_no_question {R} `{Number R}
  (originalText sentence : jsstring) :
  In sentence (sentences originalText) ->
  trim sentence <> []
  /\ ~ In (N_of_ascii ".") sentence
  /\ ~ In (N_of_ascii "!") sentence
  /\ ~ In (N_of_ascii "?") sentence
  /\ neutral (analyzeSentenceStructure sentence)
     = if includes (js "if") sentence || includes (js "would") sentence
       then nadd (lit 0) (lit 0.1) else lit 0.
Proof.
  unfold sentences. intros Hs. apply filter_In in Hs as [Hs Ht].
  pose proof (split_fields
                (fun c => (isChar "." c || isChar "!" c || isChar "?" c)
                          = false)
                (fun c => isChar "." c || isChar "!" c || isChar "?" c)
                originalText (fun c _ E => E)) as Hf.
  rewrite Forall_forall in Hf. specialize (Hf sentence Hs).
  rewrite Forall_forall in Hf.
  assert (H1 : ~ In (N_of_ascii ".") sentence)
    by (intros Hin; apply Hf in Hin; vm_compute in Hin; discriminate).
  assert (H2 : ~ In (N_of_ascii "!") sentence)
    by (intros Hin; apply Hf in Hin; vm_compute in Hin; discriminate).
  assert (H3 : ~ In (N_of_ascii "?") sentence)
    by (intros Hin; apply Hf in Hin; vm_compute in Hin; discriminate).
  repeat split; try assumption.
  - intros E. rewrite E in Ht. discriminate.
  - unfold analyzeSentenceStructure.
    change (js "?") with [N_of_ascii "?"].
    rewrite (includes_absent _ _ H3).
    destruct (includes (js "better than") sentence
              || includes (js "worse than") sentence);
      cbn [neutral];
      destruct (includes (js "if") sentence || includes (js "would") sentence);
      reflexivity.
Qed.

Lemma sentences_hold_no_question_witness :
  In (js " I would say so") (sentences (js "Is it good? I would say so."))
  /\ neutral (analyzeSentenceStructure (R:=Q) (js " I would say so"))
     = nadd (lit 0) (lit 0.1).
Proof.
  assert (Hs : In (js " I would say so")
                 (sentences (js "Is it good? I would say so.")))
    by (vm_compute; auto).
  split; [exact Hs|].
  apply (proj2 (proj2 (proj2 (proj2
           (sentences_hold_no_question (R:=Q) _ _ Hs))))).
Defined.

(** ** Labels *)

Lemma inherited_In (key : string) :
  inherited key = true <-> In key objectPrototype.
Proof.
  unfold inherited. rewrite existsb_exists. split.
  - intros (k & Hk & E). apply String.eqb_eq in E. subst. exact Hk.
  - intros Hk. exists key. split; [exact Hk | apply String.eqb_refl].
Qed.

Lemma known_In (label : string) :
  known label = true
  <-> In label
        ["LABEL_0"; "LABEL_1"; "LABEL_2"; "negative"; "neutral"; "positive";
         "1 star"; "2 stars"; "3 stars"; "4 stars"; "5 stars"]%string.
Proof.
  unfold known, labelMap. cbn [lookup].
  lookup_cases label; subst; split; intros E;
    try discriminate; try reflexivity; try (cbn; tauto).
  cbn in E. intuition congruence.
Qed.

(** X3: [normalizeLabelToStandard] answers with a string exactly for the
    eleven labels of its table (the three canonical ones, the three words and
    the five ratings in stars, in this spelling), and the string is the
    canonical label of the sentiment, which it maps to itself.  It answers
    null exactly for a label that is neither in the table nor the name of a
    member of [Object.prototype]; for these twelve names it answers with the
    member, which is not null. *)
Theorem normalizeLabelToStandard_range (label : string) :
  match normalizeLabelToStandard label with
  | Some (Str l) =>
      known label = true
      /\ In l canonicalLabels
      /\ normalizeLabelToStandard l = Some (Str l)
      /\ (l = "LABEL_0"%string
          <-> In label ["LABEL_0"; "negative"; "1 star"; "2 stars"]%string)
      /\ (l = "LABEL_1"%string
          <-> In label ["LABEL_1"; "neutral"; "3 stars"]%string)
      /\ (l = "LABEL_2"%string
          <-> In label ["LABEL_2"; "positive"; "4 stars"; "5 stars"]%string)
  | Some (Member name) =>
      name = label /\ In label objectPrototype /\ known label = false
  | None => ~ In label objectPrototype /\ known label = false
  end.
Proof.
  pose proof (normalizeLabelToStandard_cases label) as E.
  unfold known.
  destruct (lookup labelMap label) as [l|] eqn:El.
  - rewrite E. split; [reflexivity|].
    destruct (lookup_canonical _ _ El) as [Hc Hl].
    split; [exact Hc|]. split.
    { pose proof (normalizeLabelToStandard_cases l) as E'.
      rewrite Hl in E'. exact E'. }
    revert El. unfold labelMap. cbn [lookup].
    lookup_cases label; subst; intros [= <-];
      repeat split; intros E'; try discriminate; try reflexivity;
        try (cbn; tauto); cbn in E'; intuition discriminate.
  - rewrite E. destruct (inherited label) eqn:Ei.
    + split; [reflexivity|]. split; [apply inherited_In, Ei | reflexivity].
    + split; [|reflexivity].
      intros Hin. apply inherited_In in Hin. congruence.
Qed.

Section SecondaryFacts.
Context {R : Type} `{Number R}.

Lemma standard_fixed (r : ApiResponse R) :
  kept r = true ->
  inherited (label (standard r)) = false
  /\ kept (standard r) = true
  /\ standard (standard r) = standard r.
Proof.
  unfold kept, known, standard. cbn [label score].
  destruct (lookup labelMap (label r)) as [l|] eqn:E.
  - intros _.
    destruct (lookup_canonical _ _ E) as [[<-|[<-|[<-|[]]]] _];
      repeat split; reflexivity.
  - cbn [orb]. intros Hp. rewrite E, Hp. repeat split.
    destruct (inherited (label r)) eqn:Ei; [|reflexivity].
    apply inherited_In in Ei. cbn in Ei.
    repeat (destruct Ei as [Ei|Ei]; [rewrite <- Ei in Hp; discriminate Hp|]).
    contradiction.
Qed.

Lemma standard_filter_fixed (results : list (ApiResponse R)) :
  let out := map standard (filter kept results) in
  ordinary out = true /\ filter kept out = out /\ map standard out = out.
Proof.
  cbv zeta. induction results as [|r rs (IH1 & IH2 & IH3)];
    [repeat split|].
  cbn [filter]. destruct (kept r) eqn:E; [|repeat split; assumption].
  destruct (standard_fixed r E) as (F1 & F2 & F3).
  cbn [map ordinary forallb filter]. fold (ordinary (map standard (filter kept rs))).
  rewrite F1, F2, IH1. cbn [map]. rewrite F3, IH2, IH3.
  repeat split.
Qed.

(** X4: [normalizeSecondaryModelResults] raises (a TypeError, which
    [analyzeSentiment] catches) exactly when a label names a member of
    [Object.prototype].  Otherwise it returns one entry for each entry of
    the input whose label is in the table or begins with LABEL_, in the order
    of the input and with its score: under the canonical label when the
    label is in the table, and as it is otherwise (an unknown label such as
    LABEL_7 passes).  Every label returned begins with LABEL_, and
    normalising the result again changes nothing. *)
Theorem normalizeSecondaryModelResults_kept (results : list (ApiResponse R)) :
  match normalizeSecondaryModelResults results with
  | None => Exists (fun r => In (label r) objectPrototype) results
  | Some out =>
      Forall (fun r => ~ In (label r) objectPrototype) results
      /\ map score out = map score (filter kept results)
      /\ Forall2
           (fun r o =>
              if known (label r)
              then In (label o) canonicalLabels
                   /\ lookup labelMap (label r) = Some (label o)
              else o = r)
           (filter kept results) out
      /\ Forall (fun o => String.prefix "LABEL_" (label o) = true) out
      /\ (forall r, In r results ->
            String.prefix "LABEL_" (label r) = true ->
            known (label r) = false -> In r out)
      /\ normalizeSecondaryModelResults out = Some out
  end.
Proof.
  rewrite normalizeSecondaryModelResults_spec.
  destruct (ordinary results) eqn:Eo.
  - split; [|split; [|split; [|split; [|split]]]].
    + unfold ordinary in Eo. rewrite forallb_forall in Eo.
      apply Forall_forall. intros r Hr Hin.
      apply inherited_In in Hin. specialize (Eo r Hr).
      rewrite Hin in Eo. discriminate.
    + rewrite map_map. reflexivity.
    + induction (filter kept results) as [|r rs IH]; constructor; [|exact IH].
      unfold known, standard. cbn [label].
      destruct (lookup labelMap (label r)) as [l|] eqn:E.
      * split; [apply (lookup_canonical _ _ E) | reflexivity].
      * destruct r; reflexivity.
    + apply Forall_forall. intros o Ho.
      apply in_map_iff in Ho as (r & <- & Hr).
      apply filter_In in Hr as [_ Hk]. rewrite standard_kept. exact Hk.
    + intros r Hr Hp Hk. apply in_map_iff. exists r. split.
      * unfold standard, known in *.
        destruct (lookup labelMap (label r)); [discriminate|].
        destruct r; reflexivity.
      * apply filter_In. split; [exact Hr|].
        unfold kept. rewrite Hp. apply orb_true_r.
    + rewrite normalizeSecondaryModelResults_spec.
      destruct (standard_filter_fixed results) as (-> & -> & ->).
      reflexivity.
  - unfold ordinary in Eo.
    apply Exists_exists.
    induction results as [|r rs IH]; [discriminate|].
    cbn [forallb] in Eo. apply andb_false_iff in Eo as [Eo|Eo].
    + exists r. split; [left; reflexivity|].
      apply inherited_In. apply negb_false_iff. exact Eo.
    + destruct (IH Eo) as (r' & Hr' & Hi).
      exists r'. split; [right; exact Hr' | exact Hi].
Qed.
End SecondaryFacts.

(** ** The shape of the keywords *)

Section KeywordShape.
Context {R : Type} `{Number R}.

Lemma unique_NoDup (l seen : list jsstring) :
  NoDup (unique seen l)
  /\ forall w, In w (unique seen l) -> ~ In w seen.
Proof.
  revert seen. induction l as [|x l IH]; intros seen; cbn [unique].
  - split; [constructor | intros w []].
  - destruct (memberOf x seen) eqn:E.
    + apply IH.
    + destruct (IH (x :: seen)) as [Hn Hs]. split.
      * constructor; [|exact Hn].
        intros Hx. apply (Hs x Hx). left. reflexivity.
      * intros w [<-|Hw].
        -- intros Hin. apply memberOf_In in Hin. congruence.
        -- intros Hin. apply (Hs w Hw). right. exact Hin.
Qed.

Lemma NoDup_firstn {A} (n : nat) (l : list A) : NoDup l -> NoDup (firstn n l).
Proof.
  intros Hl. rewrite <- (firstn_skipn n l) in Hl.
  eapply NoDup_app_remove_r, Hl.
Qed.

Lemma topSix_NoDup (text : jsstring) (sentiment : string) :
  NoDup (topSix text sentiment).
Proof.
  unfold topSix. cbv zeta. rewrite <- firstn_map. apply NoDup_firstn.
  eapply Permutation_NoDup.
  - apply Permutation_map, sort_perm.
  - rewrite map_map. cbn [fst]. rewrite map_id.
    unfold uniqueKeywords. apply unique_NoDup.
Qed.

Lemma tokens_chars (text : jsstring) :
  Forall (fun word =>
            2 < length word
            /\ Forall (fun c => isWordChar c = true /\ isUpper c = false) word)
    (tokens text).
Proof.
  unfold tokens. cbv zeta. apply Forall_forall. intros w Hw.
  apply filter_In in Hw as [Hw Hl]. split; [apply Nat.ltb_lt, Hl|].
  clear Hl. revert w Hw. apply Forall_forall. apply split_fields.
  intros c Hc Hsep. split.
  - apply negb_false_iff. exact Hsep.
  - unfold toLowerCase in Hc. apply in_map_iff in Hc as (c' & <- & _).
    apply lowerUnit_not_upper.
Qed.

(** X5: the keywords [extractKeywords] returns are pairwise distinct, and
    each is a token of the lower-cased normalised text: at least three
    characters, all of them small ASCII letters or digits. *)
Theorem extractKeywords_shape (text : jsstring) (sentiment : string) :
  let keywords := extractKeywords text sentiment in
  NoDup keywords
  /\ Forall (fun keyword =>
               In keyword (tokens text)
               /\ 3 <= length keyword
               /\ Forall (fun c => isLower c = true \/ isDigit c = true)
                    keyword)
       keywords.
Proof.
  cbv zeta. rewrite extractKeywords_topSix. split.
  - apply NoDup_filter, topSix_NoDup.
  - apply Forall_forall. intros k Hk.
    apply filter_In in Hk as [Hk Hu].
    apply topSix_retained in Hk as [Hk _].
    pose proof (tokens_chars text) as Ht.
    rewrite Forall_forall in Ht. destruct (Ht k Hk) as [Hl Hc].
    split; [exact Hk|]. split; [exact Hl|].
    apply Forall_forall. intros c Hin.
    rewrite Forall_forall in Hc. destruct (Hc c Hin) as [Hw Hup].
    assert (H95 : c <> 95%N).
    { intros ->. apply negb_true_iff in Hu.
      change (js "_") with [95%N] in Hu.
      apply not_true_iff_false in Hu. apply Hu, includes_unit, Hin. }
    unfold isWordChar in Hw. rewrite Hup in Hw. cbn [orb] in Hw.
    apply orb_true_iff in Hw as [Hw|Hw].
    + apply orb_true_iff in Hw. exact Hw.
    + apply N.eqb_eq in Hw. contradiction.
Qed.
End KeywordShape.

(** ** More on ensemble fusion *)

Section FusionOrder.
Context {R : Type} `{Number R}.

Lemma addTo_swap (t : list (string * R)) (k k' : string) (x y : R) :
  k <> k' -> addTo (addTo t k x) k' y = addTo (addTo t k' y) k x.
Proof.
  intros Hk. induction t as [|[k0 v] t IH]; [reflexivity|].
  cbn [addTo].
  destruct (String.eqb k0 k) eqn:E1; destruct (String.eqb k0 k') eqn:E2;
    cbn [addTo]; rewrite ?E1, ?E2.
  - apply String.eqb_eq in E1, E2. congruence.
  - reflexivity.
  - reflexivity.
  - rewrite IH. reflexivity.
Qed.

(** One step of a pass, for a label that names no member of
    [Object.prototype]. *)
Lemma step_ordinary (r : ApiResponse R) (w : R) (t : Scores R) :
  inherited (label r) = false ->
  match normalizeLabelToStandard (label r) with
  | Some normalizedLabel => addScore t normalizedLabel (nmul (score r) w)
  | None => t
  end
  = match lookup labelMap (label r) with
    | Some l =>
        {| numbers := addTo (numbers t) l (nmul (score r) w);
           notANumber := notANumber t |}
    | None => t
    end.
Proof.
  intros Hi. pose proof (normalizeLabelToStandard_cases (label r)) as E.
  destruct (lookup labelMap (label r)); rewrite E; [reflexivity|].
  rewrite Hi. reflexivity.
Qed.

Lemma targets_perm (rs rs' : list (ApiResponse R)) :
  Permutation rs rs' -> Permutation (targets rs) (targets rs').
Proof.
  unfold targets. induction 1 as [|r rs rs' _ IH|r r' rs|? ? ? _ IH1 _ IH2];
    cbn [flat_map].
  - constructor.
  - apply Permutation_app_head, IH.
  - rewrite !app_assoc. apply Permutation_app_tail, Permutation_app_comm.
  - eapply Permutation_trans; eassumption.
Qed.

Lemma ordinary_perm (rs rs' : list (ApiResponse R)) :
  Permutation rs rs' -> ordinary rs = true -> ordinary rs' = true.
Proof.
  unfold ordinary. rewrite !forallb_forall. intros P Hr r Hin.
  apply Hr. eapply Permutation_in; [apply Permutation_sym, P | exact Hin].
Qed.

(** A pass does not depend on the order of its entries when no two of them
    are added to the same canonical label. *)
Lemma accumulate_perm (w : R) (rs rs' : list (ApiResponse R)) :
  Permutation rs rs' ->
  ordinary rs = true -> NoDup (targets rs) ->
  forall t, accumulate w rs t = accumulate w rs' t.
Proof.
  induction 1 as [|r rs rs' P IH|r r' rs|rs rs' rs'' P1 IH1 P2 IH2];
    intros Ho Hn t.
  - reflexivity.
  - rewrite !accumulate_cons. apply IH.
    + cbn [ordinary forallb] in Ho. apply andb_true_iff in Ho as [_ Ho].
      exact Ho.
    + unfold targets in Hn. cbn [flat_map] in Hn.
      apply NoDup_app_remove_l in Hn. exact Hn.
  - rewrite !accumulate_cons. f_equal.
    cbn [ordinary forallb] in Ho.
    apply andb_true_iff in Ho as [Hr' Ho].
    apply andb_true_iff in Ho as [Hr _].
    apply negb_true_iff in Hr, Hr'.
    rewrite !step_ordinary by assumption.
    unfold targets in Hn. cbn [flat_map] in Hn.
    destruct (lookup labelMap (label r)) as [l|];
      destruct (lookup labelMap (label r')) as [l'|]; try reflexivity.
    cbn [numbers notANumber]. f_equal.
    apply addTo_swap. intros ->.
    cbn [app] in Hn. inversion Hn as [|? ? Hin _]; subst.
    apply Hin. left. reflexivity.
  - rewrite IH1 by assumption. apply IH2.
    + eapply ordinary_perm; eassumption.
    + eapply Permutation_NoDup; [apply targets_perm, P1 | exact Hn].
Qed.

(** X6: the fused result does not depend on the order in which a classifier
    lists its entries, when the classifier names each sentiment at most once
    and no label names a member of [Object.prototype].  This holds in every
    arithmetic, binary64 included, because each score of the table then gets
    at most one addend from each classifier.  When a classifier names a
    sentiment twice, as the ratings in stars do, the order of its entries
    does matter in binary64: the sums are rounded differently and the ranking
    can change. *)
Theorem combineEnsembleResults_order_independent :
  (forall primary primary' secondary secondary' : list (ApiResponse R),
     Permutation primary primary' ->
     Permutation secondary secondary' ->
     ordinary primary = true -> ordinary secondary = true ->
     NoDup (targets primary) -> NoDup (targets secondary) ->
     combineEnsembleResults primary secondary
     = combineEnsembleResults primary' secondary')
  /\ (let primary :=
        [ {| label := "positive"; score := 0.9%float |};
          {| label := "neutral"; score := 0.05%float |};
          {| label := "negative"; score := 0.05%float |} ] in
      map label (numbered (combineEnsembleResults primary starRatings))
      = ["LABEL_2"; "LABEL_1"; "LABEL_0"]%string
      /\ map label
           (numbered (combineEnsembleResults primary (rev starRatings)))
         = ["LABEL_2"; "LABEL_0"; "LABEL_1"]%string).
Proof.
  split.
  - intros primary primary' secondary secondary' Pp Ps Op Os Np Ns.
    unfold combineEnsembleResults. cbv zeta.
    rewrite (accumulate_perm _ _ _ Pp Op Np).
    rewrite (accumulate_perm _ _ _ Ps Os Ns).
    reflexivity.
  - cbv zeta. split; vm_compute; reflexivity.
Qed.
End FusionOrder.

Section FusionMore.
Local Open Scope Q_scope.

Lemma weighted_total (q : Q) (rs : list (ApiResponse Q)) :
  weighted "LABEL_0" q rs + weighted "LABEL_1" q rs + weighted "LABEL_2" q rs
  == mappedSum rs * q.
Proof.
  induction rs as [|r rs IH]; cbn [weighted mappedSum]; [lra|].
  destruct (lookup labelMap (label r)) as [l|] eqn:E; [|exact IH].
  destruct (lookup_canonical (label r) l E)
    as [[<-|[<-|[<-|[]]]] _]; cbn; lra.
Qed.

(** X7: in exact arithmetic the three fused scores add up to 0.7 times the
    primary scores plus 0.3 times the secondary scores of the entries with a
    label of the table; so they sum to 1 when each classifier's known
    entries do, and to less when a classifier sends labels outside the
    table. *)
Theorem combineEnsembleResults_sum (primary secondary : list (ApiResponse Q)) :
  sumScores (numbered (combineEnsembleResults primary secondary))
  == 0.7 * mappedSum primary + 0.3 * mappedSum secondary
  /\ (mappedSum primary == 1 -> mappedSum secondary == 1 ->
      sumScores (numbered (combineEnsembleResults primary secondary)) == 1).
Proof.
  assert (E : sumScores (numbered (combineEnsembleResults primary secondary))
              == 0.7 * mappedSum primary + 0.3 * mappedSum secondary).
  { destruct (fusion_cases primary secondary)
      as (a & b & c & Ea & Eb & Ec & E).
    assert (S3 : a + (b + (c + 0))
                 == 0.7 * mappedSum primary + 0.3 * mappedSum secondary).
    { rewrite Ea, Eb, Ec. unfold fused.
      pose proof (weighted_total 0.7 primary).
      pose proof (weighted_total 0.3 secondary). lra. }
    destruct (ordinary primary && ordinary secondary).
    - rewrite E. cbn [numbered].
      rewrite <- (sumScores_perm _ _ (sort_perm byScoreDescending _)).
      exact S3.
    - destruct E as (members & _ & ->). exact S3. }
  split; [exact E|].
  intros Hp Hs. rewrite E, Hp, Hs. reflexivity.
Qed.
End FusionMore.

Lemma combineEnsembleResults_sum_witness :
  (sumScores
     (numbered
        (combineEnsembleResults
           [ {| label := "positive"; score := 0.9%Q |};
             {| label := "neutral"; score := 0.05%Q |};
             {| label := "negative"; score := 0.05%Q |} ]
           (starRatings (R:=Q)))) == 1)%Q.
Proof.
  apply (proj2 (combineEnsembleResults_sum _ _)); vm_compute; reflexivity.
Defined.

Lemma combineEnsembleResults_order_independent_witness :
  combineEnsembleResults
    [ {| label := "positive"; score := 0.9%float |};
      {| label := "negative"; score := 0.1%float |} ]
    [ {| label := "5 stars"; score := 0.7%float |};
      {| label := "3 stars"; score := 0.2%float |};
      {| label := "1 star"; score := 0.1%float |} ]
  = combineEnsembleResults
      [ {| label := "negative"; score := 0.1%float |};
        {| label := "positive"; score := 0.9%float |} ]
      [ {| label := "1 star"; score := 0.1%float |};
        {| label := "3 stars"; score := 0.2%float |};
        {| label := "5 stars"; score := 0.7%float |} ].
Proof.
  apply (proj1 combineEnsembleResults_order_independent).
  - apply perm_swap.
  - apply (Permutation_rev
             [ {| label := "5 stars"; score := 0.7%float |};
               {| label := "3 stars"; score := 0.2%float |};
               {| label := "1 star"; score := 0.1%float |} ]).
  - reflexivity.
  - reflexivity.
  - repeat constructor; cbn; intuition discriminate.
  - repeat constructor; cbn; intuition discriminate.
Defined.

(** ** The requests and the pauses *)

Section Trace.
Context {R : Type} `{Number R}.
Variable network : list Event -> string -> jsstring -> Reply R.
Variable this : Service.

Lemma analyzeSentiment_log (text : jsstring) (log : list Event) :
  snd (analyzeSentiment network this text log) = log ++ requests this text.
Proof.
  unfold analyzeSentiment, requests.
  destruct (noToken this); [cbn; rewrite app_nil_r; reflexivity|].
  unfold bind, callSentimentAPI.
  destruct (useEnsemble this).
  - repeat match goal with
           | |- context [if ?b then _ else _] => destruct b
           | |- context [match normalizeSecondaryModelResults ?l with
                         | _ => _ end] =>
               destruct (normalizeSecondaryModelResults l)
           end; cbn [snd ret]; rewrite <- app_assoc; reflexivity.
  - destruct (0 <? _); reflexivity.
Qed.

(** X8: one analysis sends the normalised text, never the raw one, and
    never to the tertiary endpoint: nothing without a credential; otherwise
    in ensemble mode one request to the primary and then one to the
    secondary endpoint, whatever the primary answered; in single-model mode
    one request to the primary endpoint. *)
Theorem analyzeSentiment_requests (text : jsstring) (log : list Event) :
  snd (analyzeSentiment network this text log)
  = log ++ (if noToken this then []
            else if useEnsemble this then
              [ Post (primary SENTIMENT_MODELS) (preprocessText text);
                Post (secondary SENTIMENT_MODELS) (preprocessText text) ]
            else [ Post (primary SENTIMENT_MODELS) (preprocessText text) ]).
Proof.
  unfold analyzeSentiment.
  destruct (noToken this); [cbn; rewrite app_nil_r; reflexivity|].
  unfold bind, callSentimentAPI.
  destruct (useEnsemble this).
  - repeat match goal with
           | |- context [if ?b then _ else _] => destruct b
           | |- context [match normalizeSecondaryModelResults ?l with
                         | _ => _ end] =>
               destruct (normalizeSecondaryModelResults l)
           end; cbn [snd ret]; rewrite <- app_assoc; reflexivity.
  - destruct (0 <? _); reflexivity.
Qed.

Lemma mapM_log (batch : list jsstring) (log : list Event) :
  snd (mapM (analyzeSentiment network this) batch log)
  = log ++ concat (map (requests this) batch).
Proof.
  revert log. induction batch as [|text batch IH]; intros log; cbn [mapM].
  - cbn. rewrite app_nil_r. reflexivity.
  - unfold bind, ret.
    pose proof (analyzeSentiment_log text log) as E.
    destruct (analyzeSentiment network this text log) as [b log1].
    cbn [snd] in E. subst log1.
    specialize (IH (log ++ requests this text)).
    destruct (mapM _ batch _) as [bs log2]. cbn [snd] in IH |- *.
    rewrite IH. cbn [map concat]. rewrite app_assoc. reflexivity.
Qed.

Lemma requests_posts (text : jsstring) :
  filter isPost (requests this text) = requests this text
  /\ filter isSleep (requests this text) = [].
Proof.
  unfold requests. destruct (noToken this), (useEnsemble this); split;
    reflexivity.
Qed.

Lemma concat_requests_posts (batch : list jsstring) :
  filter isPost (concat (map (requests this) batch))
  = concat (map (requests this) batch)
  /\ filter isSleep (concat (map (requests this) batch)) = [].
Proof.
  induction batch as [|text batch [IH1 IH2]]; cbn [map concat];
    [split; reflexivity|].
  rewrite !filter_app, IH1, IH2.
  destruct (requests_posts text) as [-> ->]. split; reflexivity.
Qed.

Lemma pauses_step (n i : nat) :
  i + batchSize < n -> (n - i - 1) / 3 = S ((n - (i + batchSize) - 1) / 3).
Proof.
  unfold batchSize. intros Hi.
  replace (n - i - 1) with ((n - (i + 3) - 1) + 1 * 3) by lia.
  rewrite Nat.div_add by discriminate. lia.
Qed.

Lemma pauses_last (n i : nat) :
  i < n -> n <= i + batchSize -> (n - i - 1) / 3 = 0.
Proof.
  unfold batchSize. intros Hi Hn. apply Nat.div_small. lia.
Qed.

Lemma skipn_step {A} (l : list A) (i : nat) :
  skipn i l = slice l i (i + batchSize) ++ skipn (i + batchSize) l.
Proof.
  unfold slice. replace (i + batchSize - i) with batchSize by lia.
  rewrite <- (firstn_skipn batchSize (skipn i l)) at 1.
  rewrite skipn_skipn, (Nat.add_comm batchSize i). reflexivity.
Qed.

Lemma analyzeBatchLoop_log (texts : list jsstring) :
  forall fuel i results log,
    length texts <= i + batchSize * fuel ->
    exists events,
      snd (analyzeBatchLoop network this texts fuel i results log)
      = log ++ events
      /\ filter isPost events
         = concat (map (requests this) (skipn i texts))
      /\ filter isSleep events
         = repeat (Sleep 2000) ((length texts - i - 1) / 3).
Proof.
  assert (Done : forall i log, length texts <= i ->
            exists events,
              log = log ++ events
              /\ filter isPost events
                 = concat (map (requests this) (skipn i texts))
              /\ filter isSleep events
                 = repeat (Sleep 2000) ((length texts - i - 1) / 3)).
  { intros i log Hi. exists []. rewrite app_nil_r, skipn_all2 by exact Hi.
    replace (length texts - i - 1) with 0 by lia.
    repeat split; reflexivity. }
  induction fuel as [|fuel IH]; intros i results log Hn;
    cbn [analyzeBatchLoop].
  - apply Done. lia.
  - destruct (Nat.ltb_spec i (length texts)) as [Hi|Hi];
      [|apply Done; exact Hi].
    unfold bind at 1.
    pose proof (mapM_log (slice texts i (i + batchSize)) log) as Eb.
    destruct (mapM _ _ log) as [batchResults log1].
    cbn [snd] in Eb. subst log1. unfold bind.
    destruct (concat_requests_posts (slice texts i (i + batchSize)))
      as [Pp Ps].
    destruct (Nat.ltb_spec (i + batchSize) (length texts)) as [Hm|Hm].
    + unfold emit.
      destruct (IH (i + batchSize) (results ++ batchResults)
                  ((log ++ concat (map (requests this)
                                     (slice texts i (i + batchSize))))
                   ++ [Sleep 2000]))
        as (events & E & Hp & Hs); [unfold batchSize in *; lia|].
      eexists. split; [rewrite E, <- !app_assoc; reflexivity|].
      rewrite !filter_app, Pp, Ps, Hp, Hs. cbn [filter isPost isSleep].
      split.
      * rewrite (skipn_step texts i), map_app, concat_app. reflexivity.
      * rewrite (pauses_step (length texts) i Hm). reflexivity.
    + unfold ret.
      destruct (IH (i + batchSize) (results ++ batchResults)
                  (log ++ concat (map (requests this)
                                    (slice texts i (i + batchSize)))))
        as (events & E & Hp & Hs); [unfold batchSize in *; lia|].
      eexists. split; [rewrite E, <- !app_assoc; reflexivity|].
      rewrite !filter_app, Pp, Ps, Hp, Hs.
      split.
      * rewrite (skipn_step texts i), map_app, concat_app. reflexivity.
      * rewrite (pauses_last (length texts) i Hi Hm).
        replace (length texts - (i + batchSize) - 1) with 0 by lia.
        reflexivity.
Qed.

End Trace.


(** * The dashboard *)

Module AppFacts.
Import App.

(** The table of the dashboard reads the prototype chain as well. *)
Lemma shows_label (label : string) :
  Shows label
    (match get labelMap label with
     | Some s => s
     | None => Str "neutral"
     end).
Proof.
  unfold Shows, get, labelMap, sentiments. cbn [lookup].
  lookup_cases label; subst.
  - cbn. split; [|split; [|split]]; try (split; intros E);
      try discriminate; try reflexivity;
      try (exfalso; intuition discriminate); try (left; tauto).
  - cbn. split; [|split; [|split]]; try (split; intros E);
      try discriminate; try reflexivity;
      try (exfalso; intuition discriminate); try (left; tauto).
  - cbn. split; [|split; [|split]]; try (split; intros E);
      try discriminate; try reflexivity;
      try (exfalso; intuition discriminate); try (left; tauto).
  - destruct (inherited label) eqn:Ei.
    + apply inherited_In in Ei.
      split; [|split; [|split]]; try (split; intros E);
        try discriminate; try reflexivity; try congruence; try assumption.
      right. reflexivity.
    + assert (Hn : ~ In label objectPrototype)
        by (intros Hin; apply inherited_In in Hin; congruence).
      split; [|split; [|split]]; try (split; intros E);
        try discriminate; try reflexivity; try congruence;
        try contradiction.
      left. cbn. tauto.
Qed.

Lemma count_named {R} (batchResultsData : list (SentimentResult R)) :
  Forall (fun r => In (sentiment r) sentiments \/ named (sentiment r) = false)
    batchResultsData ->
  count "positive" batchResultsData + count "negative" batchResultsData
  + count "neutral" batchResultsData
  = length (filter (fun r => named (sentiment r)) batchResultsData).
Proof.
  unfold count. induction 1 as [|r l Hr _ IH]; [reflexivity|].
  cbn [filter].
  destruct Hr as [[<-|[<-|[<-|[]]]]|Hr].
  - cbn. cbn in IH. lia.
  - cbn. cbn in IH. lia.
  - cbn. cbn in IH. lia.
  - rewrite Hr. destruct (sentiment r); [discriminate|].
    cbn [isSentiment]. exact IH.
Qed.

Section HandlerFacts.
Context {R : Type} `{Number R}.
Variable network : list Event -> string -> jsstring -> Reply R.
Variable sentimentService : Service.

Lemma processSentimentResponse_some (clock : Clock)
  (topResult : ApiResponse R) (rest : list (ApiResponse R))
  (text : jsstring) :
  exists result,
    processSentimentResponse clock (Some (Results (topResult :: rest))) text
    = Returned result
    /\ Stands text (Results (topResult :: rest)) result
    /\ keywords result = extractKeywords text (toKey (sentiment result)).
Proof.
  unfold processSentimentResponse. eexists. split; [reflexivity|].
  split; [|reflexivity].
  exists topResult, rest. cbn [App.text confidence sentiment].
  repeat split; try apply shows_label.
Qed.

(** X10: [handleSingleAnalysis] issues the requests of one analysis and
    nothing else.  When the analysis is a list, it ends with the loading flag
    off and touches no batch summary: an empty list leaves the results as
    they are and sets the error message; otherwise the error is cleared and
    exactly one result is put in front, for the analysed text, with the score
    of the first entry as confidence and the keywords of its sentiment.  The
    sentiment is positive for LABEL_2, negative for LABEL_0 and neutral for
    every other label, except that a label naming a member of
    [Object.prototype] stores that member, not a string.  When the analysis
    holds scores that are NaN the state after is not determined. *)
Theorem handleSingleAnalysis_outcome (clock : Clock) (text : jsstring)
  (state : AppState R) (log : list Event) :
  let apiResponse := fst (analyzeSentiment network sentimentService text log) in
  let outcome :=
    handleSingleAnalysis network sentimentService clock text state log in
  snd outcome = snd (analyzeSentiment network sentimentService text log)
  /\ if isNotANumber apiResponse then fst outcome = None
     else
       exists state',
         fst outcome = Some state'
         /\ isLoading state' = false
         /\ batchResults state' = batchResults state
         /\ if isEmpty apiResponse
            then results state' = results state
                 /\ error state'
                    = Some "Failed to analyze sentiment. Please try again."%string
            else error state' = None
                 /\ exists result,
                      results state' = result :: results state
                      /\ Stands text apiResponse result
                      /\ keywords result
                         = extractKeywords text (toKey (sentiment result)).
Proof.
  cbv zeta. unfold handleSingleAnalysis, bind, ret.
  destruct (analyzeSentiment network sentimentService text log)
    as [apiResponse log'].
  cbn [fst snd]. split; [reflexivity|].
  destruct apiResponse as [[|topResult rest]|numbers members].
  - cbn. eexists. repeat split; reflexivity.
  - destruct (processSentimentResponse_some clock topResult rest text)
      as (result & -> & Hs & Hk).
    cbn. eexists. split; [reflexivity|]. repeat split.
    exists result. split; [reflexivity|]. split; assumption.
  - reflexivity.
Qed.

(** *** Batches *)

Lemma skipn_cons {A} (i : nat) (all : list A) (r : A) (rs : list A) :
  skipn i all = r :: rs -> nth_error all i = Some r /\ skipn (S i) all = rs.
Proof.
  revert all. induction i as [|i IH]; intros [|a all] E;
    cbn [skipn] in E; try discriminate.
  - injection E as -> ->. split; reflexivity.
  - apply IH, E.
Qed.

(** The whole of a batch: raised when one analysis is empty; otherwise not
    determined when one holds NaN; otherwise one result for each text. *)
Lemma collect_processed (clock : nat -> Clock) (all : list (Analysis R)) :
  forall (texts : list jsstring) (rs : list (Analysis R)) (i : nat),
    skipn i all = rs -> length rs = length texts ->
    let outcome :=
      collect
        (mapFrom
           (fun text index =>
              processSentimentResponse (clock index) (nth_error all index)
                text)
           i texts) in
    if existsb isEmpty rs then outcome = Thrown
    else if existsb isNotANumber rs then outcome = Unspecified
    else exists batchResultsData,
           outcome = Returned batchResultsData
           /\ Forall2 (fun ta r => Stands (fst ta) (snd ta) r)
                (combine texts rs) batchResultsData.
Proof.
  induction texts as [|t texts IH]; intros rs i Hs Hl; cbv zeta.
  - destruct rs; [|discriminate]. cbn. exists []. split; constructor.
  - destruct rs as [|r rs]; [discriminate|].
    injection Hl as Hl. apply skipn_cons in Hs as [Hn Hs].
    specialize (IH rs (S i) Hs Hl). cbv zeta in IH.
    cbn [mapFrom collect existsb combine]. rewrite Hn.
    destruct r as [[|topResult rest]|numbers members].
    + reflexivity.
    + destruct (processSentimentResponse_some (clock i) topResult rest t)
        as (result & -> & Ht & _).
      cbn [isEmpty isNotANumber orb].
      destruct (existsb isEmpty rs); [rewrite IH; reflexivity|].
      destruct (existsb isNotANumber rs); [rewrite IH; reflexivity|].
      destruct IH as (data & -> & Hf).
      exists (result :: data). split; [reflexivity|].
      constructor; assumption.
    + cbn [processSentimentResponse isEmpty isNotANumber orb].
      destruct (existsb isEmpty rs); [rewrite IH; reflexivity|].
      destruct (existsb isNotANumber rs); [rewrite IH; reflexivity|].
      destruct IH as (data & -> & _). reflexivity.
Qed.

Lemma stands_texts (texts : list jsstring) (rs : list (Analysis R))
  (batchResultsData : list (SentimentResult R)) :
  length rs = length texts ->
  Forall2 (fun ta r => Stands (fst ta) (snd ta) r) (combine texts rs)
    batchResultsData ->
  map App.text batchResultsData = texts
  /\ Forall (fun r => In (sentiment r) sentiments
                      \/ named (sentiment r) = false)
       batchResultsData.
Proof.
  revert rs batchResultsData.
  induction texts as [|t texts IH]; intros [|a rs] data Hl Hf;
    try discriminate; cbn [combine] in Hf.
  - inversion Hf. split; [reflexivity | constructor].
  - inversion Hf as [|? r ? data' Hs Hf']; subst.
    injection Hl as Hl. destruct (IH rs data' Hl Hf') as [Hm Hn].
    destruct Hs as (topResult & rest & _ & Ht & _ & _ & _ & _ & Hin).
    cbn [fst] in Ht. split.
    + cbn [map]. rewrite Ht, Hm. reflexivity.
    + constructor; [|exact Hn].
      destruct Hin as [Hin| ->]; [left; exact Hin | right; reflexivity].
Qed.

Lemma analyzeBatch_length (texts : list jsstring) (log : list Event) :
  length (fst (analyzeBatch network sentimentService texts log))
  = length texts.
Proof.
  symmetry. eapply Forall2_length.
  apply (analyzeBatch_Forall2 network sentimentService (fun _ _ => True)).
  auto.
Qed.

(** X11: [handleBatchAnalysis] is all or nothing.  When one analysis of the
    batch is empty, nothing is added, the error message is set and the
    loading flag is off.  Otherwise, when every analysis is a list, the error
    is cleared, the results of the texts are put in front of the list in the
    order of the input, each standing for its text and its analysis, and one
    summary is added whose total is the number of texts; its positive,
    negative and neutral counts add up to the number of results whose
    sentiment is a string, which is less than the total when a first label
    names a member of [Object.prototype].  When no analysis is empty and one
    holds scores that are NaN the state after is not determined. *)
Theorem handleBatchAnalysis_outcome (clock : nat -> Clock)
  (batchClock : Clock) (texts : list jsstring) (state : AppState R)
  (log : list Event) :
  let apiResponses :=
    fst (analyzeBatch network sentimentService texts log) in
  let outcome :=
    fst (handleBatchAnalysis network sentimentService clock batchClock texts
           state log) in
  if existsb isEmpty apiResponses then
    exists state',
      outcome = Some state'
      /\ isLoading state' = false
      /\ results state' = results state
      /\ batchResults state' = batchResults state
      /\ error state'
         = Some "Failed to analyze batch. Please try again."%string
  else if existsb isNotANumber apiResponses then outcome = None
  else
    exists state' batchResultsData batchSummary,
      outcome = Some state'
      /\ isLoading state' = false
      /\ error state' = None
      /\ results state' = batchResultsData ++ results state
      /\ batchResults state' = batchSummary :: batchResults state
      /\ batch_results batchSummary = batchResultsData
      /\ map App.text batchResultsData = texts
      /\ Forall2 (fun ta r => Stands (fst ta) (snd ta) r)
           (combine texts apiResponses) batchResultsData
      /\ total (batch_summary batchSummary) = length texts
      /\ positive (batch_summary batchSummary)
         + negative (batch_summary batchSummary)
         + neutral (batch_summary batchSummary)
         = length (filter (fun r => named (sentiment r)) batchResultsData).
Proof.
  cbv zeta. unfold handleBatchAnalysis, bind, ret.
  pose proof (analyzeBatch_length texts log) as Hl.
  destruct (analyzeBatch network sentimentService texts log)
    as [apiResponses log'].
  cbn [fst] in *.
  pose proof (collect_processed clock apiResponses texts apiResponses 0
                eq_refl Hl) as Hc.
  cbv zeta in Hc.
  destruct (existsb isEmpty apiResponses).
  - rewrite Hc. cbn. eexists. repeat split; reflexivity.
  - destruct (existsb isNotANumber apiResponses).
    + rewrite Hc. reflexivity.
    + destruct Hc as (data & -> & Hf).
      destruct (stands_texts texts apiResponses data Hl Hf) as [Hm Hn].
      cbn. eexists _, data, _. split; [reflexivity|].
      repeat (split; [reflexivity|]).
      split; [exact Hm|]. split; [exact Hf|].
      cbn [batch_results batch_summary summarize total positive negative
             neutral].
      split.
      * rewrite <- Hm, length_map. reflexivity.
      * apply count_named, Hn.
Qed.

(** X12: without a credential a batch never fails: whatever the texts, the
    error is cleared, one result per text is put in front of the list in the
    order of the input and one summary is added; no request is issued. *)
Theorem handleBatchAnalysis_demo (clock : nat -> Clock) (batchClock : Clock)
  (texts : list jsstring) (state : AppState R) (log : list Event) :
  noToken sentimentService = true ->
  let outcome :=
    handleBatchAnalysis network sentimentService clock batchClock texts
      state log in
  exists state',
    fst outcome = Some state'
    /\ error state' = None
    /\ isLoading state' = false
    /\ filter isPost (snd outcome) = filter isPost log
    /\ exists batchResultsData batchSummary,
         results state' = batchResultsData ++ results state
         /\ map App.text batchResultsData = texts
         /\ batchResults state' = batchSummary :: batchResults state
         /\ total (batch_summary batchSummary) = length texts.
Proof.
  intros Hno. cbv zeta.
  assert (Hall : Forall (fun r => exists l, r = Results l /\ l <> [])
                   (fst (analyzeBatch network sentimentService texts log))).
  { pose proof (analyzeBatch_Forall2 network sentimentService
                  (fun _ r => exists l, r = Results l /\ l <> [])
                  texts log) as HF.
    assert (HP : forall text log0,
               exists l,
                 fst (analyzeSentiment network sentimentService text log0)
                 = Results l /\ l <> []).
    { intros text log0.
      rewrite analyzeSentiment_noToken by exact Hno. cbn [fst].
      eexists. split; [reflexivity|]. intros E.
      pose proof (getEnhancedMockSentiment_length (R:=R)
                    (preprocessText text) text) as L.
      unfold localEstimate in E. rewrite E in L. discriminate. }
    specialize (HF HP). clear HP.
    induction HF; constructor; assumption. }
  assert (Hlog : filter isPost
                   (snd (analyzeBatch network sentimentService texts log))
                 = filter isPost log).
  { destruct (analyzeBatchLoop_log network sentimentService texts
                (length texts) 0 [] log) as (events & E & Hp & _);
      [unfold batchSize; lia|].
    fold (analyzeBatch network sentimentService texts log) in E.
    rewrite E, filter_app, Hp. cbn [skipn].
    assert (Hnil : concat (map (requests sentimentService) texts) = []).
    { clear - Hno. induction texts as [|t ts IH]; [reflexivity|].
      cbn [map concat]. unfold requests at 1. rewrite Hno. exact IH. }
    rewrite Hnil. apply app_nil_r. }
  pose proof (analyzeBatch_length texts log) as Hl.
  unfold handleBatchAnalysis, bind, ret.
  destruct (analyzeBatch network sentimentService texts log)
    as [apiResponses log'].
  cbn [fst snd] in *.
  pose proof (collect_processed clock apiResponses texts apiResponses 0
                eq_refl Hl) as Hc.
  cbv zeta in Hc.
  assert (He : existsb isEmpty apiResponses = false
               /\ existsb isNotANumber apiResponses = false).
  { clear - Hall. induction Hall as [|a l (r & -> & Hr) _ [IH1 IH2]];
      [split; reflexivity|].
    cbn [existsb isEmpty isNotANumber]. rewrite IH1, IH2.
    destruct r; [contradiction | split; reflexivity]. }
  destruct He as [He1 He2]. rewrite He1, He2 in Hc.
  destruct Hc as (data & -> & Hf).
  destruct (stands_texts texts apiResponses data Hl Hf) as [Hm _].
  cbn. eexists. split; [reflexivity|].
  split; [reflexivity|]. split; [reflexivity|]. split; [exact Hlog|].
  eexists data, _. split; [reflexivity|]. split; [exact Hm|].
  split; [reflexivity|]. cbn. rewrite <- Hm, length_map. reflexivity.
Qed.

(** X13: without a credential a single analysis never fails and issues no
    request, in every arithmetic: the error is cleared and exactly one result
    is put in front, for the analysed text; its confidence is the score of
    the first entry of the local estimate, whose label is canonical, and its
    sentiment is the word for that label, never anything else. *)
Theorem handleSingleAnalysis_demo (clock : Clock) (text : jsstring)
  (state : AppState R) (log : list Event) :
  noToken sentimentService = true ->
  let outcome :=
    handleSingleAnalysis network sentimentService clock text state log in
  snd outcome = log
  /\ exists state' result topResult rest,
       fst outcome = Some state'
       /\ localEstimate text = topResult :: rest
       /\ error state' = None
       /\ isLoading state' = false
       /\ batchResults state' = batchResults state
       /\ results state' = result :: results state
       /\ App.text result = text
       /\ confidence result = score topResult
       /\ In (label topResult, sentiment result)
            [ ("LABEL_2"%string, Str "positive");
              ("LABEL_0"%string, Str "negative");
              ("LABEL_1"%string, Str "neutral") ]
       /\ keywords result = extractKeywords text (toKey (sentiment result)).
Proof.
  intros Hno. cbv zeta.
  unfold handleSingleAnalysis, bind, ret.
  rewrite (analyzeSentiment_noToken network sentimentService text log Hno).
  split; [reflexivity|].
  pose proof (localEstimate_labels (R:=R) text) as Hp.
  destruct (localEstimate text) as [|topResult rest] eqn:E.
  { apply Permutation_nil in Hp. discriminate Hp. }
  assert (Hc : In (label topResult) canonicalLabels).
  { eapply Permutation_in; [exact Hp|]. left. reflexivity. }
  destruct (processSentimentResponse_some clock topResult rest text)
    as (result & -> & Hs & Hk).
  cbn [option_map fst].
  eexists _, result, topResult, rest.
  split; [reflexivity|]. split; [reflexivity|].
  repeat (split; [reflexivity|]).
  destruct Hs as (top' & rest' & [= <- <-] & Ht & Hcf & Hp2 & Hn & Hm & Hin).
  split; [exact Ht|]. split; [exact Hcf|]. split; [|exact Hk].
  destruct Hc as [E0|[E0|[E0|[]]]]; symmetry in E0.
  - right. left. rewrite E0. f_equal. symmetry. apply Hn, E0.
  - right. right. left. rewrite E0. f_equal.
    destruct Hin as [[E'|[E'|[E'|[]]]]|E'].
    + symmetry in E'. apply Hp2 in E'. congruence.
    + symmetry in E'. apply Hn in E'. congruence.
    + exact E'.
    + apply Hm in E'. rewrite E0 in E'. cbn in E'. exfalso.
      intuition discriminate.
  - left. rewrite E0. f_equal. symmetry. apply Hp2, E0.
Qed.
End HandlerFacts.

Lemma handleSingleAnalysis_demo_witness :
  exists state' result,
    fst (handleSingleAnalysis (R:=float) offline getInstance demoClock
           (js "I love this, it is great") initial [])
    = Some state'
    /\ results state' = [result]
    /\ sentiment result = Str "positive".
Proof.
  destruct (handleSingleAnalysis_demo (R:=float) offline getInstance demoClock
              (js "I love this, it is great") initial [] eq_refl)
    as (_ & state' & result & topResult & rest & E & El & _ & _ & _ & Er
        & _ & _ & Hin & _).
  exists state', result. split; [exact E|]. split; [exact Er|].
  assert (Et : label topResult = "LABEL_2"%string).
  { vm_compute in El. injection El as <- _. reflexivity. }
  rewrite Et in Hin.
  destruct Hin as [[= <-]|[[=]|[[=]|[]]]]. reflexivity.
Defined.

Lemma handleBatchAnalysis_demo_witness :
  exists state',
    fst (handleBatchAnalysis (R:=Q) offline getInstance
           (fun _ => demoClock) demoClock
           [js "good"; js "bad"; js "okay then"; js "awful awful"]
           initial [])
    = Some state'
    /\ error state' = None.
Proof.
  destruct (handleBatchAnalysis_demo (R:=Q) offline getInstance
              (fun _ => demoClock) demoClock
              [js "good"; js "bad"; js "okay then"; js "awful awful"]
              initial [] eq_refl) as (state' & E & He & _).
  exists state'. split; assumption.
Defined.

(** With a first label that names a member of [Object.prototype] the
    summary counts no sentiment at all for the text. *)
Lemma handleBatchAnalysis_outcome_witness :
  exists state' batchSummary,
    fst (handleBatchAnalysis (R:=Q) memberOnly withToken
           (fun _ => demoClock) demoClock [js "good"] initial [])
    = Some state'
    /\ batchResults state' = [batchSummary]
    /\ total (batch_summary batchSummary) = 1
    /\ positive (batch_summary batchSummary)
       + negative (batch_summary batchSummary)
       + neutral (batch_summary batchSummary)
       = 0.
Proof.
  pose proof (handleBatchAnalysis_outcome (R:=Q) memberOnly withToken
                (fun _ => demoClock) demoClock [js "good"] initial [])
    as Ho.
  cbv zeta in Ho.
  change (existsb isEmpty
            (fst (analyzeBatch (R:=Q) memberOnly withToken [js "good"] [])))
    with false in Ho.
  change (existsb isNotANumber
            (fst (analyzeBatch (R:=Q) memberOnly withToken [js "good"] [])))
    with false in Ho.
  cbv iota in Ho.
  destruct Ho as (state' & data & batchSummary & E & _ & _ & Er & Eb & Ed
                  & _ & Hf & Ht & Hc).
  exists state', batchSummary. split; [exact E|]. split; [exact Eb|].
  split; [exact Ht|]. rewrite Hc, <- Ed.
  vm_compute in E. injection E as <-. cbn in Eb. injection Eb as <-.
  reflexivity.
Defined.
End AppFacts.

(** * The input form *)

Module TextInputFacts.
Import TextInput.

Lemma dropWhile_head (p : N -> bool) (s : jsstring) :
  match dropWhile p s with c :: _ => p c = false | [] => True end.
Proof.
  induction s as [|c s IH]; cbn [dropWhile]; [exact I|].
  destruct (p c) eqn:E; [exact IH | exact E].
Qed.

Lemma dropWhile_fixed (p : N -> bool) (s : jsstring) :
  match s with c :: _ => p c = false | [] => True end -> dropWhile p s = s.
Proof.
  destruct s as [|c s]; [reflexivity|]. cbn [dropWhile]. intros ->.
  reflexivity.
Qed.

Lemma dropWhile_suffix (p : N -> bool) (s : jsstring) :
  exists pre, s = pre ++ dropWhile p s.
Proof.
  induction s as [|c s [pre IH]]; cbn [dropWhile]; [exists []; reflexivity|].
  destruct (p c).
  - exists (c :: pre). cbn [app]. rewrite <- IH. reflexivity.
  - exists []. reflexivity.
Qed.

Lemma trim_idempotent (s : jsstring) : trim (trim s) = trim s.
Proof.
  unfold trim.
  set (u := dropWhile isSpace s).
  set (r := dropWhile isSpace (rev u)).
  assert (Hr : dropWhile isSpace r = r)
    by (apply dropWhile_fixed, dropWhile_head).
  assert (Hrev : dropWhile isSpace (rev r) = rev r).
  { apply dropWhile_fixed.
    destruct (dropWhile_suffix isSpace (rev u)) as [pre E]. fold r in E.
    apply (f_equal (@rev N)) in E. rewrite rev_involutive, rev_app_distr in E.
    pose proof (dropWhile_head isSpace s) as Hu. fold u in Hu.
    destruct (rev r) as [|x xs]; [exact I|].
    rewrite E in Hu. exact Hu. }
  rewrite Hrev, rev_involutive, Hr. reflexivity.
Qed.

Lemma truthy_spec (s : jsstring) : truthy s = true <-> s <> [].
Proof. destruct s; cbn; split; congruence. Qed.

Lemma filter_NonBlank (l : list jsstring) :
  Forall NonBlank (filter (fun line => 0 <? length (trim line)) l).
Proof.
  apply Forall_forall. intros x Hx. apply filter_In in Hx as [_ Hx].
  unfold NonBlank. intros E. rewrite E in Hx. discriminate.
Qed.


Lemma filterFrom_Forall {A} (P : A -> Prop) (keep : nat -> bool) (l : list A) :
  forall i, Forall P l -> Forall P (filterFrom keep i l).
Proof.
  induction l as [|x l IH]; intros i Hl; cbn [filterFrom]; [constructor|].
  inversion Hl; subst. destruct (keep i); [constructor|]; auto.
Qed.

Lemma step_invariant (state : State) (e : UIEvent) :
  Forall NonBlank (batchTexts state) ->
  Forall NonBlank (batchTexts (fst (step state e)))
  /\ match snd (step state e) with
     | Some call => WellFormed call
     | None => True
     end.
Proof.
  intros Hinv. destruct e as [value|tab| |file| |index|]; cbn [step fst snd].
  - split; [exact Hinv | exact I].
  - split; [exact Hinv | exact I].
  - unfold handleSingleSubmit.
    destruct (truthy (trim (inputText state))) eqn:E; cbn [fst snd];
      (split; [exact Hinv|]); [|exact I].
    split; [apply truthy_spec, E | apply trim_idempotent].
  - split; [|exact I]. unfold handleFileUpload.
    destruct file as [f|]; [|exact Hinv].
    destruct (String.eqb (type f) "text/plain"); [|exact Hinv].
    cbn [setBatchTexts batchTexts]. apply filter_NonBlank.
  - split; [|exact I]. unfold addBatchText.
    destruct (truthy (trim (inputText state))) eqn:E; [|exact Hinv].
    cbn [setInputText setBatchTexts batchTexts].
    apply Forall_app. split; [exact Hinv|].
    constructor; [|constructor].
    unfold NonBlank. rewrite trim_idempotent. apply truthy_spec, E.
  - split; [|exact I]. cbn [removeBatchText setBatchTexts batchTexts].
    apply filterFrom_Forall, Hinv.
  - unfold handleBatchSubmit.
    destruct (batchTexts state) as [|t ts] eqn:E;
      cbn [length Nat.ltb Nat.leb fst snd];
      (split; [rewrite ?E; exact Hinv|]); [exact I|].
    split; [discriminate | exact Hinv].
Qed.

Lemma run_invariant (events : list UIEvent) :
  forall state,
    Forall NonBlank (batchTexts state) ->
    Forall WellFormed (snd (run state events)).
Proof.
  induction events as [|e events IH]; intros state Hinv; cbn [run].
  - constructor.
  - destruct (step_invariant state e Hinv) as [Hinv' Hcall].
    destruct (step state e) as [state' call]. cbn [fst snd] in *.
    specialize (IH state' Hinv').
    destruct (run state' events) as [state'' calls]. cbn [snd] in *.
    destruct call; [constructor|]; assumption.
Qed.

(** X14: whatever the user does (typing, changing tab, submitting, choosing
    files, adding and removing texts), every text the form hands over for a
    single analysis is trimmed and not empty, and every batch it hands over
    is not empty and holds no blank text. *)
Theorem calls_well_formed (events : list UIEvent) :
  Forall WellFormed (snd (run initial events)).
Proof. apply run_invariant. constructor. Qed.

(** *** Files *)



(** *** Removing a text *)

Lemma filterFrom_remove {A} (l : list A) :
  forall (i index : nat),
    filterFrom (fun j => negb (j =? index)) i l
    = if (i <=? index) && (index <? i + length l)
      then firstn (index - i) l ++ skipn (S (index - i)) l
      else l.
Proof.
  induction l as [|x l IH]; intros i index; cbn [filterFrom].
  - destruct (_ && _); [|reflexivity].
    rewrite firstn_nil, skipn_nil. reflexivity.
  - rewrite IH. cbn [length].
    destruct (Nat.eqb_spec i index) as [->|Hne]; cbn [negb].
    + rewrite Nat.sub_diag. cbn [firstn skipn app].
      destruct (Nat.leb_spec (S index) index); [lia|]. cbn [andb].
      destruct (Nat.leb_spec index index); [|lia].
      destruct (Nat.ltb_spec index (index + S (length l))); [|lia].
      reflexivity.
    + destruct (Nat.leb_spec i index), (Nat.leb_spec (S i) index);
        try lia; cbn [andb].
      * replace (S i + length l) with (i + S (length l)) by lia.
        destruct (Nat.ltb_spec index (i + S (length l))); [|reflexivity].
        replace (index - i) with (S (index - S i)) by lia.
        reflexivity.
      * reflexivity.
Qed.

(** X16: [removeBatchText index] takes out the text at [index] and keeps
    the others in order; an index outside the list changes nothing; and
    removing the text [addBatchText] has just added gives the batch back. *)
Theorem removeBatchText_index (index : nat) (state : State) :
  batchTexts (removeBatchText index state)
  = (if index <? length (batchTexts state)
     then firstn index (batchTexts state)
          ++ skipn (S index) (batchTexts state)
     else batchTexts state)
  /\ inputText (removeBatchText index state) = inputText state
  /\ (NonBlank (inputText state) ->
      batchTexts
        (removeBatchText (length (batchTexts state)) (addBatchText state))
      = batchTexts state).
Proof.
  split; [|split].
  - cbn [removeBatchText setBatchTexts batchTexts].
    rewrite filterFrom_remove. cbn [Nat.leb andb Nat.add].
    rewrite Nat.sub_0_r. reflexivity.
  - reflexivity.
  - intros Hn. unfold addBatchText.
    apply truthy_spec in Hn. rewrite Hn.
    cbn [removeBatchText setInputText setBatchTexts batchTexts].
    rewrite filterFrom_remove. cbn [Nat.leb andb Nat.add].
    rewrite length_app. cbn [length].
    destruct (Nat.ltb_spec (length (batchTexts state))
                (length (batchTexts state) + 1)); [|lia].
    rewrite Nat.sub_0_r, firstn_app, Nat.sub_diag, firstn_all.
    cbn [firstn]. rewrite app_nil_r.
    rewrite skipn_all2 by (rewrite length_app; cbn [length]; lia).
    apply app_nil_r.
Qed.


Lemma removeBatchText_index_witness :
  batchTexts
    (removeBatchText 0 (addBatchText (setInputText (js " fine ") initial)))
  = [].
Proof.
  apply (proj2 (proj2 (removeBatchText_index 0
                         (setInputText (js " fine ") initial)))).
  vm_compute. discriminate.
Defined.
End TextInputFacts.

(** * Blank text *)

Section Blank.

Lemma blank_cons (c : N) (s : jsstring) :
  blank (c :: s) = true <-> isSpace c = true /\ blank s = true.
Proof. unfold blank. cbn [forallb]. apply andb_true_iff. Qed.

Lemma space_not_upper (c : N) : isSpace c = true -> isUpper c = false.
Proof.
  unfold isSpace, isUpper, inRange. intros Hs.
  destruct ((65 <=? c)%N && (c <=? 90)%N) eqn:E; [|reflexivity].
  exfalso. bool_to_N. lia.
Qed.

Lemma toLowerCase_blank (s : jsstring) : blank s = true -> toLowerCase s = s.
Proof.
  induction s as [|c s IH]; intros Hs; [reflexivity|].
  apply blank_cons in Hs as [Hc Hs]. cbn [toLowerCase map].
  unfold lowerUnit. rewrite (space_not_upper c Hc).
  f_equal. apply IH, Hs.
Qed.

Lemma dropWhile_blank (s : jsstring) :
  blank s = true -> dropWhile isSpace s = [].
Proof.
  induction s as [|c s IH]; intros Hs; [reflexivity|].
  apply blank_cons in Hs as [Hc Hs]. cbn [dropWhile]. rewrite Hc.
  apply IH, Hs.
Qed.

Lemma trim_blank (s : jsstring) : blank s = true -> trim s = [].
Proof.
  intros Hs. unfold trim. rewrite (dropWhile_blank s Hs). reflexivity.
Qed.

Lemma wholeWord_blank (word : jsstring) (prev : option N) (s : jsstring) :
  startsNonSpace word = true -> blank s = true ->
  wholeWord word prev s = None.
Proof.
  intros Hw Hs. unfold wholeWord.
  destruct word as [|p word]; [discriminate|].
  destruct s as [|c s]; cbn [startsWith];
    [rewrite andb_false_r; reflexivity|].
  apply blank_cons in Hs as [Hc _]. cbn [startsNonSpace] in Hw.
  destruct (N.eqb_spec p c) as [->|_].
  - rewrite Hc in Hw. discriminate.
  - cbn [andb]. rewrite andb_false_r. reflexivity.
Qed.

Lemma countFrom_blank (m : matcher) (s : jsstring) :
  (forall prev s', blank s' = true -> m prev s' = None) ->
  forall prev, blank s = true -> countFrom m 0 prev s = 0.
Proof.
  intros Hm. induction s as [|c s IH]; intros prev Hs; [reflexivity|].
  cbn [countFrom]. rewrite (Hm prev (c :: s) Hs).
  apply blank_cons in Hs as [_ Hs]. apply IH, Hs.
Qed.

Lemma countWords_blank {R} `{Number R} (words : list jsstring) (weight : R)
  (lowerText : jsstring) (score0 : R) :
  forallb startsNonSpace words = true -> blank lowerText = true ->
  countWords words weight lowerText score0 = score0.
Proof.
  intros Hw Hs. unfold countWords. revert score0.
  induction words as [|word words IH]; intros score0; [reflexivity|].
  cbn [forallb] in Hw. apply andb_true_iff in Hw as [Hword Hw].
  cbn [fold_left]. unfold matchCount.
  rewrite (countFrom_blank (wholeWord word) lowerText
             (fun prev s' => wholeWord_blank word prev s' Hword) None Hs).
  cbn [Nat.ltb Nat.leb]. apply IH, Hw.
Qed.

Lemma splitFrom_whole (sep : N -> bool) (s : jsstring) :
  forallb (fun c => negb (sep c)) s = true ->
  forall cur, splitFrom sep cur false s = [rev cur ++ s].
Proof.
  induction s as [|c s IH]; intros Hs cur; cbn [splitFrom].
  - rewrite app_nil_r. reflexivity.
  - cbn [forallb] in Hs. apply andb_true_iff in Hs as [Hc Hs].
    apply negb_true_iff in Hc. rewrite Hc, (IH Hs). cbn [rev].
    rewrite <- app_assoc. reflexivity.
Qed.

Lemma isChar_other (ch : string) (k c : N) :
  js ch = [k] -> c <> k -> isChar ch c = false.
Proof.
  unfold isChar. intros -> Hc. cbn [eqs]. rewrite andb_true_r.
  apply N.eqb_neq. congruence.
Qed.

Lemma blank_no_stop (s : jsstring) :
  blank s = true ->
  forallb (fun c => negb (isChar "." c || isChar "!" c || isChar "?" c)) s
  = true.
Proof.
  induction s as [|c s IH]; intros Hs; [reflexivity|].
  apply blank_cons in Hs as [Hc Hs]. cbn [forallb]. rewrite (IH Hs).
  rewrite andb_true_r. apply negb_true_iff.
  assert (Hne : (c <> 46 /\ c <> 33 /\ c <> 63)%N).
  { unfold isSpace, inRange in Hc. bool_to_N. lia. }
  destruct Hne as (H1 & H2 & H3).
  rewrite (isChar_other "." 46 c eq_refl H1),
    (isChar_other "!" 33 c eq_refl H2), (isChar_other "?" 63 c eq_refl H3).
  reflexivity.
Qed.

Lemma extractTextFeatures_blank {R} `{Number R}
  (processed original : jsstring) :
  blank original = true ->
  extractTextFeatures processed original
  = {| positiveScore := lit 0; negativeScore := lit 0;
       neutralScore := lit 0.3; hasNegation := false;
       hasIntensifier := false; hasDiminisher := false |}.
Proof.
  intros Hs. unfold extractTextFeatures. cbv zeta.
  rewrite !includes_capital by reflexivity.
  rewrite (toLowerCase_blank original Hs).
  rewrite !countWords_blank by (exact Hs || reflexivity).
  unfold split. rewrite (splitFrom_whole _ original (blank_no_stop _ Hs)).
  cbn [rev app filter]. rewrite (trim_blank original Hs). reflexivity.
Qed.

(** X17: a text of white space only (the empty text included) is
    normalised to the empty text, has no keyword for any label, and is
    estimated as neutral 1, positive 0, negative 0 by the local estimator,
    in binary64 as in exact arithmetic. *)
Theorem blank_text (text : jsstring) :
  blank text = true ->
  preprocessText text = []
  /\ (forall R (H : Number R) sentiment,
        extractKeywords (R:=R) text sentiment = [])
  /\ localEstimate (R:=float) text
     = [ {| label := "LABEL_1"; score := 1%float |};
         {| label := "LABEL_2"; score := 0%float |};
         {| label := "LABEL_0"; score := 0%float |} ]
  /\ localEstimate (R:=Q) text
     = [ {| label := "LABEL_1"; score := 1%Q |};
         {| label := "LABEL_2"; score := 0%Q |};
         {| label := "LABEL_0"; score := 0%Q |} ].
Proof.
  intros Hs.
  assert (E : preprocessText text = []).
  { unfold preprocessText. rewrite (trim_blank text Hs). reflexivity. }
  split; [exact E|]. split; [|split].
  - intros R H sentiment.
    unfold extractKeywords, uniqueKeywords, tokens. rewrite E. reflexivity.
  - unfold localEstimate, getEnhancedMockSentiment.
    rewrite (extractTextFeatures_blank _ _ Hs). vm_compute. reflexivity.
  - unfold localEstimate, getEnhancedMockSentiment.
    rewrite (extractTextFeatures_blank _ _ Hs). vm_compute. reflexivity.
Qed.
End Blank.

Lemma blank_text_witness :
  preprocessText (js "   ") = []
  /\ extractKeywords (R:=Q) (js "   ") "negative" = [].
Proof.
  destruct (blank_text (js "   ") eq_refl) as (E & K & _).
  split; [exact E | apply K].
Defined.

(** * When the normalised text is empty *)

Section Empty.

Lemma replace_nonempty (m : matcher) (rep s : jsstring) :
  rep <> [] -> s <> [] -> replace m rep s <> [].
Proof.
  intros Hrep Hs. destruct s as [|c s]; [contradiction|].
  unfold replace. cbn [replaceFrom].
  destruct (m None (c :: s)) as [[|k]|]; try discriminate.
  destruct rep; [contradiction | discriminate].
Qed.

Lemma fold_replace_nonempty {P : Type} (mk : P -> matcher)
  (table : list (P * jsstring)) (s : jsstring) :
  Forall (fun entry => snd entry <> []) table -> s <> [] ->
  fold_left
    (fun processed '(pattern, replacement) =>
       replace (mk pattern) replacement processed)
    table s <> [].
Proof.
  intros Ht. revert s. induction Ht as [|[p r] table Hr _ IH];
    intros s Hs; cbn [fold_left]; [exact Hs|].
  apply IH, replace_nonempty; [exact Hr | exact Hs].
Qed.

Lemma dropWhile_nil (s : jsstring) :
  dropWhile isSpace s = [] -> blank s = true.
Proof.
  induction s as [|c s IH]; [reflexivity|]. cbn [dropWhile].
  destruct (isSpace c) eqn:E; [|discriminate].
  intros H. apply blank_cons. split; [exact E | apply IH, H].
Qed.

Lemma blank_app (s s' : jsstring) :
  blank s = true -> blank s' = true -> blank (s ++ s') = true.
Proof.
  unfold blank. intros H1 H2. rewrite forallb_app, H1, H2. reflexivity.
Qed.

Lemma dropWhile_split (s : jsstring) :
  exists pre, blank pre = true /\ s = pre ++ dropWhile isSpace s.
Proof.
  induction s as [|c s (pre & Hp & IH)]; cbn [dropWhile].
  - exists []. split; reflexivity.
  - destruct (isSpace c) eqn:E.
    + exists (c :: pre). split; [apply blank_cons; split; assumption|].
      cbn [app]. rewrite <- IH. reflexivity.
    + exists []. split; reflexivity.
Qed.

Lemma trim_nil (s : jsstring) : trim s = [] -> blank s = true.
Proof.
  unfold trim. intros E.
  apply (f_equal (@rev N)) in E. rewrite rev_involutive in E. cbn in E.
  apply dropWhile_nil in E.
  destruct (dropWhile_split s) as (pre & Hp & Es).
  rewrite Es. apply blank_app; [exact Hp|].
  unfold blank in *. rewrite forallb_forall in *.
  intros c Hc. apply E, in_rev. rewrite rev_involutive. exact Hc.
Qed.

(** X19: the normalised text is empty exactly when the text is blank: no
    rewrite of the normaliser deletes, every match is replaced by a word or
    a marker. *)
Theorem preprocessText_empty (text : jsstring) :
  preprocessText text = [] <-> blank text = true.
Proof.
  split.
  - intros E. apply trim_nil.
    destruct (trim text) as [|c s] eqn:Et; [reflexivity|]. exfalso.
    revert E. unfold preprocessText. rewrite Et.
    repeat first
      [ apply replace_nonempty; [discriminate|]
      | apply (fold_replace_nonempty (fun c => literals true [c]));
        [repeat constructor; discriminate|]
      | apply (fold_replace_nonempty (fun p => literals false p));
        [repeat constructor; discriminate|] ].
    discriminate.
  - intros Hs. unfold preprocessText. rewrite (trim_blank text Hs).
    reflexivity.
Qed.
End Empty.

(** * The order of the keywords *)

Section KeywordOrder.
Local Open Scope Q_scope.

Lemma insert_key_descending {A} (key : A -> Q) (x : A) (l : list A) :
  StronglySorted (fun a b => key b <= key a) l ->
  StronglySorted (fun a b => key b <= key a)
    (insert (fun a b => nsub (key b) (key a)) x l).
Proof.
  induction 1 as [|y l Hl IH Hy]; cbn [insert].
  - repeat constructor.
  - destruct (ngt (nsub (key y) (key x)) (lit 0)) eqn:E.
    + apply ngt_exact in E. rewrite nsub_exact, lit_exact in E.
      constructor; [exact IH|].
      eapply Permutation_Forall; [apply insert_perm|].
      constructor; [lra | exact Hy].
    + assert (Hxy : key y <= key x).
      { apply Qnot_lt_le. intros C.
        assert (T : ngt (nsub (key y) (key x)) (lit 0) = true)
          by (apply ngt_exact; rewrite nsub_exact, lit_exact; lra).
        congruence. }
      constructor; [constructor; assumption|].
      constructor; [exact Hxy|].
      eapply Forall_impl; [|exact Hy].
      intros a Ha. cbv beta in *. lra.
Qed.

Lemma sort_key_descending {A} (key : A -> Q) (l : list A) :
  StronglySorted (fun a b => key b <= key a)
    (sort (fun a b => nsub (key b) (key a)) l).
Proof.
  induction l as [|x l IH]; cbn [sort].
  - constructor.
  - apply insert_key_descending, IH.
Qed.

Lemma StronglySorted_firstn {A} (rel : A -> A -> Prop) (n : nat) (l : list A) :
  StronglySorted rel l -> StronglySorted rel (firstn n l).
Proof.
  intros Hl. revert n. induction Hl as [|x l Hl IH Hx]; intros [|n];
    cbn [firstn]; try constructor.
  - apply IH.
  - apply Forall_forall. intros y Hy. rewrite Forall_forall in Hx.
    apply Hx. rewrite <- (firstn_skipn n l). apply in_or_app. left. exact Hy.
Qed.

Lemma StronglySorted_filter {A} (rel : A -> A -> Prop) (f : A -> bool)
  (l : list A) :
  StronglySorted rel l -> StronglySorted rel (filter f l).
Proof.
  induction 1 as [|x l Hl IH Hx]; cbn [filter]; [constructor|].
  destruct (f x); [|exact IH]. constructor; [exact IH|].
  apply Forall_forall. intros y Hy. apply filter_In in Hy as [Hy _].
  rewrite Forall_forall in Hx. apply Hx, Hy.
Qed.

Lemma StronglySorted_scored {A} (score : A -> Q) (l : list (A * Q)) :
  Forall (fun entry => snd entry = score (fst entry)) l ->
  StronglySorted (fun a b => snd b <= snd a) l ->
  StronglySorted (fun a b => score b <= score a) (map fst l).
Proof.
  intros Hf Hs. induction Hs as [|x l Hs IH Hx]; cbn [map]; [constructor|].
  inversion Hf as [|? ? Ex Hf']; subst.
  constructor; [apply IH, Hf'|].
  apply Forall_forall. intros k Hk.
  apply in_map_iff in Hk as (y & <- & Hy).
  rewrite Forall_forall in Hx, Hf'.
  rewrite <- Ex, <- (Hf' y Hy). apply Hx, Hy.
Qed.

(** X20: in exact arithmetic the keywords come in the order of their
    scores, the best first: each keyword scores at least as much as every
    keyword after it (3 for a keyword of the label, plus the number of its
    occurrences, plus a tenth of its length up to 1). *)
Theorem extractKeywords_ranked (text : jsstring) (sentiment : string) :
  StronglySorted
    (fun a b =>
       keywordScore (R:=Q) (tokens text) sentiment b
       <= keywordScore (tokens text) sentiment a)
    (extractKeywords (R:=Q) text sentiment).
Proof.
  rewrite extractKeywords_topSix. apply StronglySorted_filter.
  unfold topSix. cbv zeta.
  apply (StronglySorted_scored (keywordScore (tokens text) sentiment)).
  - apply Forall_forall. intros [k v] Hk.
    apply firstn_In in Hk.
    apply (proj1 (sort_In _ _ _)) in Hk.
    apply in_map_iff in Hk as (k' & E & _).
    pose proof (f_equal fst E) as E1. pose proof (f_equal snd E) as E2.
    cbn [fst snd] in *. rewrite <- E2, E1. reflexivity.
  - apply StronglySorted_firstn.
    apply (sort_key_descending (fun entry : jsstring * Q => snd entry)).
Qed.
End KeywordOrder.

(** ** The normaliser run twice

    The three rewrites of words replace a word of small letters and the
    white space after it by a sentinel of capitals that ends in an
    underscore.  What a pass leaves holds no match of its pattern, nor of the
    pattern of an earlier pass. *)

Section Idempotence.
Local Open Scope nat_scope.

Lemma lower_upper (p : N) :
  isLower p = true -> inRange 65 90 (upperUnit p) = true.
Proof.
  unfold upperUnit. intros E. rewrite E.
  unfold isLower, inRange in *. bool_to_N. lia.
Qed.

Lemma matches_letter (p c : N) :
  isLower p = true -> (upperUnit p =? upperUnit c)%N = true ->
  isUpper c || isLower c = true.
Proof.
  intros Hp E. apply N.eqb_eq in E. pose proof (lower_upper p Hp) as Hu.
  rewrite E in Hu. unfold upperUnit in Hu.
  destruct (isLower c); [apply orb_true_r|].
  unfold isUpper. rewrite Hu. reflexivity.
Qed.

Lemma letter_word (c : N) :
  isUpper c || isLower c = true -> isWordChar c = true /\ isSpace c = false.
Proof.
  intros E. split.
  - unfold isWordChar. apply orb_true_iff in E as [-> | ->];
      rewrite ?orb_true_r; reflexivity.
  - destruct (isSpace c) eqn:Es; [|reflexivity]. exfalso.
    unfold isUpper, isLower, isSpace, inRange in *.
    bool_to_N. lia.
Qed.

(** *** The matcher of a word rewrite *)

Lemma atLeast_space (r : jsstring) :
  atLeast 1 isSpace r
  = if spaceAt 0 r then Some (countWhile isSpace r) else None.
Proof.
  unfold atLeast, spaceAt. cbn [skipn].
  destruct r as [|c r]; [reflexivity|]. cbn [countWhile].
  destruct (isSpace c); reflexivity.
Qed.

Lemma spaceAt_skipn (i : nat) (s : jsstring) :
  spaceAt 0 (skipn i s) = spaceAt i s.
Proof. reflexivity. Qed.

Lemma alt_none (ws : list jsstring) (s : jsstring) :
  alt true ws (atLeast 1 isSpace) s = None <-> hits ws s = false.
Proof.
  unfold hits. induction ws as [|w ws IH]; cbn [alt existsb].
  - split; reflexivity.
  - destruct (startsWith true w s); cbn [andb orb]; [|exact IH].
    rewrite atLeast_space, spaceAt_skipn.
    destruct (spaceAt (length w) s); cbn [orb]; [|exact IH].
    split; discriminate.
Qed.

(** A match is a word and then the white space after it, all of it. *)
Lemma alt_some (ws : list jsstring) (s : jsstring) (n : nat) :
  alt true ws (atLeast 1 isSpace) s = Some n ->
  exists w,
    In w ws /\ startsWith true w s = true /\ spaceAt (length w) s = true
    /\ n = length w + countWhile isSpace (skipn (length w) s).
Proof.
  induction ws as [|w ws IH]; cbn [alt]; [discriminate|].
  destruct (startsWith true w s) eqn:Ew.
  - rewrite atLeast_space, spaceAt_skipn.
    destruct (spaceAt (length w) s) eqn:Es.
    + intros [= <-]. exists w. repeat split; auto. left. reflexivity.
    + intros E. destruct (IH E) as (w' & Hin & H1). exists w'.
      split; [right; exact Hin | exact H1].
  - intros E. destruct (IH E) as (w' & Hin & H1). exists w'.
    split; [right; exact Hin | exact H1].
Qed.

Lemma wordThenSpaces_none (ws : list jsstring) (prev : option N)
  (s : jsstring) :
  wordThenSpaces ws prev s = None <-> boundary prev s && hits ws s = false.
Proof.
  unfold wordThenSpaces. destruct (boundary prev s); cbn [andb].
  - apply alt_none.
  - split; reflexivity.
Qed.

Lemma wordThenSpaces_some (ws : list jsstring) (prev : option N)
  (s : jsstring) (n : nat) :
  wordThenSpaces ws prev s = Some n ->
  boundary prev s = true
  /\ exists w,
       In w ws /\ startsWith true w s = true /\ spaceAt (length w) s = true
       /\ n = length w + countWhile isSpace (skipn (length w) s).
Proof.
  unfold wordThenSpaces. destruct (boundary prev s); [|discriminate].
  intros E. split; [reflexivity | apply alt_some, E].
Qed.

(** *** The scan *)

Lemma lastUnit_cons (prev : option N) (c : N) (l : jsstring) :
  lastUnit prev (c :: l) = lastUnit (Some c) l.
Proof.
  unfold lastUnit. cbn [rev]. destruct (rev l); reflexivity.
Qed.

Lemma replaceFrom_skip (m : matcher) (rep : jsstring) (k : nat) :
  forall (prev : option N) (s : jsstring),
    replaceFrom m rep k prev s
    = replaceFrom m rep 0 (lastUnit prev (firstn k s)) (skipn k s).
Proof.
  induction k as [|k IH]; intros prev s.
  - reflexivity.
  - destruct s as [|c s]; [reflexivity|].
    cbn [replaceFrom firstn skipn]. rewrite IH, lastUnit_cons. reflexivity.
Qed.

Lemma replaceFrom_cons (m : matcher) (rep : jsstring) (prev : option N)
  (c : N) (s : jsstring) :
  replaceFrom m rep 0 prev (c :: s)
  = match m prev (c :: s) with
    | Some (S k) =>
        rep ++ replaceFrom m rep 0 (lastUnit (Some c) (firstn k s)) (skipn k s)
    | _ => c :: replaceFrom m rep 0 (Some c) s
    end.
Proof.
  cbn [replaceFrom]. destruct (m prev (c :: s)) as [[|k]|]; try reflexivity.
  rewrite replaceFrom_skip. reflexivity.
Qed.

Lemma quiet_skipn (ws : list jsstring) (k : nat) :
  forall (prev : option N) (s : jsstring),
    quiet ws prev s = true ->
    quiet ws (lastUnit prev (firstn k s)) (skipn k s) = true.
Proof.
  induction k as [|k IH]; intros prev s Hq; [exact Hq|].
  destruct s as [|c s]; [reflexivity|].
  cbn [firstn skipn]. rewrite lastUnit_cons. apply IH.
  cbn [quiet] in Hq. apply andb_true_iff in Hq as [_ Hq]. exact Hq.
Qed.

(** A text without a match is left as it is. *)
Lemma replace_quiet (ws : list jsstring) (rep : jsstring) :
  forall (s : jsstring) (prev : option N),
    quiet ws prev s = true ->
    replaceFrom (wordThenSpaces ws) rep 0 prev s = s.
Proof.
  induction s as [|c s IH]; intros prev Hq; [reflexivity|].
  cbn [quiet] in Hq. apply andb_true_iff in Hq as [Hm Hq].
  apply negb_true_iff, wordThenSpaces_none in Hm.
  cbn [replaceFrom]. rewrite Hm, (IH _ Hq). reflexivity.
Qed.

(** *** Words and sentinels *)

Lemma lettered_In (ws : list jsstring) (w : jsstring) :
  lettered ws = true -> In w ws ->
  exists p w', w = p :: w' /\ isLower p = true /\ forallb isLower w' = true.
Proof.
  unfold lettered. rewrite forallb_forall. intros Hws Hin.
  specialize (Hws w Hin). apply andb_true_iff in Hws as [Hl Hw].
  destruct w as [|p w']; [discriminate|].
  cbn [forallb] in Hw. apply andb_true_iff in Hw as [Hp Hw].
  exists p, w'. auto.
Qed.

Lemma hits_letter (ws : list jsstring) (s : jsstring) :
  lettered ws = true -> hits ws s = true ->
  exists c s', s = c :: s' /\ isUpper c || isLower c = true.
Proof.
  intros Hws Hh. unfold hits in Hh. apply existsb_exists in Hh
    as (w & Hin & Hw).
  destruct (lettered_In ws w Hws Hin) as (p & w' & -> & Hp & _).
  apply andb_true_iff in Hw as [Hw _].
  destruct s as [|c s']; [discriminate|].
  cbn [startsWith] in Hw. apply andb_true_iff in Hw as [Hc _].
  exists c, s'. split; [reflexivity | apply (matches_letter p c Hp Hc)].
Qed.

(** No word starts right after a letter, a digit or an underscore. *)
Lemma no_match_after_word (ws : list jsstring) (prev : option N)
  (s : jsstring) :
  lettered ws = true -> wordBefore prev = true ->
  boundary prev s && hits ws s = false.
Proof.
  intros Hws Hp. destruct (hits ws s) eqn:Hh; [|apply andb_false_r].
  destruct (hits_letter ws s Hws Hh) as (c & s' & -> & Hc).
  unfold boundary. rewrite Hp. cbn [wordAt].
  rewrite (proj1 (letter_word c Hc)). reflexivity.
Qed.

Lemma spaceAt_count (r : jsstring) :
  spaceAt 0 r = true -> exists k, countWhile isSpace r = S k.
Proof.
  unfold spaceAt. cbn [skipn]. destruct r as [|c r]; [discriminate|].
  cbn [countWhile]. intros ->. eexists. reflexivity.
Qed.

Lemma wordThenSpaces_cases (ws : list jsstring) (prev : option N)
  (s : jsstring) :
  if boundary prev s && hits ws s
  then exists k, wordThenSpaces ws prev s = Some (S k)
  else wordThenSpaces ws prev s = None.
Proof.
  destruct (boundary prev s && hits ws s) eqn:E.
  - destruct (wordThenSpaces ws prev s) as [n|] eqn:Ew.
    + destruct (wordThenSpaces_some ws prev s n Ew)
        as (_ & w & _ & _ & Hs & ->).
      destruct (spaceAt_count _ Hs) as (k & ->).
      exists (length w + k). f_equal. lia.
    + apply wordThenSpaces_none in Ew. congruence.
  - apply wordThenSpaces_none, E.
Qed.

Lemma sentinel_shape (rep : jsstring) :
  sentinel rep = true ->
  exists capitals,
    rep = capitals ++ [95%N] /\ forallb isUpper capitals = true.
Proof.
  unfold sentinel. destruct (rev rep) as [|u l] eqn:E; [discriminate|].
  intros Hs. apply andb_true_iff in Hs as [Hs Hl].
  apply andb_true_iff in Hs as [Hu _]. apply N.eqb_eq in Hu. subst u.
  exists (rev l). split.
  - rewrite <- (rev_involutive rep), E. reflexivity.
  - rewrite forallb_forall in *. intros x Hx. apply Hl, in_rev, Hx.
Qed.

Lemma app_sentinel (capitals tail : jsstring) :
  (capitals ++ [95%N]) ++ tail = capitals ++ 95%N :: tail.
Proof. rewrite <- app_assoc. reflexivity. Qed.

(** No word followed by white space starts inside a sentinel. *)
Lemma word_in_sentinel (w : jsstring) :
  forallb isLower w = true ->
  forall capitals tail,
    forallb isUpper capitals = true ->
    startsWith true w (capitals ++ 95%N :: tail)
    && spaceAt (length w) (capitals ++ 95%N :: tail) = false.
Proof.
  induction w as [|p w IH]; intros Hw capitals tail Hc.
  - cbn [startsWith length andb]. unfold spaceAt. cbn [skipn].
    destruct capitals as [|c capitals]; [reflexivity|].
    cbn [app]. cbn [forallb] in Hc. apply andb_true_iff in Hc as [Hc _].
    apply letter_word. rewrite Hc. reflexivity.
  - cbn [forallb] in Hw. apply andb_true_iff in Hw as [Hp Hw].
    destruct capitals as [|c capitals].
    + cbn [app startsWith].
      pose proof (lower_upper p Hp) as Hu.
      destruct (upperUnit p =? upperUnit 95)%N eqn:E; [|reflexivity].
      apply N.eqb_eq in E. rewrite E in Hu. discriminate.
    + cbn [forallb] in Hc. apply andb_true_iff in Hc as [_ Hc].
      cbn [app startsWith length].
      change (spaceAt (S (length w)) (c :: capitals ++ 95%N :: tail))
        with (spaceAt (length w) (capitals ++ 95%N :: tail)).
      rewrite <- andb_assoc, (IH Hw capitals tail Hc).
      apply andb_false_r.
Qed.

Lemma hits_in_sentinel (ws : list jsstring) (capitals tail : jsstring) :
  lettered ws = true -> forallb isUpper capitals = true ->
  hits ws (capitals ++ 95%N :: tail) = false.
Proof.
  intros Hws Hc. apply not_true_iff_false. intros Hh.
  unfold hits in Hh. apply existsb_exists in Hh as (w & Hin & Hw).
  destruct (lettered_In ws w Hws Hin) as (p & w' & -> & Hp & Hw').
  rewrite word_in_sentinel in Hw; [discriminate | | exact Hc].
  cbn [forallb]. rewrite Hp, Hw'. reflexivity.
Qed.

Lemma quiet_sentinel (ws : list jsstring) (tail : jsstring) :
  lettered ws = true ->
  forall (capitals : jsstring) (prev : option N),
    forallb isUpper capitals = true ->
    quiet ws prev (capitals ++ 95%N :: tail) = quiet ws (Some 95%N) tail.
Proof.
  intros Hws. induction capitals as [|c capitals IH]; intros prev Hc.
  - pose proof (hits_in_sentinel ws [] tail Hws eq_refl) as Hh.
    cbn [app] in Hh |- *. cbn [quiet]. rewrite Hh, andb_false_r.
    reflexivity.
  - pose proof (hits_in_sentinel ws (c :: capitals) tail Hws Hc) as Hh.
    cbn [app] in Hh |- *. cbn [quiet]. rewrite Hh, andb_false_r.
    cbn [forallb] in Hc. apply andb_true_iff in Hc as [_ Hc].
    cbn [negb andb]. apply IH, Hc.
Qed.

(** *** What a rewrite leaves behind *)

Section Pass.
Variables (ws : list jsstring) (rep : jsstring).
Hypothesis Hws : lettered ws = true.
Hypothesis Hrep : sentinel rep = true.

Let out := replaceFrom (wordThenSpaces ws) rep 0.

Lemma out_after_word (prev : option N) (c : N) (s : jsstring) :
  wordBefore prev = true -> out prev (c :: s) = c :: out (Some c) s.
Proof.
  intros Hp. unfold out. rewrite replaceFrom_cons.
  pose proof (wordThenSpaces_cases ws prev (c :: s)) as Hc.
  rewrite (no_match_after_word ws prev (c :: s) Hws Hp) in Hc.
  rewrite Hc. reflexivity.
Qed.

(** A word and the white space after it that are read after a word
    character in the result were there before. *)
Lemma word_back (w : jsstring) :
  forallb isLower w = true ->
  forall (prev : option N) (s : jsstring),
    wordBefore prev = true ->
    startsWith true w (out prev s) && spaceAt (length w) (out prev s) = true ->
    startsWith true w s && spaceAt (length w) s = true.
Proof.
  induction w as [|p w IH]; intros Hw prev s Hp Ho.
  - destruct s as [|c s]; [exact Ho|].
    rewrite out_after_word in Ho by exact Hp. exact Ho.
  - cbn [forallb] in Hw. apply andb_true_iff in Hw as [Hl Hw].
    destruct s as [|c s]; [exact Ho|].
    rewrite out_after_word in Ho by exact Hp.
    cbn [startsWith length] in Ho |- *.
    change (spaceAt (S (length w)) (c :: out (Some c) s))
      with (spaceAt (length w) (out (Some c) s)) in Ho.
    change (spaceAt (S (length w)) (c :: s)) with (spaceAt (length w) s).
    rewrite <- andb_assoc in Ho |- *.
    apply andb_true_iff in Ho as [Hc Ho]. rewrite Hc. cbn [andb].
    apply (IH Hw (Some c) s); [|exact Ho].
    cbn [wordBefore]. apply letter_word, (matches_letter p c Hl Hc).
Qed.

Lemma hits_back (ws' : list jsstring) (c : N) (s : jsstring) :
  lettered ws' = true ->
  hits ws' (c :: out (Some c) s) = true -> hits ws' (c :: s) = true.
Proof.
  intros Hws' Hh. unfold hits in *.
  apply existsb_exists in Hh as (w & Hin & Hw).
  apply existsb_exists. exists w. split; [exact Hin|].
  destruct (lettered_In ws' w Hws' Hin) as (p & w' & -> & Hp & Hw').
  cbn [startsWith length] in Hw |- *.
  change (spaceAt (S (length w')) (c :: out (Some c) s))
    with (spaceAt (length w') (out (Some c) s)) in Hw.
  change (spaceAt (S (length w')) (c :: s)) with (spaceAt (length w') s).
  rewrite <- andb_assoc in Hw |- *.
  apply andb_true_iff in Hw as [Hc Hw]. rewrite Hc. cbn [andb].
  apply (word_back w' Hw' (Some c) s); [|exact Hw].
  cbn [wordBefore]. apply letter_word, (matches_letter p c Hp Hc).
Qed.

(** After the rewrite of the words [ws], the pattern of the words [ws']
    matches nowhere, when [ws'] is [ws] or matched nowhere before. *)
Lemma out_quiet (ws' : list jsstring) :
  lettered ws' = true ->
  forall (n : nat) (s : jsstring),
    length s <= n ->
    forall prev prev' : option N,
      ws' = ws \/ quiet ws' prev s = true ->
      prev' = prev \/ wordBefore prev' = true ->
      quiet ws' prev' (out prev s) = true.
Proof.
  intros Hws'.
  destruct (sentinel_shape rep Hrep) as (capitals & Er & Hu).
  induction n as [|n IH]; intros s Hn prev prev' Hin Hctx.
  - destruct s; [reflexivity | cbn in Hn; lia].
  - destruct s as [|c s]; [reflexivity|]. cbn [length] in Hn.
    assert (Hin' : ws' = ws \/ quiet ws' (Some c) s = true).
    { destruct Hin as [E|Hq]; [left; exact E | right].
      cbn [quiet] in Hq. apply andb_true_iff in Hq as [_ Hq]. exact Hq. }
    unfold out. rewrite replaceFrom_cons. fold out.
    pose proof (wordThenSpaces_cases ws prev (c :: s)) as Hc.
    destruct (boundary prev (c :: s) && hits ws (c :: s)) eqn:Em.
    + destruct Hc as (k & ->). rewrite Er, app_sentinel.
      rewrite (quiet_sentinel ws' _ Hws' capitals prev' Hu).
      apply IH.
      * rewrite length_skipn. lia.
      * destruct Hin' as [E|Hq]; [left; exact E | right].
        apply quiet_skipn, Hq.
      * right. reflexivity.
    + rewrite Hc. cbn [quiet].
      rewrite (IH s ltac:(lia) (Some c) (Some c) Hin' (or_introl eq_refl)).
      rewrite andb_true_r. apply negb_true_iff.
      destruct Hctx as [->|Hp];
        [|apply (no_match_after_word ws' prev' _ Hws' Hp)].
      destruct (hits ws' (c :: out (Some c) s)) eqn:Hh;
        [|apply andb_false_r].
      apply (hits_back ws' c s Hws') in Hh.
      change (boundary prev (c :: out (Some c) s))
        with (boundary prev (c :: s)).
      destruct Hin as [->|Hq].
      * rewrite <- Em, Hh. reflexivity.
      * cbn [quiet] in Hq. apply andb_true_iff in Hq as [Hq _].
        apply negb_true_iff in Hq. rewrite <- Hq, Hh. reflexivity.
Qed.

(** *** Runs of punctuation *)

Section Runs.
Variables (n : nat) (p : N -> bool).
Hypothesis Hn : 0 < n.
Hypothesis Hp : forall c, p c = true -> isWordChar c = false.

Lemma countWhile_word (c : N) (s : jsstring) :
  isWordChar c = true -> countWhile p (c :: s) = 0.
Proof.
  intros Hc. cbn [countWhile]. destruct (p c) eqn:E; [|reflexivity].
  rewrite (Hp c E) in Hc. discriminate.
Qed.

Lemma noRun_skipn (k : nat) :
  forall s, noRun n p s = true -> noRun n p (skipn k s) = true.
Proof.
  induction k as [|k IH]; intros [|c s] Hs; cbn [skipn]; auto.
  apply IH. cbn [noRun] in Hs. apply andb_true_iff in Hs as [_ Hs].
  exact Hs.
Qed.

Lemma noRun_words (l s : jsstring) :
  forallb isWordChar l = true -> noRun n p (l ++ s) = noRun n p s.
Proof.
  induction l as [|c l IH]; intros Hl; [reflexivity|].
  cbn [forallb] in Hl. apply andb_true_iff in Hl as [Hc Hl].
  cbn [app noRun]. rewrite (countWhile_word c _ Hc), (IH Hl).
  apply Nat.ltb_lt in Hn. rewrite Hn. reflexivity.
Qed.

Lemma countWhile_out (s : jsstring) :
  forall prev, countWhile p (out prev s) <= countWhile p s.
Proof.
  destruct (sentinel_shape rep Hrep) as (capitals & Er & Hu).
  induction s as [|c s IH]; intros prev; [apply Nat.le_refl|].
  unfold out. rewrite replaceFrom_cons. fold out.
  pose proof (wordThenSpaces_cases ws prev (c :: s)) as Hc.
  destruct (boundary prev (c :: s) && hits ws (c :: s)) eqn:Em.
  - destruct Hc as (k & ->). rewrite Er, app_sentinel.
    assert (E0 : forall tail, countWhile p (capitals ++ 95%N :: tail) = 0).
    { intros tail. destruct capitals as [|u capitals].
      - apply countWhile_word. reflexivity.
      - cbn [app]. apply countWhile_word.
        cbn [forallb] in Hu. apply andb_true_iff in Hu as [Hu _].
        apply letter_word. rewrite Hu. reflexivity. }
    rewrite E0. apply Nat.le_0_l.
  - rewrite Hc. cbn [countWhile]. destruct (p c); [|apply Nat.le_refl].
    apply le_n_S, IH.
Qed.

Lemma noRun_out :
  forall (k : nat) (s : jsstring),
    length s <= k ->
    forall prev, noRun n p s = true -> noRun n p (out prev s) = true.
Proof.
  destruct (sentinel_shape rep Hrep) as (capitals & Er & Hu).
  assert (Hw : forallb isWordChar (capitals ++ [95%N]) = true).
  { rewrite forallb_app. cbn [forallb]. rewrite andb_true_r.
    rewrite forallb_forall in *. intros c Hc.
    apply letter_word. rewrite (Hu c Hc). reflexivity. }
  induction k as [|k IH]; intros s Hk prev Hs.
  - destruct s; [reflexivity | cbn in Hk; lia].
  - destruct s as [|c s]; [reflexivity|]. cbn [length] in Hk.
    pose proof (countWhile_out (c :: s) prev) as Hle.
    unfold out in Hle |- *. rewrite replaceFrom_cons in Hle |- *.
    fold out in Hle |- *.
    cbn [noRun] in Hs. apply andb_true_iff in Hs as [Hc Hs].
    destruct (wordThenSpaces ws prev (c :: s)) as [[|j]|].
    + cbn [noRun]. rewrite (IH s ltac:(lia) _ Hs), andb_true_r.
      apply Nat.ltb_lt in Hc. apply Nat.ltb_lt. lia.
    + rewrite noRun_words by (rewrite Er; exact Hw).
      apply IH; [rewrite length_skipn; lia | apply noRun_skipn, Hs].
    + cbn [noRun]. rewrite (IH s ltac:(lia) _ Hs), andb_true_r.
      apply Nat.ltb_lt in Hc. apply Nat.ltb_lt. lia.
Qed.
End Runs.

(** *** The ends of the text *)

Lemma last_cons (c d : N) (l : jsstring) : last (c :: l) d = last l c.
Proof.
  revert c d. induction l as [|x l IH]; intros c d; [reflexivity|].
  change (last (c :: x :: l) d) with (last (x :: l) d).
  rewrite (IH x d), (IH x c). reflexivity.
Qed.

Lemma last_app_cons (l l' : jsstring) (c d : N) :
  last (l ++ c :: l') d = last l' c.
Proof.
  revert d. induction l as [|x l IH]; intros d; cbn [app].
  - apply last_cons.
  - rewrite last_cons. apply IH.
Qed.

Lemma countWhile_firstn (q : N -> bool) (s : jsstring) :
  forallb q (firstn (countWhile q s) s) = true.
Proof.
  induction s as [|c s IH]; [reflexivity|]. cbn [countWhile].
  destruct (q c) eqn:E; [|reflexivity].
  cbn [firstn forallb]. rewrite E, IH. reflexivity.
Qed.

Lemma countWhile_length (q : N -> bool) (s : jsstring) :
  countWhile q s <= length s.
Proof.
  induction s as [|c s IH]; [apply Nat.le_refl|]. cbn [countWhile length].
  destruct (q c); lia.
Qed.

(** The last unit of a match is white space. *)
Lemma match_ends_with_space (prev : option N) (s : jsstring) (k : nat) :
  wordThenSpaces ws prev s = Some (S k) ->
  exists pre c, firstn (S k) s = pre ++ [c] /\ isSpace c = true
                /\ S k <= length s.
Proof.
  intros E. destruct (wordThenSpaces_some ws prev s _ E)
    as (_ & w & _ & _ & Hs & En).
  set (r := skipn (length w) s) in *.
  destruct (spaceAt_count r Hs) as (j & Ej).
  pose proof (countWhile_firstn isSpace r) as Hf.
  pose proof (countWhile_length isSpace r) as Hl.
  rewrite Ej in Hf, Hl.
  assert (Hw : length w <= length s).
  { destruct (Nat.le_gt_cases (length w) (length s)) as [H|H]; [exact H|].
    subst r. rewrite skipn_all2 in Ej by lia. discriminate. }
  assert (Hr : length r = length s - length w)
    by (subst r; apply length_skipn).
  rewrite En, Ej.
  rewrite (firstn_step s (length w) (S j)). unfold slice.
  replace (length w + S j - length w) with (S j) by lia. fold r.
  destruct (exists_last (l:=firstn (S j) r)) as (pre & c & Ec).
  { destruct r; [discriminate | discriminate]. }
  rewrite Ec in Hf |- *. rewrite forallb_app in Hf.
  apply andb_true_iff in Hf as [_ Hf]. cbn [forallb] in Hf.
  rewrite andb_true_r in Hf.
  exists (firstn (length w) s ++ pre), c.
  split; [rewrite app_assoc; reflexivity|]. split; [exact Hf | lia].
Qed.

Lemma out_hd (s : jsstring) (prev : option N) :
  isSpace (hd 0%N s) = false -> isSpace (hd 0%N (out prev s)) = false.
Proof.
  destruct (sentinel_shape rep Hrep) as (capitals & Er & Hu).
  destruct s as [|c s]; [intros _; reflexivity|]. cbn [hd]. intros Hc.
  unfold out. rewrite replaceFrom_cons. fold out.
  destruct (wordThenSpaces ws prev (c :: s)) as [[|k]|]; [exact Hc| |exact Hc].
  rewrite Er, app_sentinel. destruct capitals as [|u capitals];
    [reflexivity|].
  cbn [app hd]. cbn [forallb] in Hu. apply andb_true_iff in Hu as [Hu _].
  apply letter_word. rewrite Hu. reflexivity.
Qed.

Lemma out_last :
  forall (k : nat) (s : jsstring),
    length s <= k ->
    forall prev d,
      isSpace (last s d) = false -> isSpace (last (out prev s) d) = false.
Proof.
  destruct (sentinel_shape rep Hrep) as (capitals & Er & Hu).
  induction k as [|k IH]; intros s Hk prev d Hs.
  - destruct s; [exact Hs | cbn in Hk; lia].
  - destruct s as [|c s]; [exact Hs|]. cbn [length] in Hk.
    unfold out. rewrite replaceFrom_cons. fold out.
    destruct (wordThenSpaces ws prev (c :: s)) as [[|j]|] eqn:Ew.
    + rewrite last_cons in Hs |- *. apply IH; [lia | exact Hs].
    + destruct (match_ends_with_space prev (c :: s) j Ew)
        as (pre & x & Ef & Hx & Hl).
      rewrite Er, app_sentinel, last_app_cons.
      rewrite <- (firstn_skipn (S j) (c :: s)), Ef in Hs.
      rewrite <- app_assoc in Hs. cbn [app] in Hs.
      rewrite last_app_cons in Hs. cbn [skipn] in Hs.
      destruct (skipn j s) as [|y rest] eqn:Er'.
      * cbn [last] in Hs. congruence.
      * apply IH.
        -- rewrite <- Er', length_skipn. lia.
        -- rewrite last_cons in Hs |- *. exact Hs.
    + rewrite last_cons in Hs |- *. apply IH; [lia | exact Hs].
Qed.

Lemma out_tight (s : jsstring) :
  tight s = true -> tight (out None s) = true.
Proof.
  unfold tight. rewrite !andb_true_iff, !negb_true_iff. intros [Hh Hl].
  split; [apply out_hd, Hh | apply (out_last (length s)); auto].
Qed.

Lemma out_cool (P : N -> bool) (s : jsstring) :
  forallb P rep = true -> forallb P s = true ->
  forall skip prev,
    forallb P (replaceFrom (wordThenSpaces ws) rep skip prev s) = true.
Proof.
  intros Hr. induction s as [|c s IH]; intros Hs skip prev; [reflexivity|].
  cbn [forallb] in Hs. apply andb_true_iff in Hs as [Hc Hs].
  cbn [replaceFrom]. destruct skip as [|skip]; [|apply IH, Hs].
  destruct (wordThenSpaces ws prev (c :: s)) as [[|k]|].
  - cbn [forallb]. rewrite Hc. apply IH, Hs.
  - rewrite forallb_app, Hr. apply IH, Hs.
  - cbn [forallb]. rewrite Hc. apply IH, Hs.
Qed.
End Pass.

(** *** Calm text *)

Lemma hot_not_letter (c : N) :
  hot c = true -> isLower c = false /\ isUpper c = false.
Proof.
  unfold hot. cbn [js list_ascii_of_string map existsb].
  change (N_of_ascii "'") with 39%N. change (N_of_ascii ":") with 58%N.
  change (N_of_ascii "=") with 61%N.
  rewrite !orb_false_r. intros Hs.
  destruct (isLower c) eqn:El, (isUpper c) eqn:Eu;
    unfold isLower, isUpper, inRange in El, Eu;
    bool_to_N; try (split; reflexivity); exfalso; lia.
Qed.

Lemma hot_not_word (c : N) : hot c = true -> isWordChar c = false.
Proof.
  intros Hc. destruct (hot_not_letter c Hc) as [El Eu].
  unfold isWordChar. rewrite El, Eu. cbn [orb].
  revert Hc. unfold hot. cbn [js list_ascii_of_string map existsb].
  change (N_of_ascii "'") with 39%N. change (N_of_ascii ":") with 58%N.
  change (N_of_ascii "=") with 61%N.
  rewrite !orb_false_r. intros Hs.
  destruct (isDigit c) eqn:Ed, (c =? 95)%N eqn:E9; try reflexivity;
    unfold isDigit, inRange in Ed; bool_to_N; exfalso; lia.
Qed.

(** A hot unit of a pattern only matches a hot unit of the text, also when
    case is ignored. *)
Lemma hot_match (ci : bool) (p c : N) :
  hot p = true ->
  (if ci then (upperUnit p =? upperUnit c)%N else (p =? c)%N) = true ->
  hot c = true.
Proof.
  intros Hp E. destruct ci.
  - apply N.eqb_eq in E.
    destruct (hot_not_letter p Hp) as [Lp Up].
    unfold upperUnit in E. rewrite Lp in E.
    destruct (isLower c) eqn:Lc; [|subst; exact Hp].
    exfalso. unfold isLower, isUpper, inRange in Lc, Up.
    bool_to_N. lia.
  - apply N.eqb_eq in E. subst. exact Hp.
Qed.

Let cool (s : jsstring) : bool := forallb (fun c => negb (hot c)) s.

Lemma cool_cons (c : N) (s : jsstring) :
  cool (c :: s) = true <-> hot c = false /\ cool s = true.
Proof.
  unfold cool. cbn [forallb].
  rewrite andb_true_iff, negb_true_iff. reflexivity.
Qed.

Lemma startsWith_hot (ci : bool) (w s : jsstring) :
  existsb hot w = true -> cool s = true -> startsWith ci w s = false.
Proof.
  revert s. induction w as [|p w IH]; intros s Hw Hs; [discriminate|].
  destruct s as [|c s]; [reflexivity|].
  cbn [startsWith]. apply cool_cons in Hs as [Hc Hs].
  cbn [existsb] in Hw. apply orb_true_iff in Hw as [Hp|Hw].
  - destruct (if ci then _ else _) eqn:E; [|reflexivity].
    rewrite (hot_match ci p c Hp E) in Hc. discriminate.
  - rewrite (IH s Hw Hs). apply andb_false_r.
Qed.

Lemma literals_cool (ci : bool) (ws : list jsstring) (prev : option N)
  (s : jsstring) :
  forallb (existsb hot) ws = true ->
  cool s = true -> literals ci ws prev s = None.
Proof.
  intros Hws Hs. unfold literals.
  induction ws as [|w ws IH]; cbn [alt]; [reflexivity|].
  cbn [forallb] in Hws. apply andb_true_iff in Hws as [Hw Hws].
  rewrite (startsWith_hot ci w s Hw Hs). apply IH, Hws.
Qed.

(** A pattern that matches nowhere leaves the text as it is. *)
Lemma replace_fixed (m : matcher) (rep : jsstring) (P : jsstring -> bool) :
  (forall c s, P (c :: s) = true -> P s = true) ->
  (forall prev c s, P (c :: s) = true -> m prev (c :: s) = None) ->
  forall s, P s = true -> replace m rep s = s.
Proof.
  intros Hp Hm s. unfold replace. generalize (@None N) as prev.
  induction s as [|c s IH]; intros prev Hs; cbn [replaceFrom].
  - reflexivity.
  - rewrite (Hm prev c s Hs), (IH _ (Hp c s Hs)). reflexivity.
Qed.

Lemma cool_tail (c : N) (s : jsstring) : cool (c :: s) = true -> cool s = true.
Proof. intros Hs. apply cool_cons in Hs. tauto. Qed.

Lemma replace_literals_cool (ci : bool) (ws : list jsstring)
  (rep s : jsstring) :
  forallb (existsb hot) ws = true ->
  cool s = true -> replace (literals ci ws) rep s = s.
Proof.
  intros Hws. apply (replace_fixed _ _ cool cool_tail).
  intros prev c s' Hs. apply literals_cool; assumption.
Qed.

Lemma replace_run_fixed (n : nat) (p : N -> bool) (rep s : jsstring) :
  noRun n p s = true -> replace (run n p) rep s = s.
Proof.
  apply (replace_fixed _ _ (noRun n p)).
  - intros c s' Hs. cbn [noRun] in Hs.
    apply andb_true_iff in Hs as [_ Hs]. exact Hs.
  - intros prev c s' Hs. cbn [noRun] in Hs.
    apply andb_true_iff in Hs as [Hc _]. apply Nat.ltb_lt in Hc.
    unfold run, atLeast. cbv zeta.
    destruct (Nat.leb_spec n (countWhile p (c :: s'))); [lia | reflexivity].
Qed.

Lemma fold_contractions_cool (table : list (jsstring * jsstring))
  (s : jsstring) :
  forallb (fun entry => existsb hot (fst entry)) table = true ->
  cool s = true ->
  fold_left
    (fun processed '(contraction, expansion) =>
       replace (literals true [contraction]) expansion processed)
    table s = s.
Proof.
  intros Ht Hs. induction table as [|[c e] table IH]; cbn [fold_left].
  - reflexivity.
  - cbn [forallb fst] in Ht. apply andb_true_iff in Ht as [Hc Ht].
    rewrite replace_literals_cool; [apply IH, Ht | | exact Hs].
    cbn [forallb]. rewrite Hc. reflexivity.
Qed.

Lemma fold_emoji_cool (table : list (list jsstring * jsstring))
  (s : jsstring) :
  forallb (fun entry => forallb (existsb hot) (fst entry)) table = true ->
  cool s = true ->
  fold_left
    (fun processed '(pattern, replacement) =>
       replace (literals false pattern) replacement processed)
    table s = s.
Proof.
  intros Ht Hs. induction table as [|[p r] table IH]; cbn [fold_left].
  - reflexivity.
  - cbn [forallb fst] in Ht. apply andb_true_iff in Ht as [Hp Ht].
    rewrite replace_literals_cool; [apply IH, Ht | exact Hp | exact Hs].
Qed.

Lemma calm_parts (s : jsstring) :
  calm s = true
  <-> cool s = true /\ noRun 2 (isChar "!") s = true
      /\ noRun 2 (isChar "?") s = true /\ noRun 3 (isChar ".") s = true.
Proof.
  unfold calm. fold (cool s). rewrite !andb_true_iff. tauto.
Qed.

(** On calm text only the three rewrites of words apply. *)
Lemma preprocessText_calm (text : jsstring) :
  let words s :=
    replace (wordThenSpaces diminishers) (js "DIMINISHER_")
      (replace (wordThenSpaces intensifiers) (js "INTENSIFIER_")
         (replace (wordThenSpaces negations) (js "NOT_") s)) in
  calm (words (trim text)) = true ->
  preprocessText text = words (trim text).
Proof.
  cbv zeta. intros Hc. unfold preprocessText. cbv zeta.
  apply calm_parts in Hc as (H0 & H1 & H2 & H3).
  rewrite (fold_contractions_cool contractions _ eq_refl H0).
  rewrite (replace_run_fixed _ _ _ _ H1).
  rewrite (replace_run_fixed _ _ _ _ H2).
  rewrite (replace_run_fixed _ _ _ _ H3).
  rewrite (fold_emoji_cool emojiPatterns _ eq_refl H0).
  rewrite (replace_literals_cool false positiveEmoticons _ _ eq_refl H0).
  rewrite (replace_literals_cool false negativeEmoticons _ _ eq_refl H0).
  rewrite (replace_literals_cool false neutralEmoticons _ _ eq_refl H0).
  reflexivity.
Qed.

(** *** Trimming *)

Lemma trim_infix (s : jsstring) :
  exists pre post, s = pre ++ trim s ++ post.
Proof.
  unfold trim.
  destruct (TextInputFacts.dropWhile_suffix isSpace s) as [pre E].
  set (d := dropWhile isSpace s) in *.
  destruct (TextInputFacts.dropWhile_suffix isSpace (rev d)) as [pre' E'].
  exists pre, (rev pre').
  rewrite <- rev_app_distr, <- E', rev_involutive. exact E.
Qed.

Lemma cool_app (l r : jsstring) :
  cool (l ++ r) = true <-> cool l = true /\ cool r = true.
Proof. unfold cool. rewrite forallb_app, andb_true_iff. reflexivity. Qed.

Lemma countWhile_app (p : N -> bool) (l r : jsstring) :
  countWhile p l <= countWhile p (l ++ r).
Proof.
  induction l as [|c l IH]; [apply Nat.le_0_l|]. cbn [app countWhile].
  destruct (p c); [apply le_n_S, IH | apply Nat.le_refl].
Qed.

Lemma noRun_app (n : nat) (p : N -> bool) (l r : jsstring) :
  noRun n p (l ++ r) = true -> noRun n p l = true /\ noRun n p r = true.
Proof.
  induction l as [|c l IH]; intros Hs; [split; [reflexivity | exact Hs]|].
  cbn [app noRun] in Hs |- *. apply andb_true_iff in Hs as [Hc Hs].
  destruct (IH Hs) as [Hl Hr]. split; [|exact Hr].
  rewrite Hl, andb_true_r. apply Nat.ltb_lt in Hc. apply Nat.ltb_lt.
  pose proof (countWhile_app p (c :: l) r) as Hle.
  cbn [app] in Hle. lia.
Qed.

Lemma calm_trim (s : jsstring) : calm s = true -> calm (trim s) = true.
Proof.
  destruct (trim_infix s) as (pre & post & E).
  rewrite !calm_parts. rewrite E at 1 2 3 4.
  intros (H0 & H1 & H2 & H3).
  apply cool_app in H0 as [_ H0]. apply cool_app in H0 as [H0 _].
  apply noRun_app in H1 as [_ H1]. apply noRun_app in H1 as [H1 _].
  apply noRun_app in H2 as [_ H2]. apply noRun_app in H2 as [H2 _].
  apply noRun_app in H3 as [_ H3]. apply noRun_app in H3 as [H3 _].
  tauto.
Qed.

Lemma last_rev (s : jsstring) (d : N) : last s d = hd d (rev s).
Proof.
  destruct (rev s) as [|c r] eqn:E.
  - apply (f_equal (@rev N)) in E. rewrite rev_involutive in E.
    subst. reflexivity.
  - apply (f_equal (@rev N)) in E. rewrite rev_involutive in E.
    subst. cbn [rev hd]. apply last_last.
Qed.

Lemma tight_trim (s : jsstring) : tight (trim s) = true.
Proof.
  unfold tight. apply andb_true_iff. split; apply negb_true_iff.
  - destruct (trim s) as [|c t] eqn:Et; [reflexivity|]. cbn [hd].
    unfold trim in Et.
    pose proof (TextInputFacts.dropWhile_head isSpace s) as Hd.
    set (d := dropWhile isSpace s) in *.
    destruct (TextInputFacts.dropWhile_suffix isSpace (rev d)) as [pre' E'].
    apply (f_equal (@rev N)) in E'.
    rewrite rev_involutive, rev_app_distr, Et in E'.
    rewrite E' in Hd. exact Hd.
  - rewrite last_rev. unfold trim. rewrite rev_involutive.
    pose proof (TextInputFacts.dropWhile_head isSpace
                  (rev (dropWhile isSpace s))) as Hd.
    destruct (dropWhile isSpace (rev (dropWhile isSpace s)));
      [reflexivity | exact Hd].
Qed.

Lemma trim_tight (s : jsstring) : tight s = true -> trim s = s.
Proof.
  unfold tight. rewrite andb_true_iff, !negb_true_iff. intros [Hh Hl].
  unfold trim.
  rewrite (TextInputFacts.dropWhile_fixed isSpace s)
    by (destruct s; [exact I | exact Hh]).
  rewrite last_rev in Hl.
  rewrite (TextInputFacts.dropWhile_fixed isSpace (rev s))
    by (destruct (rev s); [exact I | exact Hl]).
  apply rev_involutive.
Qed.

(** *** One pass, then the next *)

Lemma sentinel_cool (rep : jsstring) : sentinel rep = true -> cool rep = true.
Proof.
  intros Hr. destruct (sentinel_shape rep Hr) as (capitals & -> & Hu).
  apply cool_app. split; [|reflexivity].
  unfold cool. rewrite forallb_forall in *. intros c Hc.
  apply negb_true_iff. destruct (hot c) eqn:E; [|reflexivity].
  destruct (hot_not_letter c E) as [_ Eu]. rewrite (Hu c Hc) in Eu.
  discriminate.
Qed.

Lemma mark_not_word (ch : string) (c0 : N) :
  js ch = [c0] -> isWordChar c0 = false ->
  forall c, isChar ch c = true -> isWordChar c = false.
Proof.
  intros E H0 c Hc. unfold isChar in Hc. apply eqs_eq in Hc.
  rewrite E in Hc. injection Hc as <-. exact H0.
Qed.

Lemma pass_calm (ws : list jsstring) (rep s : jsstring) :
  lettered ws = true -> sentinel rep = true ->
  calm s = true -> calm (replace (wordThenSpaces ws) rep s) = true.
Proof.
  intros Hws Hrep. rewrite !calm_parts. intros (H0 & H1 & H2 & H3).
  unfold replace. repeat split.
  - apply out_cool; [apply sentinel_cool, Hrep | exact H0].
  - apply (noRun_out ws rep Hrep 2 _ ltac:(lia)
             (mark_not_word "!" 33 eq_refl eq_refl) (length s));
      [apply Nat.le_refl | exact H1].
  - apply (noRun_out ws rep Hrep 2 _ ltac:(lia)
             (mark_not_word "?" 63 eq_refl eq_refl) (length s));
      [apply Nat.le_refl | exact H2].
  - apply (noRun_out ws rep Hrep 3 _ ltac:(lia)
             (mark_not_word "." 46 eq_refl eq_refl) (length s));
      [apply Nat.le_refl | exact H3].
Qed.

Lemma pass_tight (ws : list jsstring) (rep s : jsstring) :
  sentinel rep = true ->
  tight s = true -> tight (replace (wordThenSpaces ws) rep s) = true.
Proof. intros Hrep. apply (out_tight ws rep Hrep). Qed.

(** A pass leaves no match of its own pattern, and keeps a text free of
    matches of the pattern of another pass. *)
Lemma pass_quiet (ws : list jsstring) (rep s : jsstring) :
  lettered ws = true -> sentinel rep = true ->
  quiet ws None (replace (wordThenSpaces ws) rep s) = true.
Proof.
  intros Hws Hrep.
  apply (out_quiet ws rep Hws Hrep ws Hws (length s) s (Nat.le_refl _));
    left; reflexivity.
Qed.

Lemma pass_keeps_quiet (ws ws' : list jsstring) (rep s : jsstring) :
  lettered ws = true -> sentinel rep = true -> lettered ws' = true ->
  quiet ws' None s = true ->
  quiet ws' None (replace (wordThenSpaces ws) rep s) = true.
Proof.
  intros Hws Hrep Hws' Hq.
  apply (out_quiet ws rep Hws Hrep ws' Hws' (length s) s (Nat.le_refl _));
    [right; exact Hq | left; reflexivity].
Qed.

Lemma pass_fixed (ws : list jsstring) (rep s : jsstring) :
  quiet ws None s = true -> replace (wordThenSpaces ws) rep s = s.
Proof. apply replace_quiet. Qed.
End Idempotence.

(** C4, as stated, fails: the normaliser is not idempotent.  For
    "isn't not happy" the first run gives "is not NOT_happy"; the second
    rewrites the "not" that the contraction left and gives
    "is NOT_NOT_happy".  And each kind of text that is not calm holds a text
    on which the second run differs from the first: a contraction leaves a
    word that the next run rewrites, and a marker put at an end of the text
    brings a blank that the next run trims. *)
Lemma preprocessText_not_idempotent :
  (let text := js "isn't not happy" in
   preprocessText text = js "is not NOT_happy"
   /\ preprocessText (preprocessText text) = js "is NOT_NOT_happy"
   /\ preprocessText (preprocessText text) <> preprocessText text)
  /\ (let text := js "wow!!" in
      preprocessText text = js "wow EXCITEMENT "
      /\ preprocessText (preprocessText text) = js "wow EXCITEMENT")
  /\ Forall
       (fun text =>
          calm text = false
          /\ preprocessText (preprocessText text) <> preprocessText text)
       [ js "isn't happy"; js "good :)"; js "good =)"; js "wow!!";
         js "what??"; js "well..."; js "good " ++ [0xD83D; 0xDE0A]%N;
         js "good " ++ [0x2764; 0xFE0F]%N ].
Proof.
  cbv zeta. split; [|split].
  - repeat split; try (vm_compute; reflexivity).
    intros E. vm_compute in E. discriminate.
  - split; vm_compute; reflexivity.
  - repeat constructor; try (vm_compute; reflexivity);
      intros E; vm_compute in E; discriminate.
Qed.

(** C4, amended: the normaliser is idempotent on calm text, that is on every
    text without apostrophe, colon, equals sign and emoji, without two [!]
    or two [?] in a row and without three [.] in a row.  On such a text only
    the rewrites of the negations, the intensifiers and the diminishers
    apply, after the trimming; their result holds none of these words before
    white space at the start of a word, so a second run rewrites nothing and
    replaces no sentinel again. *)
Theorem preprocessText_idempotent_calm (text : jsstring) :
  calm text = true ->
  let once := preprocessText text in
  once
  = replace (wordThenSpaces diminishers) (js "DIMINISHER_")
      (replace (wordThenSpaces intensifiers) (js "INTENSIFIER_")
         (replace (wordThenSpaces negations) (js "NOT_") (trim text)))
  /\ preprocessText once = once
  /\ calm once = true
  /\ quiet negations None once = true
  /\ quiet intensifiers None once = true
  /\ quiet diminishers None once = true.
Proof.
  intros Hc. cbv zeta.
  assert (Ln : lettered negations = true) by reflexivity.
  assert (Li : lettered intensifiers = true) by reflexivity.
  assert (Ld : lettered diminishers = true) by reflexivity.
  assert (Sn : sentinel (js "NOT_") = true) by reflexivity.
  assert (Si : sentinel (js "INTENSIFIER_") = true) by reflexivity.
  assert (Sd : sentinel (js "DIMINISHER_") = true) by reflexivity.
  pose proof (calm_trim text Hc) as Ct. pose proof (tight_trim text) as Tt.
  set (t := trim text) in *.
  pose proof (pass_calm negations (js "NOT_") t Ln Sn Ct) as Ca.
  pose proof (pass_tight negations (js "NOT_") t Sn Tt) as Ta.
  pose proof (pass_quiet negations (js "NOT_") t Ln Sn) as Qa.
  set (a := replace (wordThenSpaces negations) (js "NOT_") t) in *.
  pose proof (pass_calm intensifiers (js "INTENSIFIER_") a Li Si Ca) as Cb.
  pose proof (pass_tight intensifiers (js "INTENSIFIER_") a Si Ta) as Tb.
  pose proof (pass_quiet intensifiers (js "INTENSIFIER_") a Li Si) as Qb.
  pose proof (pass_keeps_quiet intensifiers negations (js "INTENSIFIER_") a
                Li Si Ln Qa) as Qb'.
  set (b := replace (wordThenSpaces intensifiers) (js "INTENSIFIER_") a) in *.
  pose proof (pass_calm diminishers (js "DIMINISHER_") b Ld Sd Cb) as Cc.
  pose proof (pass_tight diminishers (js "DIMINISHER_") b Sd Tb) as Tc.
  pose proof (pass_quiet diminishers (js "DIMINISHER_") b Ld Sd) as Qc.
  pose proof (pass_keeps_quiet diminishers negations (js "DIMINISHER_") b
                Ld Sd Ln Qb') as Qc'.
  pose proof (pass_keeps_quiet diminishers intensifiers (js "DIMINISHER_") b
                Ld Sd Li Qb) as Qc''.
  set (c := replace (wordThenSpaces diminishers) (js "DIMINISHER_") b) in *.
  assert (E : preprocessText text = c)
    by (apply preprocessText_calm; exact Cc).
  rewrite E. split; [reflexivity|]. split; [|tauto].
  assert (W : replace (wordThenSpaces diminishers) (js "DIMINISHER_")
                (replace (wordThenSpaces intensifiers) (js "INTENSIFIER_")
                   (replace (wordThenSpaces negations) (js "NOT_")
                      (trim c))) = c).
  { rewrite (trim_tight c Tc).
    rewrite (pass_fixed negations _ c Qc').
    rewrite (pass_fixed intensifiers _ c Qc'').
    apply (pass_fixed diminishers _ c Qc). }
  rewrite <- W at 2. apply preprocessText_calm. cbv zeta.
  rewrite W. exact Cc.
Qed.

Lemma preprocessText_idempotent_calm_witness :
  let text := js "  This is not good, it is rather bad!  " in
  calm text = true
  /\ preprocessText text = js "This is NOT_good, it is DIMINISHER_bad!"
  /\ preprocessText (preprocessText text) = preprocessText text.
Proof.
  cbv zeta. split; [reflexivity|]. split; [vm_compute; reflexivity|].
  apply (preprocessText_idempotent_calm
           (js "  This is not good, it is rather bad!  ")).
  reflexivity.
Defined.
